(** * The leaderboard relay of the BART experiment

    A shallow embedding of [Server/Local Server Script.py] (the relay
    server) and of the [NetworkClient] class of [BART.py] (the relay
    client), with the properties of the ranking store, of the connection
    registry, of the accept loop and of the client's background listener;
    and of the functions of the task in [BART.py] that compute: the list
    of trials, the entry of the estimate and the pump loop.

    Conventions of the embedding.
    - A Python [str] is held as the [string] of its UTF-8 encoding, so
      [bytes.decode()] is a validity check and [str.encode()] is the
      identity on the underlying bytes.
    - Python exceptions are values of [exn]; a computation that may raise
      returns an [outcome]. Stateful code runs in the monad [M S], which
      threads the globals (or the attributes of [self]) and keeps the state
      reached when an exception is raised, as Python does.
    - [json.loads], [json.dumps] and [int] on a [str] belong to the Python
      library, not to the repository: they are the fields of the class
      [Library], and every theorem holds for every instance.
    - The scripts take no lock. A step of the server is one uninterrupted
      run of one thread from the return of a blocking call ([accept],
      [recv]) to its next one; the sends of one broadcast belong to the step
      of the handler that performs them. *)

From Stdlib Require Import ZArith Floats.SpecFloat Strings.Byte.
From Stdlib Require Floats.PrimFloat Numbers.Cyclic.Int63.Uint63.
From stdpp Require Import base option list list_numbers strings pretty.
From stdpp Require Import gmap sorting.

Set Warnings "-register-all".
Local Open Scope Z_scope.

(** ** Exceptions and the two monads *)

(** The exception classes the two scripts can meet. All of them derive from
    [Exception]. *)
Inductive exn : Type :=
| JSONDecodeError
| UnicodeDecodeError
| KeyError
| TypeError
| ValueError
| OverflowError
| RecursionError
| OSError.

(** [except json.JSONDecodeError]: the class has no subclass. A plain
    [ValueError] and a [UnicodeDecodeError] are not instances of it. *)
Definition is_JSONDecodeError (e : exn) : bool :=
  match e with JSONDecodeError => true | _ => false end.

(** [except Exception]. *)
Definition is_Exception (e : exn) : bool := true.

Inductive outcome (A : Type) : Type :=
| Ok (a : A)
| Raise (e : exn).
Arguments Ok {A} a.
Arguments Raise {A} e.

#[global] Instance outcome_ret : MRet outcome := λ A a, Ok a.
#[global] Instance outcome_bind : MBind outcome := λ A B f m,
  match m with Ok a => f a | Raise e => Raise e end.

(** State [S], result or exception. *)
Definition M (S A : Type) : Type := S → outcome A * S.

#[global] Instance M_ret {S} : MRet (M S) := λ A a s, (Ok a, s).
#[global] Instance M_bind {S} : MBind (M S) := λ A B f m s,
  match m s with
  | (Ok a, s') => f a s'
  | (Raise e, s') => (Raise e, s')
  end.

Definition lift {S A} (o : outcome A) : M S A := λ s, (o, s).
Definition gets {S A} (f : S → A) : M S A := λ s, (Ok (f s), s).
Definition modify {S} (f : S → S) : M S unit := λ s, (Ok (), f s).

(** [try: body  except C as e: handler e], where [C] is given by its
    instance test. *)
Definition try_except {S A} (body : M S A) (C : exn → bool)
    (handler : exn → M S A) : M S A := λ s,
  match body s with
  | (Raise e, s') => if C e then handler e s' else (Raise e, s')
  | r => r
  end.

(** [for x in l: body x], for a list that the body does not change. *)
Fixpoint for_each {S A} (l : list A) (body : A → M S unit) : M S unit :=
  match l with
  | [] => mret ()
  | x :: l' => body x ;; for_each l' body
  end.

(** ** Python values *)

(** The objects [json.loads] builds. A [dict] keeps its items in insertion
    order, under distinct keys; a [float] is an IEEE 754 binary64 datum. *)
Inductive value : Type :=
| VNone
| VBool (b : bool)
| VInt (n : Z)
| VFloat (f : spec_float)
| VStr (s : string)
| VList (l : list value)
| VDict (d : list (string * value)).

Definition bytes : Type := list byte.

Definition encode (s : string) : bytes := String.list_byte_of_string s.

(** *** [bytes.decode()]: strict UTF-8 *)

Definition in_range (lo hi : N) (b : byte) : bool :=
  (lo <=? Byte.to_N b)%N && (Byte.to_N b <=? hi)%N.

Definition continuation (b : byte) : bool := in_range 0x80 0xBF b.

(** Second byte of a three-byte sequence: no overlong form, no surrogate. *)
Definition second_of_3 (b0 b1 : byte) : bool :=
  if in_range 0xE0 0xE0 b0 then in_range 0xA0 0xBF b1
  else if in_range 0xED 0xED b0 then in_range 0x80 0x9F b1
  else continuation b1.

(** Second byte of a four-byte sequence: no overlong form, at most U+10FFFF. *)
Definition second_of_4 (b0 b1 : byte) : bool :=
  if in_range 0xF0 0xF0 b0 then in_range 0x90 0xBF b1
  else if in_range 0xF4 0xF4 b0 then in_range 0x80 0x8F b1
  else continuation b1.

Fixpoint utf8_valid (bs : bytes) : bool :=
  match bs with
  | [] => true
  | b0 :: r0 =>
    if in_range 0x00 0x7F b0 then utf8_valid r0
    else match r0 with
    | [] => false
    | b1 :: r1 =>
      if in_range 0xC2 0xDF b0 then continuation b1 && utf8_valid r1
      else match r1 with
      | [] => false
      | b2 :: r2 =>
        if in_range 0xE0 0xEF b0
        then second_of_3 b0 b1 && continuation b2 && utf8_valid r2
        else match r2 with
        | [] => false
        | b3 :: r3 =>
          in_range 0xF0 0xF4 b0 && second_of_4 b0 b1
          && continuation b2 && continuation b3 && utf8_valid r3
        end
      end
    end
  end.

Definition decode (data : bytes) : outcome string :=
  if utf8_valid data then Ok (String.string_of_list_byte data)
  else Raise UnicodeDecodeError.

(** *** The Python library *)

Class Library : Type := {
  (** [json.loads(s)] *)
  json_loads : string → outcome value;
  (** [json.dumps(v)] *)
  json_dumps : value → outcome string;
  (** [int(s)] for a [str]: [None] stands for [ValueError] *)
  int_of_str : string → option Z;
}.

(** [int(f)] for a finite [float]: truncation towards zero. *)
Definition trunc_float (s : bool) (m : positive) (e : Z) : Z :=
  let a := if 0 <=? e then Z.shiftl (Z.pos m) e else Z.shiftr (Z.pos m) (- e) in
  if s then - a else a.

(** [x[k]] for a [str] key. *)
Definition getitem (x : value) (k : string) : outcome value :=
  match x with
  | VDict d =>
    match list_find (λ kv, bool_decide (kv.1 = k)) d with
    | Some (_, (_, v)) => Ok v
    | None => Raise KeyError
    end
  | _ => Raise TypeError
  end.

Section Builtins.
Context `{Library}.

(** [int(v)] *)
Definition py_int (v : value) : outcome Z :=
  match v with
  | VInt n => Ok n
  | VBool b => Ok (if b then 1 else 0)
  | VFloat S754_nan => Raise ValueError
  | VFloat (S754_infinity _) => Raise OverflowError
  | VFloat (S754_zero _) => Ok 0
  | VFloat (S754_finite s m e) => Ok (trunc_float s m e)
  | VStr s =>
    match int_of_str s with Some n => Ok n | None => Raise ValueError end
  | VNone | VList _ | VDict _ => Raise TypeError
  end.

(** [lambda x: int(x["pumps"])] *)
Definition by_pumps (x : value) : outcome Z :=
  v ← getitem x "pumps"; py_int v.
End Builtins.

(** *** [sorted(l, key=key, reverse=True)] *)

(** The keys are computed first, one call per element in list order, and the
    first exception ends the call. *)
Fixpoint decorate {A} (key : A → outcome Z) (l : list A)
    : outcome (list (Z * A)) :=
  match l with
  | [] => Ok []
  | x :: l' => k ← key x; kl ← decorate key l'; Ok ((k, x) :: kl)
  end.

(** [x] stood before every element of [l] in the input: it goes in front of
    the first element whose key is not greater than its own. *)
Fixpoint insert_desc {A} (x : Z * A) (l : list (Z * A)) : list (Z * A) :=
  match l with
  | [] => [x]
  | y :: l' => if y.1 <=? x.1 then x :: y :: l' else y :: insert_desc x l'
  end.

Definition sort_desc {A} (kl : list (Z * A)) : list (Z * A) :=
  foldr insert_desc [] kl.

Definition sorted_reverse {A} (key : A → outcome Z) (l : list A)
    : outcome (list A) :=
  kl ← decorate key l; Ok ((sort_desc kl).*2).

(** ** The relay server: [Server/Local Server Script.py] *)

Definition MAX_PLAYERS : nat := 5.
Definition MAX_LEADERBOARD : nat := 8.

(** A socket object returned by [server.accept()], named by the number of
    connections accepted before it. *)
Abbreviation conn := nat (only parsing).

(** The lines the script prints. *)
Inductive line : Type :=
| Connected (player_id : Z)
| Info (players : nat)
| Board (l : list value)
| ParseError (e : exn)
| PlayerError (player_id : Z) (e : exn)
| Disconnected (player_id : Z)
| Warning.

(** The module's globals, and what the script did to the outside: the
    sockets it closed, the [sendall] calls that completed (oldest first) and
    the lines it printed. *)
Record server : Type := {
  clients : list conn;
  client_ids : gmap conn Z;
  next_player_id : Z;
  leaderbord : list value;
  closed : list conn;
  wire : list (conn * bytes);
  stdout : list line;
}.

Definition set_clients (f : list conn → list conn) (s : server) : server :=
  {| clients := f (clients s); client_ids := client_ids s;
     next_player_id := next_player_id s; leaderbord := leaderbord s;
     closed := closed s; wire := wire s; stdout := stdout s |}.
Definition set_client_ids (f : gmap conn Z → gmap conn Z) (s : server)
    : server :=
  {| clients := clients s; client_ids := f (client_ids s);
     next_player_id := next_player_id s; leaderbord := leaderbord s;
     closed := closed s; wire := wire s; stdout := stdout s |}.
Definition set_next_player_id (f : Z → Z) (s : server) : server :=
  {| clients := clients s; client_ids := client_ids s;
     next_player_id := f (next_player_id s); leaderbord := leaderbord s;
     closed := closed s; wire := wire s; stdout := stdout s |}.
Definition set_leaderbord (f : list value → list value) (s : server)
    : server :=
  {| clients := clients s; client_ids := client_ids s;
     next_player_id := next_player_id s; leaderbord := f (leaderbord s);
     closed := closed s; wire := wire s; stdout := stdout s |}.
Definition set_closed (f : list conn → list conn) (s : server) : server :=
  {| clients := clients s; client_ids := client_ids s;
     next_player_id := next_player_id s; leaderbord := leaderbord s;
     closed := f (closed s); wire := wire s; stdout := stdout s |}.
Definition set_wire (f : list (conn * bytes) → list (conn * bytes))
    (s : server) : server :=
  {| clients := clients s; client_ids := client_ids s;
     next_player_id := next_player_id s; leaderbord := leaderbord s;
     closed := closed s; wire := f (wire s); stdout := stdout s |}.
Definition set_stdout (f : list line → list line) (s : server) : server :=
  {| clients := clients s; client_ids := client_ids s;
     next_player_id := next_player_id s; leaderbord := leaderbord s;
     closed := closed s; wire := wire s; stdout := f (stdout s) |}.

(** The state when the script reaches its accept loop. *)
Definition server0 : server :=
  {| clients := []; client_ids := ∅; next_player_id := 1; leaderbord := [];
     closed := []; wire := []; stdout := [] |}.

(** [l.remove(x)] on a list that holds [x]: the first occurrence goes. *)
Fixpoint remove_first (x : conn) (l : list conn) : list conn :=
  match l with
  | [] => []
  | y :: l' => if decide (y = x) then l' else y :: remove_first x l'
  end.

Definition print (l : line) : M server unit :=
  modify (set_stdout (λ out, out ++ [l])).

(** [c.sendall(data)]. [net c] tells whether the transport takes the bytes;
    otherwise the call raises [OSError]. *)
Definition sendall (net : conn → bool) (c : conn) (data : bytes)
    : M server unit := λ s,
  if net c then (Ok (), set_wire (λ w, w ++ [(c, data)]) s)
  else (Raise OSError, s).

(** [c.close()] *)
Definition close (c : conn) : M server unit :=
  modify (set_closed (λ l, l ++ [c])).

(** [clients.remove(c)]: [ValueError] when [c] is not in the list. *)
Definition clients_remove (c : conn) : M server unit := λ s,
  if bool_decide (c ∈ clients s) then (Ok (), set_clients (remove_first c) s)
  else (Raise ValueError, s).

(** [del client_ids[c]]: [KeyError] when [c] is not a key. *)
Definition del_client_id (c : conn) : M server unit := λ s,
  match client_ids s !! c with
  | Some _ => (Ok (), set_client_ids (delete c) s)
  | None => (Raise KeyError, s)
  end.

(** What [conn.recv(1024)] gives: bytes (none at end of stream), or an
    [OSError]. *)
Inductive recv_result : Type :=
| Data (data : bytes)
| RecvFails.

Definition recv {S} (r : recv_result) : M S bytes :=
  lift (match r with Data data => Ok data | RecvFails => Raise OSError end).

Inductive loop : Type := Continue | Break.

Section Server.
Context `{Library}.

(** Lines 33-35: the update of the ranking store. [append] changes the list
    in place, so the new entry stays when [sorted] raises. *)
Definition recordUpdate (message_obj : value) : M server unit :=
  modify (set_leaderbord (λ l, l ++ [message_obj])) ;;
  l ← gets leaderbord;
  l' ← lift (sorted_reverse by_pumps l);
  modify (set_leaderbord (λ _, l')) ;;
  modify (set_leaderbord (take MAX_LEADERBOARD)).

(** Lines 39-40: the relay of the ranking to every registered socket. *)
Definition broadcast (net : conn → bool) : M server unit :=
  cs ← gets clients;
  for_each cs (λ c,
    l ← gets leaderbord;
    text ← lift (json_dumps (VList l));
    sendall net c (encode text)).

(** Lines 31-42: the inner [try]. *)
Definition handle_message (net : conn → bool) (data : bytes)
    : M server unit :=
  try_except
    (message_obj ← lift (text ← decode data; json_loads text);
     recordUpdate message_obj ;;
     l ← gets leaderbord;
     print (Board l) ;;
     broadcast net)
    is_JSONDecodeError
    (λ e, print (ParseError e)).

(** Lines 17-22. *)
Definition handle_client_enter (conn : conn) : M server Z :=
  player_id ← gets next_player_id;
  modify (set_next_player_id (λ n, n + 1)) ;;
  modify (set_client_ids <[conn := player_id]>) ;;
  print (Connected player_id) ;;
  n ← gets (λ s, length (clients s));
  print (Info n) ;;
  mret player_id.

(** Lines 26-42: one turn of [while True], once [recv] has returned. *)
Definition loop_body (net : conn → bool) (r : recv_result) : M server loop :=
  data ← recv r;
  match data with
  | [] => mret Break
  | _ => handle_message net data ;; mret Continue
  end.

(** Lines 46-51: the [finally] block. *)
Definition handle_client_finally (conn : conn) (player_id : Z)
    : M server unit :=
  close conn ;;
  clients_remove conn ;;
  print (Disconnected player_id) ;;
  n ← gets (λ s, length (clients s));
  print (Info n) ;;
  del_client_id conn.

(** Lines 24-51 for one turn of the loop: the turn under the outer [try];
    when the loop is left, by [break] or by an exception, the [finally]
    block runs. *)
Definition handle_client_turn (net : conn → bool) (conn : conn)
    (player_id : Z) (r : recv_result) : M server loop := λ s,
  match try_except (loop_body net r) is_Exception
          (λ e, print (PlayerError player_id e) ;; mret Break) s with
  | (Ok Continue, s') => (Ok Continue, s')
  | (res, s') =>
    match handle_client_finally conn player_id s' with
    | (Ok _, s'') => (res, s'')
    | (Raise e, s'') => (Raise e, s'')
    end
  end.
End Server.

(** *** The accept loop and the threads *)

Definition rejection : bytes := encode "Server is full. Try again later.".

(** The branch of line 74 the main thread took before it blocked in
    [server.accept()]. *)
Inductive branch : Type := Register | Refuse.

(** Line 74, and line 79 in the [else] branch. *)
Definition check : M server branch :=
  n ← gets (λ s, length (clients s));
  if bool_decide (n < MAX_PLAYERS)%nat then mret Register
  else print Warning ;; mret Refuse.

(** Lines 76 and 81-82: what the main thread does with the socket [accept]
    returned. *)
Definition accepted_conn (net : conn → bool) (b : branch) (conn : conn)
    : M server unit :=
  match b with
  | Register => modify (set_clients (λ l, l ++ [conn]))
  | Refuse => sendall net conn rejection ;; close conn
  end.

(** A thread running [handle_client]: started and not yet at line 17, or in
    the loop with its local [player_id]. *)
Inductive activation : Type :=
| Spawned
| Running (player_id : Z).

(** The main thread: blocked in [accept], or ended by an exception (the
    process then ends, the handler threads being daemons). *)
Inductive main_thread : Type :=
| InAccept (b : branch)
| Dead.

(** The whole process. [accepted] counts the sockets [accept] has returned.
    [refused] and [issued] are history: the sockets that went through lines
    80-82, and the identifiers in the order line 17 read them. *)
Record system : Type := {
  mem : server;
  main : main_thread;
  handlers : gmap conn activation;
  accepted : nat;
  refused : list conn;
  issued : list (conn * Z);
}.

(** What makes a thread run: [accept] returns a new socket, or raises; a
    started thread gets to line 17; the [recv] of the handler of [c]
    returns. [net] tells, for the sends of that step, which sockets take
    the bytes. *)
Inductive event : Type :=
| Accept (net : conn → bool)
| AcceptFails
| Start (c : conn)
| Recv (c : conn) (r : recv_result) (net : conn → bool).

(** The process when the main thread first blocks in [accept]: line 74 saw
    an empty registry. *)
Definition boot : system :=
  {| mem := server0; main := InAccept Register; handlers := ∅;
     accepted := 0; refused := []; issued := [] |}.

Section System.
Context `{Library}.

(** One step of the process; [None] when the event cannot happen in [st]:
    the process has ended, or the thread is not where the event needs it. *)
Definition step (st : system) (ev : event) : option system :=
  match main st with
  | Dead => None
  | InAccept b =>
    match ev with
    | Accept net =>
      let conn := accepted st in
      let hs := match b with
                | Register => <[conn := Spawned]> (handlers st)
                | Refuse => handlers st
                end in
      let rs := match b with
                | Register => refused st
                | Refuse => refused st ++ [conn]
                end in
      match (accepted_conn net b conn ;; check) (mem st) with
      | (Ok b', m) =>
        Some {| mem := m; main := InAccept b'; handlers := hs;
                accepted := S (accepted st); refused := rs;
                issued := issued st |}
      | (Raise _, m) =>
        Some {| mem := m; main := Dead; handlers := hs;
                accepted := S (accepted st); refused := rs;
                issued := issued st |}
      end
    | AcceptFails =>
      Some {| mem := mem st; main := Dead; handlers := handlers st;
              accepted := accepted st; refused := refused st;
              issued := issued st |}
    | Start c =>
      match handlers st !! c with
      | Some Spawned =>
        match handle_client_enter c (mem st) with
        | (Ok player_id, m) =>
          Some {| mem := m; main := main st;
                  handlers := <[c := Running player_id]> (handlers st);
                  accepted := accepted st; refused := refused st;
                  issued := issued st ++ [(c, player_id)] |}
        | (Raise _, m) =>
          Some {| mem := m; main := main st;
                  handlers := delete c (handlers st);
                  accepted := accepted st; refused := refused st;
                  issued := issued st |}
        end
      | _ => None
      end
    | Recv c r net =>
      match handlers st !! c with
      | Some (Running player_id) =>
        match handle_client_turn net c player_id r (mem st) with
        | (Ok Continue, m) =>
          Some {| mem := m; main := main st; handlers := handlers st;
                  accepted := accepted st; refused := refused st;
                  issued := issued st |}
        | (_, m) =>
          Some {| mem := m; main := main st;
                  handlers := delete c (handlers st);
                  accepted := accepted st; refused := refused st;
                  issued := issued st |}
        end
      | _ => None
      end
    end
  end.

(** The steps of [evs], in order. *)
Fixpoint run (st : system) (evs : list event) : option system :=
  match evs with
  | [] => Some st
  | ev :: evs' =>
    match step st ev with
    | Some st' => run st' evs'
    | None => None
    end
  end.
End System.

(** ** The relay client: class [NetworkClient] of [BART.py] *)

Module NetworkClient.

Inductive line : Type :=
| Leaderboard (v : value)
| ListeningFailed (e : exn)
| SendingFailed (e : exn).

(** The attributes of [self]; the socket [self.sock] is held as whether
    [close()] was called on it and the [sendall] calls that completed. *)
Record self : Type := {
  player_id : value;
  sock_closed : bool;
  sock_sent : list bytes;
  leaderboard : value;
  running : bool;
  stdout : list line;
}.

Definition set_sock_closed (b : bool) (s : self) : self :=
  {| player_id := player_id s; sock_closed := b; sock_sent := sock_sent s;
     leaderboard := leaderboard s; running := running s;
     stdout := stdout s |}.
Definition set_sock_sent (f : list bytes → list bytes) (s : self) : self :=
  {| player_id := player_id s; sock_closed := sock_closed s;
     sock_sent := f (sock_sent s); leaderboard := leaderboard s;
     running := running s; stdout := stdout s |}.
Definition set_leaderboard (v : value) (s : self) : self :=
  {| player_id := player_id s; sock_closed := sock_closed s;
     sock_sent := sock_sent s; leaderboard := v; running := running s;
     stdout := stdout s |}.
Definition set_running (b : bool) (s : self) : self :=
  {| player_id := player_id s; sock_closed := sock_closed s;
     sock_sent := sock_sent s; leaderboard := leaderboard s; running := b;
     stdout := stdout s |}.
Definition set_stdout (f : list line → list line) (s : self) : self :=
  {| player_id := player_id s; sock_closed := sock_closed s;
     sock_sent := sock_sent s; leaderboard := leaderboard s;
     running := running s; stdout := f (stdout s) |}.

(** [__init__], when [connect] succeeds. *)
Definition init (player_id : value) : self :=
  {| player_id := player_id; sock_closed := false; sock_sent := [];
     leaderboard := VList []; running := true; stdout := [] |}.

Definition print (l : line) : M self unit :=
  modify (set_stdout (λ out, out ++ [l])).

(** [self.sock.recv(4096)]: [OSError] on a socket closed by [close()]. *)
Definition sock_recv (r : recv_result) : M self bytes :=
  shut ← gets sock_closed;
  if (shut : bool) then lift (Raise OSError) else recv r.

(** [self.sock.sendall(data)]: [OSError] on a socket closed by [close()],
    or when the transport ([net]) does not take the bytes. *)
Definition sock_sendall (net : bool) (data : bytes) : M self unit :=
  shut ← gets sock_closed;
  if (shut : bool) then lift (Raise OSError)
  else if net then modify (set_sock_sent (λ l, l ++ [data]))
  else lift (Raise OSError).

(** Whether the listener thread has returned or waits in [recv]. *)
Inductive listener : Type := Stopped | Reading.

Section Methods.
Context `{Library}.

(** Lines 72-74: what the listener does with the bytes it read. *)
Definition on_data (data : bytes) : M self unit :=
  match data with
  | [] => mret ()
  | _ =>
    v ← lift (text ← decode data; json_loads text);
    modify (set_leaderboard v) ;;
    print (Leaderboard v)
  end.

(** Lines 75-77: the [except] block. *)
Definition on_error (e : exn) : M self unit :=
  print (ListeningFailed e) ;; modify (set_running false).

(** Lines 70-77: one turn of [while self.running], from the call of
    [recv]. *)
Definition listen_turn (r : recv_result) : M self unit :=
  try_except (data ← sock_recv r; on_data data) is_Exception on_error.

(** The thread was in a [recv] called while the socket was open, and the
    call now ends with [r]: the rest of that turn, then the test of
    line 69. *)
Definition listen_resume (r : recv_result) : M self listener :=
  try_except (data ← recv r; on_data data) is_Exception on_error ;;
  go ← gets running;
  mret (if (go : bool) then Reading else Stopped).

(** [listen_for_updates], fed the results of its successive [recv]
    calls. With the results used up and [self.running] still true the
    thread is in its next [recv]. *)
Fixpoint listen_for_updates (reads : list recv_result) : M self listener :=
  go ← gets running;
  if (go : bool) then
    match reads with
    | [] => mret Reading
    | r :: reads' => listen_turn r ;; listen_for_updates reads'
    end
  else mret Stopped.

Definition send_update (net : bool) (pumps : value) : M self unit :=
  id ← gets player_id;
  let msg := VDict [("id", id); ("pumps", pumps)] in
  try_except
    (text ← lift (json_dumps msg);
     sock_sendall net (encode text))
    is_Exception
    (λ e, print (SendingFailed e)).

Definition get_leaderboard : M self value := gets leaderboard.

Definition close : M self unit :=
  modify (set_running false) ;;
  modify (set_sock_closed true).
End Methods.
End NetworkClient.

(** ** The balloon task: [BART.py]

    The functions of the task that compute: the list of trials, the entry
    of the estimate and the pump loop of a trial. Drawing, sounds, waiting
    and the rows written to [data.txt] are left out, and so are the amounts
    of money, which no test of these functions reads. *)

Module Bart.

(** *** [createTrialHandler] *)

(** The dictionary [trialDef]. *)
Record trialDef (A : Type) : Type := {
  balloon_img : string;
  pop_img : string;
  maxPumps : Z;
  reward : A;
}.
Arguments balloon_img {A} _.
Arguments pop_img {A} _.
Arguments maxPumps {A} _.
Arguments reward {A} _.

(** Lines 171-176: the two lists of file names, one [append] each per
    colour. *)
Definition images (colorList : list string) : list string * list string :=
  foldl (λ imgs color,
           (imgs.1 ++ [color +:+ "Balloon.png"], imgs.2 ++ [color +:+ "Pop.png"]))
    ([], []) colorList.

(** Lines 177-186: the trial list, as many entries as [colorList] has, each
    built from the three lists at one index. [None] stands for the
    [IndexError] of an index past the end of a list. *)
Definition trialList {A} (colorList : list string) (maxPumps : list Z)
    (REWARD : A) : option (list (trialDef A)) :=
  let balloonImg := (images colorList).1 in
  let popImg := (images colorList).2 in
  foldl (λ acc index,
           trialList ← acc;
           b ← balloonImg !! index;
           p ← popImg !! index;
           m ← maxPumps !! index;
           Some (trialList ++ [{| balloon_img := b; pop_img := p;
                                  maxPumps := m; reward := REWARD |}]))
    (Some []) (seq 0 (length colorList)).

(** *** [get_estimate] *)

Definition is_digit (a : Ascii.ascii) : bool :=
  let n := Ascii.nat_of_ascii a in (48 <=? n)%nat && (n <=? 57)%nat.

Fixpoint all_digits (s : string) : bool :=
  match s with
  | EmptyString => true
  | String a s' => is_digit a && all_digits s'
  end.

(** [s.isdigit()], for a [str] of ASCII characters. *)
Definition isdigit (s : string) : bool :=
  match s with
  | EmptyString => false
  | _ => all_digits s
  end.

(** The characters of [s] are ASCII, as the characters of the key names of
    [event.getKeys()] are. *)
Definition is_ascii (s : string) : bool :=
  forallb (λ a, (Ascii.nat_of_ascii a <? 128)%nat) (String.list_ascii_of_string s).

(** The number a string of ASCII digits is the decimal numeral of, read
    from the left with [acc] for the digits already read. *)
Fixpoint int_acc (s : string) (acc : Z) : Z :=
  match s with
  | EmptyString => acc
  | String a s' => int_acc s' (10 * acc + (Z.of_nat (Ascii.nat_of_ascii a) - 48))
  end.

Definition int_digits (s : string) : Z := int_acc s 0.

(** [s[:-1]] *)
Fixpoint drop_last (s : string) : string :=
  match s with
  | EmptyString => EmptyString
  | String a EmptyString => EmptyString
  | String a s' => String a (drop_last s')
  end.

(** [str(n)] for an [int]. *)
Definition str (n : Z) : string := pretty n.

(** How the entry of the estimate stands when the keys are used up: the
    function returned; [core.quit()] ended the program; the loop waits
    for keys, showing [input_text] and [error_message]; or an exception
    left the function. *)
Inductive estimate_end : Type :=
| Returned (user_input : Z)
| Quit
| Asking (input_text error_message : string)
| Raised (e : exn).

Definition out_of_range (min_value max_value : Z) : string :=
  "⚠ The number must be between " +:+ str min_value +:+ " and "
    +:+ str max_value +:+ "!".

Definition invalid_entry : string :=
  "⚠ Invalid Entry! Please enter a whole number.".

Section Estimate.
Context `{Library}.

(** Lines 295-319: the keys of [event.getKeys()], frame after frame, in
    the order they are handled. *)
Fixpoint get_estimate_keys (min_value max_value : Z) (keys : list string)
    (input_text error_message : string) : estimate_end :=
  let max_digits := String.length (str max_value) in
  match keys with
  | [] => Asking input_text error_message
  | key :: keys' =>
    if bool_decide (key ∈ ["return"; "num_enter"]) then
      if isdigit input_text then
        match int_of_str input_text with
        | None => Raised ValueError
        | Some user_input =>
          if (min_value <=? user_input) && (user_input <=? max_value)
          then Returned user_input
          else get_estimate_keys min_value max_value keys' input_text
                 (out_of_range min_value max_value)
        end
      else get_estimate_keys min_value max_value keys' input_text invalid_entry
    else if bool_decide (key ∈ ["backspace"]) then
      get_estimate_keys min_value max_value keys' (drop_last input_text)
        error_message
    else if bool_decide (key ∈ ["escape"]) then Quit
    else if isdigit key then
      let input_text :=
        if (String.length input_text <? max_digits)%nat
        then input_text +:+ key else input_text in
      match int_of_str input_text with
      | None => Raised ValueError
      | Some n =>
        get_estimate_keys min_value max_value keys'
          (if max_value <? n then str max_value else input_text)
          error_message
      end
    else get_estimate_keys min_value max_value keys' input_text error_message
  end.

Definition get_estimate (min_value max_value : Z) (keys : list string)
    : estimate_end :=
  get_estimate_keys min_value max_value keys EmptyString EmptyString.
End Estimate.

(** *** The pump loop of [bart] and [bart_practice] *)

(** [float(k)], for an [int] of less than 63 bits. *)
Definition float_of_int (k : Z) : PrimFloat.float :=
  if k <? 0 then PrimFloat.opp (PrimFloat.of_uint63 (Uint63.of_Z (- k)))
  else PrimFloat.of_uint63 (Uint63.of_Z k).

(** [random.random() < 1.0 / k], where [r] is what [random.random()]
    returns. [None] stands for the [ZeroDivisionError] of [1.0 / 0]. *)
Definition pops (r : PrimFloat.float) (k : Z) : option bool :=
  if bool_decide (k = 0) then None
  else Some (PrimFloat.ltb r (PrimFloat.div PrimFloat.one (float_of_int k))).

(** What [event.waitKeys(keyList=[KEY_PUMP, KEY_NEXT, KEY_QUIT],
    maxWait=15)] gives: nothing in time, or a first key; with the pump key
    goes the number [random.random()] returns in that turn. *)
Inductive respond : Type :=
| NoResponse
| KeyQuit
| KeyNext
| KeyPump (r : PrimFloat.float).

(** How a trial stands when the responses are used up: the loop waits for
    a key; it was left with no response, by the escape key (which leaves
    [bart] too), by cashing out or by a pop; or [ZeroDivisionError], which
    nothing catches, ended the script. Each with [nPumps]. *)
Inductive trial_end : Type :=
| Waiting (nPumps : Z)
| Absent (nPumps : Z)
| Escaped (nPumps : Z)
| Cashed (nPumps : Z)
| Popped (nPumps : Z)
| ZeroDivision (nPumps : Z).

Section Trial.
Context `{Library}.

(** The loop [while continuePumping and not pop] of one trial, entered
    with [nPumps]; [net] tells whether the socket takes the bytes of
    [send_update]. *)
Fixpoint pump (maxPumps : Z) (net : bool) (responds : list respond)
    (nPumps : Z) : M NetworkClient.self trial_end :=
  match responds with
  | [] => mret (Waiting nPumps)
  | NoResponse :: _ => mret (Absent nPumps)
  | KeyQuit :: _ => mret (Escaped nPumps)
  | KeyNext :: _ =>
    NetworkClient.send_update net (VInt nPumps) ;; mret (Cashed nPumps)
  | KeyPump r :: responds' =>
    let nPumps := nPumps + 1 in
    match pops r (maxPumps - nPumps) with
    | None => mret (ZeroDivision nPumps)
    | Some true => mret (Popped nPumps)
    | Some false => pump maxPumps net responds' nPumps
    end
  end.
End Trial.

(** [random.random()] returns a float below [1.0]. *)
Definition drawn (x : respond) : Prop :=
  match x with
  | KeyPump r => PrimFloat.ltb r PrimFloat.one = true
  | _ => True
  end.

(** What the loop, entered with [nPumps] at least two below the limit, ends
    with. *)
Definition pump_end `{Library} (maxPumps : Z) (net : bool) (s : NetworkClient.self)
    (e : trial_end) (s' : NetworkClient.self) : Prop :=
  match e with
  | ZeroDivision _ => False
  | Popped n => 1 ≤ n ≤ maxPumps - 1 ∧ s' = s
  | Cashed n =>
    0 ≤ n ≤ maxPumps - 2
    ∧ NetworkClient.send_update net (VInt n) s = (Ok (), s')
  | Waiting n | Absent n | Escaped n => 0 ≤ n ≤ maxPumps - 2 ∧ s' = s
  end.

(** [int] reads a string of ASCII digits as the decimal numeral it is. *)
Definition int_reads_decimal `{Library} : Prop :=
  ∀ s, isdigit s = true → int_of_str s = Some (int_digits s).

(** What the entry shows is empty, or a numeral of at most [max_value]. *)
Definition within (max_value : Z) (input_text : string) : Prop :=
  input_text = EmptyString
  ∨ (isdigit input_text = true ∧ int_digits input_text ≤ max_value).

(** The keys of the characters of [s], one key each. *)
Definition typed (s : string) : list string :=
  (λ a, String a EmptyString) <$> String.list_ascii_of_string s.

End Bart.

(** ** A sample library

    An instance of [Library] to run the model on concrete messages. It
    returns what CPython returns on the texts listed in [sample_texts], on
    the values [plain] accepts (no float, and strings of printable ASCII
    without quote or backslash) and on non-empty strings of ASCII digits,
    and it refuses everything else. The theorems do not depend on it. *)

Definition dq : string := String.string_of_list_byte [x22].

(** [{"id": i, "pumps": p}] as the client writes it. *)
Definition update_text (i p : string) : string :=
  "{" +:+ dq +:+ "id" +:+ dq +:+ ": " +:+ i +:+ ", "
      +:+ dq +:+ "pumps" +:+ dq +:+ ": " +:+ p +:+ "}".

(** [{"id": i}] *)
Definition id_only_text (i : string) : string :=
  "{" +:+ dq +:+ "id" +:+ dq +:+ ": " +:+ i +:+ "}".

Definition update (i p : Z) : value :=
  VDict [("id", VInt i); ("pumps", VInt p)].

Definition sample_texts : list (string * value) :=
  [ (update_text "1" "3", update 1 3);
    (update_text "1" "5", update 1 5);
    (update_text "2" "9", update 2 9);
    (id_only_text "1", VDict [("id", VInt 1)]);
    ("[1, 2]", VList [VInt 1; VInt 2]) ].

Definition sample_loads (s : string) : outcome value :=
  match list_find (λ tv, String.eqb tv.1 s) sample_texts with
  | Some (_, (_, v)) => Ok v
  | None => Raise JSONDecodeError
  end.

Fixpoint join (sep : string) (l : list string) : string :=
  match l with
  | [] => EmptyString
  | [s] => s
  | s :: l' => s +:+ sep +:+ join sep l'
  end.

Fixpoint render (v : value) : string :=
  match v with
  | VNone => "null"
  | VBool b => if b then "true" else "false"
  | VInt n => pretty n
  | VFloat _ => "NaN"
  | VStr s => dq +:+ s +:+ dq
  | VList l => "[" +:+ join ", " (map render l) +:+ "]"
  | VDict d =>
    "{" +:+ join ", "
          (map (λ kv, match kv with
                      | (k, x) => dq +:+ k +:+ dq +:+ ": " +:+ render x
                      end) d) +:+ "}"
  end.

Definition plain_string (s : string) : bool :=
  forallb (λ b, in_range 32 126 b && negb (in_range 34 34 b)
                && negb (in_range 92 92 b))
    (String.list_byte_of_string s).

Fixpoint plain (v : value) : bool :=
  match v with
  | VFloat _ => false
  | VStr s => plain_string s
  | VList l => forallb plain l
  | VDict d =>
    forallb (λ kv, match kv with (k, x) => plain_string k && plain x end) d
  | _ => true
  end.

Definition sample_dumps (v : value) : outcome string :=
  if plain v then Ok (render v) else Raise ValueError.

Fixpoint digits (s : string) (acc : Z) : option Z :=
  match s with
  | EmptyString => Some acc
  | String a s' =>
    let n := Z.of_nat (Ascii.nat_of_ascii a) in
    if (48 <=? n) && (n <=? 57) then digits s' (10 * acc + (n - 48)) else None
  end.

Definition sample_int_of_str (s : string) : option Z :=
  match s with
  | EmptyString => None
  | _ => digits s 0
  end.

Definition sample : Library :=
  {| json_loads := sample_loads; json_dumps := sample_dumps;
     int_of_str := sample_int_of_str |}.

(** Ten updates of player 1, with 1, 2, ..., 10 pumps. *)
Definition ten_updates : list value := update 1 <$> seqZ 1 10.

(** Every send goes through. *)
Definition up : conn → bool := λ _, true.

(** Every send goes through, except to socket [c]. *)
Definition down (c : conn) : conn → bool := λ x, negb (bool_decide (x = c)).

(** The state the server with the sample library is in after the events
    [evs]. *)
Definition after (evs : list event) : system :=
  default boot (run (H:=sample) boot evs).

(** ** Properties stated about the model *)

(** Order of two decorated entries in a descending list. *)
Definition ge_key {A} (a b : Z * A) : Prop := b.1 ≤ a.1.

(** Order of two decorated entries in a strictly increasing list. *)
Definition lt_key {A} (a b : Z * A) : Prop := a.1 < b.1.

Section Ranking.
Context `{Library}.

(** [int(x["pumps"])] is defined for every entry of [l] and does not
    increase along [l]. *)
Definition ranked (l : list value) : Prop :=
  ∃ ks : list Z,
    Forall2 (λ x k, by_pumps x = Ok k) l ks ∧ StronglySorted (λ a b, b ≤ a) ks.

(** A message the sort key accepts. *)
Definition score_update (u : value) : Prop := ∃ k, by_pumps u = Ok k.

(** Each entry of a decorated list carries its own key. *)
Definition keyed (kl : list (Z * value)) : Prop :=
  Forall (λ p, by_pumps p.2 = Ok p.1) kl.
End Ranking.

(** Every run of [m] relates the state it starts in to the state it ends
    in, whether it returns or raises. *)
Definition post {S A} (R : relation S) (m : M S A) : Prop :=
  ∀ s r s', m s = (r, s') → R s s'.

(** What the handling of a message may do besides updating the ranking and
    printing: send to registered sockets. *)
Definition relayed (s s' : server) : Prop :=
  clients s' = clients s ∧ client_ids s' = client_ids s
  ∧ next_player_id s' = next_player_id s ∧ closed s' = closed s
  ∧ ∃ sent, wire s' = wire s ++ sent ∧ Forall (λ m, m.1 ∈ clients s) sent.

(** The ranking is left as it was. *)
Definition same_board (s s' : server) : Prop := leaderbord s' = leaderbord s.

(** Between [s] and [s'] the ranking was left alone, or [r] brought a message
    that decodes and parses and lines 33-35 ran on it. *)
Definition recorded `{Library} (r : recv_result) (s s' : server) : Prop :=
  leaderbord s' = leaderbord s
  ∨ ∃ data text v r1 s1,
      r = Data data ∧ decode data = Ok text ∧ json_loads text = Ok v
      ∧ recordUpdate v s = (r1, s1) ∧ leaderbord s' = leaderbord s1.

(** The state the [finally] block of the handler of socket [c] leaves. *)
Definition disconnected (c : conn) (player_id : Z) (s : server) : server :=
  {| clients := remove_first c (clients s);
     client_ids := delete c (client_ids s);
     next_player_id := next_player_id s;
     leaderbord := leaderbord s;
     closed := closed s ++ [c];
     wire := wire s;
     stdout := (stdout s ++ [Disconnected player_id])
               ++ [Info (length (remove_first c (clients s)))] |}.

(** Every message in [evs] that decodes and parses is a score update. *)
Definition score_updates_only `{Library} (evs : list event) : Prop :=
  ∀ c data net text v,
    Recv c (Data data) net ∈ evs →
    decode data = Ok text → json_loads text = Ok v → score_update v.

(** States the server can reach. *)
Definition reachable `{Library} (st : system) : Prop :=
  ∃ evs, run boot evs = Some st.

(** The bytes the server wrote to socket [c], oldest first. *)
Definition sent_to (c : conn) (s : server) : list bytes :=
  (filter (λ m, m.1 = c) (wire s)).*2.

(** What holds of every state the server reaches. *)
Record wf (st : system) : Prop := {
  wf_nodup : NoDup (clients (mem st));
  (** the registered sockets are those with a handler thread *)
  wf_threads : ∀ c, c ∈ clients (mem st) ↔ is_Some (handlers st !! c);
  (** [client_ids] holds the [player_id] of each thread in its loop *)
  wf_ids : ∀ c p,
    client_ids (mem st) !! c = Some p ↔ handlers st !! c = Some (Running p);
  wf_fresh : ∀ c, c ∈ clients (mem st) → (c < accepted st)%nat;
  wf_refused : ∀ c,
    c ∈ refused st → (c < accepted st)%nat ∧ c ∉ clients (mem st);
  wf_room :
    main st = InAccept Register →
    (length (clients (mem st)) < MAX_PLAYERS)%nat;
  wf_capacity : (length (clients (mem st)) ≤ MAX_PLAYERS)%nat;
  wf_issued : (issued st).*2 = seqZ 1 (Z.of_nat (length (issued st)));
  wf_next : next_player_id (mem st) = 1 + Z.of_nat (length (issued st));
  wf_running : ∀ c p,
    handlers st !! c = Some (Running p) → (c, p) ∈ issued st;
  wf_closed : ∀ c,
    c ∈ closed (mem st) → (c < accepted st)%nat ∧ c ∉ clients (mem st);
  wf_wire : ∀ m, m ∈ wire (mem st) → (m.1 < accepted st)%nat;
  (** a refused socket was sent the rejection and closed, unless that send
      failed and ended the main thread *)
  wf_rejection : ∀ c,
    c ∈ refused st →
    (c ∈ closed (mem st) ∧ sent_to c (mem st) = [rejection])
    ∨ ((c ∉ closed (mem st)) ∧ sent_to c (mem st) = [] ∧ main st = Dead);
}.

(** What stays of a state in every state that follows it: the sockets
    refused and the sockets closed stay so, and a socket refused later is a
    socket accepted later. *)
Definition later (st st' : system) : Prop :=
  (accepted st ≤ accepted st')%nat
  ∧ (∀ c, c ∈ refused st → c ∈ refused st')
  ∧ (∀ c, c ∈ refused st' → c ∈ refused st ∨ (accepted st ≤ c)%nat)
  ∧ (∀ c, c ∈ closed (mem st) → c ∈ closed (mem st')).

(** The ranking holds an entry the sort key refuses. *)
Definition poisoned `{Library} (l : list value) : Prop :=
  ∃ x e, x ∈ l ∧ by_pumps x = Raise e.

(** [data] is the serialized form of a list in descending order of
    [int(x["pumps"])] with at most [MAX_LEADERBOARD] entries. *)
Definition is_ranking `{Library} (data : bytes) : Prop :=
  ∃ l out,
    ranked l ∧ (length l ≤ MAX_LEADERBOARD)%nat
    ∧ json_dumps (VList l) = Ok out ∧ data = encode out.

(** Between [s] and [s'] the server wrote rankings, and nothing else. *)
Definition wrote_rankings `{Library} (s s' : server) : Prop :=
  ∃ sent, wire s' = wire s ++ sent ∧ Forall (λ m, is_ranking m.2) sent.

(** Between [s] and [s'] the ranking only grew at its end and nothing was
    written. *)
Definition silent (s s' : server) : Prop :=
  leaderbord s `prefix_of` leaderbord s' ∧ wire s' = wire s.

(** The sort key of [x] is at least [k]; is below [k]. *)
Definition key_at_least `{Library} (k : Z) (x : value) : Prop :=
  ∃ kx, by_pumps x = Ok kx ∧ k ≤ kx.
Definition key_below `{Library} (k : Z) (x : value) : Prop :=
  ∃ kx, by_pumps x = Ok kx ∧ kx < k.

(** The server wrote nothing but rejections between [s] and [s']. *)
Definition wrote_rejections (s s' : server) : Prop :=
  ∃ sent, wire s' = wire s ++ sent ∧ Forall (λ m, m.2 = rejection) sent.

(** The bytes [data] of one read are the UTF-8 text of the JSON value [v]. *)
Definition carries `{Library} (data : bytes) (v : value) : Prop :=
  data ≠ [] ∧ ∃ text, decode data = Ok text ∧ json_loads text = Ok v.

(** The bytes [data] of one read do not decode, or decode to a text that
    [json.loads] refuses, with exception [e]. *)
Definition garbled `{Library} (data : bytes) (e : exn) : Prop :=
  data ≠ []
  ∧ (decode data = Raise e
     ∨ ∃ text, decode data = Ok text ∧ json_loads text = Raise e).

(** ** The sort *)

Section Sort.
Context {A : Type}.
Implicit Types (x y : Z * A) (l kl : list (Z * A)).

Lemma insert_desc_perm x l : insert_desc x l ≡ₚ x :: l.
Proof.
  induction l as [|y l IH]; simpl; [done|].
  case_match; [done|]. rewrite IH. apply perm_swap.
Qed.

Lemma insert_desc_sorted x l :
  StronglySorted ge_key l → StronglySorted ge_key (insert_desc x l).
Proof.
  induction 1 as [|y l Hs IH Hy]; simpl.
  - repeat constructor.
  - destruct (Z.leb_spec y.1 x.1) as [Hle|Hlt].
    + constructor; [by constructor|].
      constructor; [done|].
      eapply Forall_impl; [exact Hy|].
      intros z Hz. unfold ge_key in *. lia.
    + constructor; [done|]. rewrite insert_desc_perm.
      constructor; [unfold ge_key; lia|done].
Qed.

Lemma sort_desc_perm kl : sort_desc kl ≡ₚ kl.
Proof.
  induction kl as [|x kl IH]; simpl; [done|].
  by rewrite insert_desc_perm, IH.
Qed.

Lemma sort_desc_sorted kl : StronglySorted ge_key (sort_desc kl).
Proof.
  induction kl as [|x kl IH]; simpl; [constructor|].
  by apply insert_desc_sorted.
Qed.

(** The sort is stable: entries of equal key keep their order. *)
Lemma insert_desc_stable x l k :
  filter (λ y, y.1 = k) (insert_desc x l) = filter (λ y, y.1 = k) (x :: l).
Proof.
  induction l as [|y l IH]; simpl; [done|].
  destruct (Z.leb_spec y.1 x.1) as [Hle|Hlt]; [done|].
  rewrite filter_cons, IH, !filter_cons.
  repeat case_decide; simpl in *; try done; lia.
Qed.

Lemma sort_desc_stable kl k :
  filter (λ y, y.1 = k) (sort_desc kl) = filter (λ y, y.1 = k) kl.
Proof.
  induction kl as [|x kl IH]; simpl; [done|].
  by rewrite insert_desc_stable, !filter_cons, IH.
Qed.

(** A descending list is left as it is. *)
Lemma sort_desc_sorted_id kl : StronglySorted ge_key kl → sort_desc kl = kl.
Proof.
  induction 1 as [|x kl Hs IH Hx]; simpl; [done|].
  rewrite IH. destruct kl as [|y kl']; simpl; [done|].
  apply Forall_cons in Hx as [Hy _]. unfold ge_key in Hy.
  by rewrite (proj2 (Z.leb_le _ _) Hy).
Qed.

(** An entry of greater key than all the others, appended to a descending
    list, moves to the front. *)
Lemma sort_desc_snoc_top kl x :
  StronglySorted ge_key kl → Forall (λ y, y.1 < x.1) kl →
  sort_desc (kl ++ [x]) = x :: kl.
Proof.
  unfold sort_desc.
  induction 1 as [|y kl Hs IH Hy]; simpl; intros Hlt; [done|].
  apply Forall_cons in Hlt as [Hyx Hlt].
  rewrite (IH Hlt). simpl.
  rewrite (proj2 (Z.leb_gt _ _) Hyx). f_equal.
  destruct kl as [|z kl']; simpl; [done|].
  apply Forall_cons in Hy as [Hz _]. unfold ge_key in Hz.
  by rewrite (proj2 (Z.leb_le _ _) Hz).
Qed.

Lemma decorate_Ok (key : A → outcome Z) (l : list A) kl :
  decorate key l = Ok kl ↔
  kl.*2 = l ∧ Forall (λ p, key p.2 = Ok p.1) kl.
Proof.
  revert kl. induction l as [|x l IH]; intros kl; simpl.
  - split.
    + intros [= <-]. by split.
    + intros [Hl _]. by destruct kl.
  - split.
    + destruct (key x) as [k|e] eqn:Hk; simpl; [|done].
      destruct (decorate key l) as [kl'|e]; simpl; [|done].
      intros [= <-]. destruct (proj1 (IH kl') eq_refl) as [<- Hall].
      split; [done|]. by constructor.
    + intros [Hl Hall]. destruct kl as [|[k y] kl']; [done|].
      simpl in Hl. injection Hl as -> <-.
      apply Forall_cons in Hall as [Hk Hall]. simpl in Hk. rewrite Hk. simpl.
      by rewrite (proj2 (IH kl') (conj eq_refl Hall)).
Qed.

(** The first key that fails ends [sorted]. *)
Lemma decorate_Raise (key : A → outcome Z) (l : list A) e :
  decorate key l = Raise e → ∃ a, a ∈ l ∧ key a = Raise e.
Proof.
  induction l as [|a l IH]; simpl; [done|].
  destruct (key a) as [k|e'] eqn:Hk; simpl.
  - destruct (decorate key l) as [kl'|e']; simpl; [done|].
    intros [= ->]. destruct IH as (b & Hb & Hkb); [done|].
    exists b. split; [by right|done].
  - intros [= ->]. exists a. split; [by left|done].
Qed.

Lemma decorate_app_Raise (key : A → outcome Z) (l : list A) (a : A) e :
  key a = Raise e →
  ∃ e', decorate key (l ++ [a]) = Raise e'
        ∧ ∃ b, b ∈ l ++ [a] ∧ key b = Raise e'.
Proof.
  intros Ha.
  destruct (decorate key (l ++ [a])) as [kl|e'] eqn:Hd.
  - apply decorate_Ok in Hd as [Hl Hall].
    assert (∃ p, p ∈ kl ∧ p.2 = a) as (p & Hp & <-).
    { assert (a ∈ kl.*2) as Hin by (rewrite Hl; set_solver).
      apply list_elem_of_fmap in Hin as (p & -> & Hp). by exists p. }
    rewrite Forall_forall in Hall. specialize (Hall p Hp). congruence.
  - exists e'. split; [done|]. by apply decorate_Raise.
Qed.
End Sort.

(** ** The ranking store *)

Lemma for_each_cons_Ok {S A} (body : A → M S unit) x l s s1 :
  body x s = (Ok (), s1) → for_each (x :: l) body s = for_each l body s1.
Proof. intros Hx. simpl. unfold mbind, M_bind. by rewrite Hx. Qed.

Lemma StronglySorted_take {A} (R : relation A) n (l : list A) :
  StronglySorted R l → StronglySorted R (take n l).
Proof.
  intros Hs. rewrite <- (take_drop n l) in Hs.
  by apply StronglySorted_app_1_l in Hs.
Qed.

Section RankingStore.
Context `{Library}.
Implicit Types (l : list value) (kl : list (Z * value)) (s : server).

Lemma keyed_ranked kl : keyed kl → StronglySorted ge_key kl → ranked (kl.*2).
Proof.
  intros Hall Hs. exists (kl.*1). split.
  - apply Forall2_fmap, Forall_Forall2_diag. exact Hall.
  - eapply StronglySorted_fmap; [|exact Hs]. by intros x y.
Qed.

Lemma keys_decorated (R : relation Z) l (ks : list Z) :
  Forall2 (λ x k, by_pumps x = Ok k) l ks → StronglySorted R ks →
  ∃ kl, kl.*2 = l ∧ kl.*1 = ks ∧ keyed kl
        ∧ StronglySorted (λ a b, R a.1 b.1) kl.
Proof.
  induction 1 as [|x k l ks Hk Hks IH]; intros Hs.
  - exists []. repeat split; constructor.
  - apply StronglySorted_cons in Hs as [Hk' Hs].
    destruct (IH Hs) as (kl & <- & <- & Hall & Hsorted).
    exists ((k, x) :: kl). split; [done|]. split; [done|].
    split; [by constructor|]. constructor; [done|].
    apply Forall_forall. intros p Hp. rewrite Forall_forall in Hk'.
    apply (Hk' p.1). by apply list_elem_of_fmap_2.
Qed.

Lemma score_updates_keyed l :
  Forall score_update l → ∃ kl, decorate by_pumps l = Ok kl.
Proof.
  induction 1 as [|x l [k Hk] _ [kl IH]]; simpl; [by eexists|].
  rewrite Hk, IH. simpl. by eexists.
Qed.

Lemma ranked_score_updates l : ranked l → Forall score_update l.
Proof.
  intros (ks & Hks & _). induction Hks; constructor; [by eexists|done].
Qed.

(** Lines 33-35 as one equation. *)
Lemma recordUpdate_eq (u : value) s :
  recordUpdate u s =
  match sorted_reverse by_pumps (leaderbord s ++ [u]) with
  | Ok full => (Ok (), set_leaderbord (λ _, take MAX_LEADERBOARD full) s)
  | Raise e => (Raise e, set_leaderbord (λ l, l ++ [u]) s)
  end.
Proof.
  unfold recordUpdate, mbind, M_bind, modify, gets, lift. simpl.
  by destruct (sorted_reverse _ _).
Qed.

(** [sorted] returns the entries it was given, in descending order. *)
Lemma sorted_reverse_Ok l :
  Forall score_update l →
  ∃ kl, keyed kl ∧ StronglySorted ge_key kl ∧ kl.*2 ≡ₚ l
        ∧ sorted_reverse by_pumps l = Ok (kl.*2).
Proof.
  intros Hl. destruct (score_updates_keyed l Hl) as [kl Hkl].
  exists (sort_desc kl). unfold sorted_reverse. rewrite Hkl. simpl.
  apply decorate_Ok in Hkl as [<- Hall].
  split; [|split; [|split]].
  - unfold keyed. by rewrite sort_desc_perm.
  - apply sort_desc_sorted.
  - by rewrite sort_desc_perm.
  - done.
Qed.

(** One update of a store whose entries all have a key. *)
Lemma recordUpdate_Ok (u : value) s :
  Forall score_update (leaderbord s) → score_update u →
  ∃ kl, keyed kl ∧ StronglySorted ge_key kl
        ∧ kl.*2 ≡ₚ leaderbord s ++ [u]
        ∧ recordUpdate u s
          = (Ok (), set_leaderbord (λ _, take MAX_LEADERBOARD (kl.*2)) s).
Proof.
  intros Hs Hu.
  destruct (sorted_reverse_Ok (leaderbord s ++ [u])) as (kl & ? & ? & ? & Heq).
  { apply Forall_app. split; [done|by constructor]. }
  exists kl. rewrite recordUpdate_eq, Heq. done.
Qed.

Lemma recordUpdate_ranked (u : value) s :
  Forall score_update (leaderbord s) → score_update u →
  ∃ s' dropped,
    recordUpdate u s = (Ok (), s')
    ∧ ranked (leaderbord s' ++ dropped)
    ∧ leaderbord s' ++ dropped ≡ₚ leaderbord s ++ [u]
    ∧ length (leaderbord s')
      = Nat.min MAX_LEADERBOARD (length (leaderbord s) + 1).
Proof.
  intros Hs Hu.
  destruct (recordUpdate_Ok u s Hs Hu) as (kl & Hk & Hsorted & Hperm & Heq).
  eexists _, (drop MAX_LEADERBOARD (kl.*2)). split; [exact Heq|]. simpl.
  rewrite take_drop. split; [by apply keyed_ranked|]. split; [done|].
  rewrite length_take.
  apply Permutation_length in Hperm. rewrite Hperm, length_app. done.
Qed.

Lemma ranked_app_l l1 l2 : ranked (l1 ++ l2) → ranked l1.
Proof.
  intros (ks & Hks & Hs).
  apply Forall2_app_inv_l in Hks as (k1 & k2 & H1 & H2 & ->).
  exists k1. split; [done|]. by apply StronglySorted_app_1_l in Hs.
Qed.
End RankingStore.

(** C1. For every sequence of score updates recorded from the empty store,
    the snapshot is in descending order of [int(x["pumps"])] and holds at
    most [MAX_LEADERBOARD] entries; and whatever score update comes next,
    the entries it leaves out are those that rank last: the new snapshot
    followed by the entries left out is the old snapshot plus the update,
    in descending order. *)
Theorem snapshot_sorted_and_bounded `{Library}
    (updates : list value) (s : server) :
  leaderbord s = [] →
  Forall score_update updates →
  ∃ s', for_each updates recordUpdate s = (Ok (), s')
    ∧ ranked (leaderbord s')
    ∧ (length (leaderbord s') ≤ MAX_LEADERBOARD)%nat
    ∧ ∀ u, score_update u →
        ∃ s'' dropped,
          recordUpdate u s' = (Ok (), s'')
          ∧ ranked (leaderbord s'' ++ dropped)
          ∧ leaderbord s'' ++ dropped ≡ₚ leaderbord s' ++ [u]
          ∧ length (leaderbord s'')
            = Nat.min MAX_LEADERBOARD (length (leaderbord s') + 1).
Proof.
  intros Hnil Hall.
  assert (ranked (leaderbord s)
          ∧ (length (leaderbord s) ≤ MAX_LEADERBOARD)%nat) as Hinv.
  { rewrite Hnil. split; [|simpl; lia]. exists []. split; constructor. }
  clear Hnil. revert s Hinv.
  induction Hall as [|u updates Hu Hall IH]; intros s [Hr Hlen].
  - exists s. split; [done|]. split; [done|]. split; [done|].
    intros u Hu. apply recordUpdate_ranked; [|done].
    by apply ranked_score_updates.
  - destruct (recordUpdate_ranked u s) as (s1 & dropped & Heq & Hr1 & _ & Hl1);
      [by apply ranked_score_updates|done|].
    rewrite (for_each_cons_Ok _ _ _ _ _ Heq). apply IH. split.
    + by apply ranked_app_l in Hr1.
    + rewrite Hl1. lia.
Qed.

Lemma reverse_increasing {A} (l : list (Z * A)) :
  StronglySorted lt_key l → StronglySorted ge_key (reverse l).
Proof.
  induction 1 as [|x l Hs IH Hx]; [constructor|].
  rewrite reverse_cons. apply StronglySorted_app_2; [|done|repeat constructor].
  intros a b Ha Hb. rewrite elem_of_reverse in Ha.
  rewrite list_elem_of_singleton in Hb. subst b.
  rewrite Forall_forall in Hx. specialize (Hx a Ha).
  unfold lt_key, ge_key in *. lia.
Qed.

Section Increasing.
Context `{Library}.

(** Updates of strictly increasing key: each one goes to the front. *)
Lemma increasing_updates (done rest : list (Z * value)) (s : server) :
  keyed (done ++ rest) → StronglySorted lt_key (done ++ rest) →
  leaderbord s = (take MAX_LEADERBOARD (reverse done)).*2 →
  ∃ s', for_each (rest.*2) recordUpdate s = (Ok (), s')
    ∧ leaderbord s' = (take MAX_LEADERBOARD (reverse (done ++ rest))).*2.
Proof.
  revert done s. induction rest as [|[k u] rest IH]; intros done s Hk Hs Hlb.
  - exists s. by rewrite app_nil_r.
  - assert (recordUpdate u s
            = (Ok (), set_leaderbord
                 (λ _, (take MAX_LEADERBOARD (reverse (done ++ [(k, u)]))).*2) s))
      as Heq.
    { rewrite recordUpdate_eq. unfold sorted_reverse.
      apply Forall_app in Hk as [Hdone Hrest].
      apply Forall_cons in Hrest as [Hu Hrest]. simpl in Hu.
      assert (decorate by_pumps (leaderbord s ++ [u])
              = Ok (take MAX_LEADERBOARD (reverse done) ++ [(k, u)])) as ->.
      { apply decorate_Ok. split; [by rewrite fmap_app, Hlb|].
        apply Forall_app. split; [|by constructor].
        by apply Forall_take, Forall_reverse. }
      simpl. rewrite sort_desc_snoc_top.
      - rewrite reverse_snoc. unfold MAX_LEADERBOARD. csimpl.
        by rewrite !fmap_take, take_take.
      - apply StronglySorted_take, reverse_increasing.
        by apply StronglySorted_app_1_l in Hs.
      - apply Forall_take, Forall_reverse, Forall_forall. intros p Hp.
        eapply (StronglySorted_app_1_elem_of _ _ _ p (k, u)) in Hs;
          [exact Hs|done|by left]. }
    rewrite fmap_cons. simpl snd. rewrite (for_each_cons_Ok _ _ _ _ _ Heq).
    replace (done ++ (k, u) :: rest) with ((done ++ [(k, u)]) ++ rest) in *
      by (by rewrite <- app_assoc).
    by apply IH.
Qed.
End Increasing.

(** C4. Ten updates of strictly increasing [pumps], recorded from the empty
    store with capacity 8: the snapshot is the last eight of them, highest
    first, and the first two are gone. *)
Theorem ten_increasing_updates `{Library}
    (updates : list value) (ks : list Z) (s : server) :
  leaderbord s = [] →
  length updates = 10%nat →
  Forall2 (λ u k, by_pumps u = Ok k) updates ks →
  StronglySorted Z.lt ks →
  ∃ s', for_each updates recordUpdate s = (Ok (), s')
    ∧ leaderbord s' = reverse (drop 2 updates).
Proof.
  intros Hnil Hlen Hks Hs.
  destruct (keys_decorated Z.lt updates ks Hks Hs) as (kl & <- & _ & Hk & Hkl).
  destruct (increasing_updates [] kl s) as (s' & Hrun & Hlb); [done..|].
  exists s'. split; [done|]. rewrite Hlb. simpl.
  rewrite fmap_take, fmap_reverse, take_reverse, Hlen. done.
Qed.

(** ** What a piece of code leaves unchanged *)

Section Post.
Context {S : Type} (R : relation S) `{!Reflexive R, !Transitive R}.

Lemma post_ret {A} (a : A) : post R (mret a).
Proof. intros s r s' [= _ <-]. reflexivity. Qed.

Lemma post_lift {A} (o : outcome A) : post R (lift o).
Proof. intros s r s' [= _ <-]. reflexivity. Qed.

Lemma post_gets {A} (f : S → A) : post R (gets f).
Proof. intros s r s' [= _ <-]. reflexivity. Qed.

Lemma post_modify (f : S → S) : (∀ s, R s (f s)) → post R (modify f).
Proof. intros Hf s r s' [= _ <-]. apply Hf. Qed.

Lemma post_bind {A B} (m : M S A) (f : A → M S B) :
  post R m → (∀ a, post R (f a)) → post R (m ≫= f).
Proof.
  intros Hm Hf s r s'. unfold mbind, M_bind.
  destruct (m s) as [[a|e] s1] eqn:Hms.
  - intros Hfa. etrans; [by eapply Hm|by eapply Hf].
  - intros [= _ <-]. by eapply Hm.
Qed.

Lemma post_for_each {A} (l : list A) (body : A → M S unit) :
  (∀ x, post R (body x)) → post R (for_each l body).
Proof.
  intros Hb. induction l as [|x l IH]; simpl.
  - apply post_ret.
  - apply post_bind; [apply Hb|by intros _].
Qed.

Lemma post_try_except {A} (body : M S A) C (handler : exn → M S A) :
  post R body → (∀ e, post R (handler e)) → post R (try_except body C handler).
Proof.
  intros Hb Hh s r s'. unfold try_except.
  destruct (body s) as [[a|e] s1] eqn:Hbs.
  - intros [= _ <-]. by eapply Hb.
  - destruct (C e).
    + intros He. etrans; [by eapply Hb|by eapply Hh].
    + intros [= _ <-]. by eapply Hb.
Qed.
End Post.

#[local] Instance relayed_refl : Reflexive relayed.
Proof.
  intros s. repeat split. exists []. split; [by rewrite app_nil_r|constructor].
Qed.

#[local] Instance relayed_trans : Transitive relayed.
Proof.
  intros s1 s2 s3 (Hc & Hi & Hn & Hcl & sent & Hw & Hs)
    (Hc' & Hi' & Hn' & Hcl' & sent' & Hw' & Hs').
  repeat split; try congruence.
  exists (sent ++ sent'). split; [by rewrite Hw', Hw, app_assoc|].
  apply Forall_app. split; [done|]. by rewrite <- Hc.
Qed.

Create HintDb post discriminated.
#[local] Hint Resolve relayed_refl relayed_trans : post.
#[local] Hint Resolve post_ret post_lift post_gets post_bind post_try_except
  post_for_each : post.

(** ** One turn of a handler *)

Section Handler.
Context `{Library}.
Implicit Types (s : server) (c : conn).

Lemma relayed_same s s' :
  clients s' = clients s → client_ids s' = client_ids s →
  next_player_id s' = next_player_id s → closed s' = closed s →
  wire s' = wire s → relayed s s'.
Proof.
  intros. repeat split; try done. exists [].
  split; [by rewrite app_nil_r|constructor].
Qed.

Lemma print_relayed l : post relayed (print l).
Proof. apply post_modify. intros s. by apply relayed_same. Qed.

Lemma set_leaderbord_relayed f : post relayed (modify (set_leaderbord f)).
Proof. apply post_modify. intros s. by apply relayed_same. Qed.

#[local] Hint Resolve print_relayed set_leaderbord_relayed : post.

Lemma recordUpdate_relayed u : post relayed (recordUpdate u).
Proof. unfold recordUpdate. eauto 10 with post. Qed.

Lemma sendall_relayed net c data s r s' :
  c ∈ clients s → sendall net c data s = (r, s') → relayed s s'.
Proof.
  intros Hc. unfold sendall. destruct (net c); intros [= _ <-].
  - repeat split. exists [(c, data)]. split; [done|]. by repeat constructor.
  - reflexivity.
Qed.

Lemma for_each_relayed net (cs : list conn) s r s' :
  (∀ c, c ∈ cs → c ∈ clients s) →
  for_each cs (λ c,
    l ← gets leaderbord;
    text ← lift (json_dumps (VList l));
    sendall net c (encode text)) s = (r, s') →
  relayed s s'.
Proof.
  revert s. induction cs as [|c cs IH]; intros s Hcs; simpl.
  - intros [= _ <-]. reflexivity.
  - unfold mbind at 1, M_bind at 1.
    match goal with |- context [match ?m s with _ => _ end] =>
      destruct (m s) as [[[]|e] s1] eqn:Hsend end.
    + assert (relayed s s1) as Hrel.
      { revert Hsend. unfold mbind, M_bind, gets, lift.
        destruct (json_dumps _); [|done].
        apply sendall_relayed, Hcs. by left. }
      intros Hrest. etrans; [exact Hrel|]. apply IH; [|done].
      intros x Hx. destruct Hrel as [-> _]. apply Hcs. by right.
    + intros [= _ <-]. revert Hsend. unfold mbind, M_bind, gets, lift.
      destruct (json_dumps _).
      * apply sendall_relayed, Hcs. by left.
      * intros [= _ <-]. reflexivity.
Qed.

Lemma broadcast_relayed net : post relayed (broadcast net).
Proof.
  intros s r s'. unfold broadcast, mbind at 1, M_bind at 1, gets.
  by apply for_each_relayed.
Qed.

#[local] Hint Resolve recordUpdate_relayed broadcast_relayed : post.

Lemma handle_message_relayed net data : post relayed (handle_message net data).
Proof. unfold handle_message. eauto 12 with post. Qed.

Lemma loop_body_relayed net r : post relayed (loop_body net r).
Proof.
  unfold loop_body, recv. apply post_bind; eauto with post.
  intros [|b data]; eauto with post.
  apply post_bind; eauto using handle_message_relayed with post.
Qed.

(** The [finally] block of a registered handler. *)
Lemma handle_client_finally_eq c p q s :
  c ∈ clients s → client_ids s !! c = Some q →
  handle_client_finally c p s = (Ok (), disconnected c p s).
Proof.
  intros Hc Hq.
  unfold handle_client_finally, mbind, M_bind, close, clients_remove, print,
    gets, modify, del_client_id. simpl.
  rewrite bool_decide_true by done. simpl. by rewrite Hq.
Qed.

(** The outer [except Exception] leaves nothing to propagate. *)
Lemma guarded_loop_body net p r s :
  ∃ l s1,
    try_except (loop_body net r) is_Exception
      (λ e, print (PlayerError p e) ;; mret Break) s = (Ok l, s1)
    ∧ relayed s s1.
Proof.
  destruct (try_except _ _ _ s) as [[l|e] s1] eqn:Hrun.
  - exists l, s1. split; [done|]. revert Hrun.
    apply post_try_except; eauto using loop_body_relayed with post.
  - exfalso. revert Hrun. unfold try_except.
    destruct (loop_body net r s) as [[l|e'] s2]; done.
Qed.

(** What one turn does to the registry. *)
Lemma handle_client_turn_spec net c p r s res s' :
  c ∈ clients s → is_Some (client_ids s !! c) →
  handle_client_turn net c p r s = (res, s') →
  (res = Ok Continue ∧ relayed s s')
  ∨ (res = Ok Break
     ∧ clients s' = remove_first c (clients s)
     ∧ client_ids s' = delete c (client_ids s)
     ∧ next_player_id s' = next_player_id s
     ∧ closed s' = closed s ++ [c]
     ∧ ∃ sent, wire s' = wire s ++ sent ∧ Forall (λ m, m.1 ∈ clients s) sent).
Proof.
  intros Hc [q Hq]. unfold handle_client_turn.
  destruct (guarded_loop_body net p r s) as (l & s1 & -> & Hrel).
  destruct l.
  - intros [= <- <-]. by left.
  - destruct Hrel as (Hcl & Hid & Hn & Hclosed & Hwire).
    rewrite (handle_client_finally_eq c p q) by congruence.
    intros [= <- <-]. right. simpl. rewrite Hcl, Hid, Hn, Hclosed. done.
Qed.
End Handler.

(** ** The states the server reaches *)

Lemma elem_of_remove_first_1 (c x : conn) (l : list conn) :
  x ∈ remove_first c l → x ∈ l.
Proof.
  induction l as [|y l IH]; simpl; [done|].
  case_decide; [by right|]. intros [->|?]%elem_of_cons; [by left|].
  right. by apply IH.
Qed.

Lemma elem_of_remove_first (c x : conn) (l : list conn) :
  NoDup l → x ∈ remove_first c l ↔ x ∈ l ∧ x ≠ c.
Proof.
  induction 1 as [|y l Hy Hl IH]; simpl.
  - split; [by intros ?%elem_of_nil|by intros [?%elem_of_nil _]].
  - case_decide as Hyc.
    + subst y. rewrite elem_of_cons. split.
      * intros Hx. split; [by right|]. by intros ->.
      * by intros [[->|?] ?].
    + rewrite !elem_of_cons, IH. split.
      * intros [->|[? ?]]; [by split; [left|]|]. split; [by right|done].
      * intros [[->|?] ?]; [by left|by right].
Qed.

Lemma NoDup_remove_first (c : conn) (l : list conn) :
  NoDup l → NoDup (remove_first c l).
Proof.
  induction 1 as [|y l Hy Hl IH]; simpl; [constructor|].
  case_decide; [done|]. constructor; [|done].
  intros Hin. by apply elem_of_remove_first_1 in Hin.
Qed.

Lemma length_remove_first (c : conn) (l : list conn) :
  (length (remove_first c l) ≤ length l)%nat.
Proof. induction l as [|y l IH]; simpl; [done|]. case_decide; simpl; lia. Qed.

Lemma sent_to_app (c : conn) (s s' : server) sent :
  wire s' = wire s ++ sent → Forall (λ m, m.1 ≠ c) sent →
  sent_to c s' = sent_to c s.
Proof.
  intros Hw Hsent. unfold sent_to. rewrite Hw, filter_app. clear Hw.
  assert (filter (λ m : conn * bytes, m.1 = c) sent = []) as ->.
  { induction Hsent as [|m sent Hm _ IH]; [done|].
    rewrite filter_cons. case_decide; [by destruct Hm|done]. }
  by rewrite app_nil_r.
Qed.

Lemma sent_to_fresh (c : conn) (s : server) :
  (∀ m, m ∈ wire s → (m.1 < c)%nat) → sent_to c s = [].
Proof.
  unfold sent_to. generalize (wire s). intros w Hw.
  assert (filter (λ m : conn * bytes, m.1 = c) w = []) as ->; [|done].
  induction w as [|m w IH]; [done|].
  rewrite filter_cons. case_decide as Hm.
  - specialize (Hw m (list_elem_of_here _ _)). lia.
  - apply IH. intros m' Hm'. apply Hw. by right.
Qed.

Lemma check_eq (s : server) :
  check s =
  if bool_decide (length (clients s) < MAX_PLAYERS)%nat then (Ok Register, s)
  else (Ok Refuse, set_stdout (λ out, out ++ [Warning]) s).
Proof.
  unfold check, mbind, M_bind, gets. simpl. by case_bool_decide.
Qed.

(** Reduce the projections of a state given by its fields, and nothing
    else. *)
Ltac fields :=
  cbn [mem main handlers accepted refused issued boot server0
       clients client_ids next_player_id leaderbord closed wire stdout].

Lemma wf_boot : wf boot.
Proof.
  constructor; fields; try done.
  - constructor.
  - intros c. rewrite lookup_empty. split; [by intros ?%elem_of_nil|].
    by intros [? ?].
  - by intros c ?%elem_of_nil.
  - by intros c ?%elem_of_nil.
  - unfold MAX_PLAYERS. simpl. lia.
  - unfold MAX_PLAYERS. simpl. lia.
  - by intros c ?%elem_of_nil.
  - by intros m ?%elem_of_nil.
  - by intros c ?%elem_of_nil.
Qed.

(** [accept] returned while the registry had room. *)
Lemma wf_register (st : system) (m : server) (b' : branch) :
  wf st → main st = InAccept Register →
  clients m = clients (mem st) ++ [accepted st] →
  client_ids m = client_ids (mem st) →
  next_player_id m = next_player_id (mem st) →
  closed m = closed (mem st) → wire m = wire (mem st) →
  (b' = Register → (length (clients m) < MAX_PLAYERS)%nat) →
  wf {| mem := m; main := InAccept b';
        handlers := <[accepted st := Spawned]> (handlers st);
        accepted := S (accepted st); refused := refused st;
        issued := issued st |}.
Proof.
  intros [] Hmain Hc Hi Hn Hcl Hw Hb'.
  assert (accepted st ∉ clients (mem st)) as Hfresh.
  { intros Hin. apply wf_fresh0 in Hin. lia. }
  constructor; fields; rewrite ?Hc, ?Hi, ?Hn, ?Hcl, ?Hw; try done.
  - apply NoDup_app. split; [done|]. split; [|apply NoDup_singleton].
    intros x Hx ->%list_elem_of_singleton. done.
  - intros c. rewrite elem_of_app, list_elem_of_singleton, wf_threads0.
    destruct (decide (c = accepted st)) as [->|Hne].
    + rewrite lookup_insert_eq. split; [by eexists|by right].
    + rewrite lookup_insert_ne by done. split; [by intros [?|?]|by left].
  - intros c p. rewrite wf_ids0.
    destruct (decide (c = accepted st)) as [->|Hne].
    + rewrite lookup_insert_eq. split; [|done].
      intros Hrun. destruct Hfresh. apply wf_threads0. by eexists.
    + by rewrite lookup_insert_ne.
  - intros c [Hin| ->%list_elem_of_singleton]%elem_of_app; [|lia].
    apply wf_fresh0 in Hin. lia.
  - intros c Hin. destruct (wf_refused0 c Hin) as [Hlt Hnin].
    split; [lia|]. intros [?| ->%list_elem_of_singleton]%elem_of_app; [done|lia].
  - intros [= ->]. rewrite <- Hc. by apply Hb'.
  - rewrite length_app. simpl. specialize (wf_room0 Hmain). lia.
  - intros c p. destruct (decide (c = accepted st)) as [->|Hne].
    + by rewrite lookup_insert_eq.
    + rewrite lookup_insert_ne by done. apply wf_running0.
  - intros c Hin. destruct (wf_closed0 c Hin) as [Hlt Hnin].
    split; [lia|]. intros [?| ->%list_elem_of_singleton]%elem_of_app; [done|lia].
  - intros x Hx. apply wf_wire0 in Hx. lia.
  - intros c Hin.
    destruct (wf_rejection0 c Hin) as [[? Hs]|(_ & _ & Hd)]; [|congruence].
    left. split; [done|]. rewrite <- Hs.
    apply (sent_to_app _ _ _ []); [by rewrite app_nil_r|constructor].
Qed.

(** [accept] returned while the registry was full: the rejection was sent
    and the socket closed. *)
Lemma wf_refuse (st : system) (m : server) (b' : branch) :
  wf st → main st = InAccept Refuse →
  clients m = clients (mem st) →
  client_ids m = client_ids (mem st) →
  next_player_id m = next_player_id (mem st) →
  closed m = closed (mem st) ++ [accepted st] →
  wire m = wire (mem st) ++ [(accepted st, rejection)] →
  (b' = Register → (length (clients m) < MAX_PLAYERS)%nat) →
  wf {| mem := m; main := InAccept b'; handlers := handlers st;
        accepted := S (accepted st); refused := refused st ++ [accepted st];
        issued := issued st |}.
Proof.
  intros [] Hmain Hc Hi Hn Hcl Hw Hb'.
  assert (accepted st ∉ clients (mem st)) as Hfresh.
  { intros Hin. apply wf_fresh0 in Hin. lia. }
  constructor; fields; rewrite ?Hc, ?Hi, ?Hn, ?Hcl, ?Hw; try done.
  - intros c Hin. apply wf_fresh0 in Hin. lia.
  - intros c [Hin| ->%list_elem_of_singleton]%elem_of_app; [|split; [lia|done]].
    destruct (wf_refused0 c Hin). split; [lia|done].
  - intros [= ->]. rewrite <- Hc. by apply Hb'.
  - intros c [Hin| ->%list_elem_of_singleton]%elem_of_app; [|split; [lia|done]].
    destruct (wf_closed0 c Hin). split; [lia|done].
  - intros x [Hx| ->%list_elem_of_singleton]%elem_of_app; [|simpl; lia].
    apply wf_wire0 in Hx. lia.
  - intros c [Hin| ->%list_elem_of_singleton]%elem_of_app.
    + destruct (wf_rejection0 c Hin) as [[? Hs]|(_ & _ & Hd)]; [|congruence].
      left. split; [apply elem_of_app; by left|].
      rewrite <- Hs. apply (sent_to_app _ _ _ _ Hw).
      repeat constructor. simpl. destruct (wf_refused0 c Hin). lia.
    + left. split; [apply elem_of_app; right; by left|].
      unfold sent_to. rewrite Hw, filter_app.
      fold (sent_to (accepted st) (mem st)).
      assert (sent_to (accepted st) (mem st) = []) as Hnone.
      { apply sent_to_fresh. intros x Hx. by apply wf_wire0. }
      unfold sent_to in Hnone. apply fmap_nil_inv in Hnone. rewrite Hnone.
      rewrite filter_cons. simpl. by rewrite decide_True.
Qed.

(** The main thread ended: by a failed [accept], or by the failed send of
    the rejection to the socket just accepted. *)
Lemma wf_dead (st : system) (refusal : bool) :
  wf st → (refusal = true → main st = InAccept Refuse) →
  wf {| mem := mem st; main := Dead; handlers := handlers st;
        accepted := if refusal then S (accepted st) else accepted st;
        refused := if refusal then refused st ++ [accepted st] else refused st;
        issued := issued st |}.
Proof.
  intros [] Hmain.
  assert (accepted st ∉ clients (mem st)) as Hfresh.
  { intros Hin. apply wf_fresh0 in Hin. lia. }
  constructor; fields; try done.
  - intros c Hin. apply wf_fresh0 in Hin. destruct refusal; lia.
  - destruct refusal; [|done].
    intros c [Hin| ->%list_elem_of_singleton]%elem_of_app; [|split; [lia|done]].
    destruct (wf_refused0 c Hin). split; [lia|done].
  - intros c Hin. destruct (wf_closed0 c Hin). split; [|done].
    destruct refusal; lia.
  - intros x Hx. apply wf_wire0 in Hx. destruct refusal; lia.
  - assert (∀ c, c ∈ refused st →
        c ∈ closed (mem st) ∧ sent_to c (mem st) = [rejection]
        ∨ (c ∉ closed (mem st)) ∧ sent_to c (mem st) = [] ∧ Dead = Dead) as Hold.
    { intros c Hin. destruct (wf_rejection0 c Hin) as [?|(? & ? & _)]; auto. }
    destruct refusal; [|done].
    intros c [Hin| ->%list_elem_of_singleton]%elem_of_app; [by apply Hold|].
    right. split; [|split; [|done]].
    + intros Hin. apply wf_closed0 in Hin. lia.
    + apply sent_to_fresh. intros x Hx. by apply wf_wire0.
Qed.

(** A spawned thread ran lines 17-22. *)
Lemma wf_start (st : system) (c : conn) (m : server) :
  wf st → handlers st !! c = Some Spawned →
  clients m = clients (mem st) →
  client_ids m = <[c := next_player_id (mem st)]> (client_ids (mem st)) →
  next_player_id m = next_player_id (mem st) + 1 →
  closed m = closed (mem st) → wire m = wire (mem st) →
  wf {| mem := m; main := main st;
        handlers := <[c := Running (next_player_id (mem st))]> (handlers st);
        accepted := accepted st; refused := refused st;
        issued := issued st ++ [(c, next_player_id (mem st))] |}.
Proof.
  intros [] Hsp Hc Hi Hn Hcl Hw.
  constructor; fields; rewrite ?Hc, ?Hi, ?Hn, ?Hcl, ?Hw; try done.
  - intros x. rewrite wf_threads0. destruct (decide (x = c)) as [->|Hne].
    + rewrite lookup_insert_eq, Hsp. split; by eexists.
    + by rewrite lookup_insert_ne.
  - intros x p. destruct (decide (x = c)) as [->|Hne].
    + rewrite !lookup_insert_eq. split; congruence.
    + rewrite !lookup_insert_ne by done. apply wf_ids0.
  - rewrite fmap_app, length_app, wf_issued0, wf_next0. simpl.
    rewrite Nat.add_1_r, seqZ_S. done.
  - rewrite length_app, wf_next0. simpl. lia.
  - intros x p. destruct (decide (x = c)) as [->|Hne].
    + rewrite lookup_insert_eq. intros [= <-]. apply elem_of_app. right. by left.
    + rewrite lookup_insert_ne by done. intros Hx. apply elem_of_app. left.
      by apply wf_running0.
  - intros x Hin. destruct (wf_rejection0 x Hin) as [[? Hs]|(? & Hs & ?)].
    + left. split; [done|]. rewrite <- Hs.
      apply (sent_to_app _ _ _ []); [by rewrite app_nil_r|constructor].
    + right. split; [done|]. split; [|done]. rewrite <- Hs.
      apply (sent_to_app _ _ _ []); [by rewrite app_nil_r|constructor].
Qed.

(** A handler went through one turn of its loop and stays in it. *)
Lemma wf_continue (st : system) (m : server) :
  wf st → relayed (mem st) m →
  wf {| mem := m; main := main st; handlers := handlers st;
        accepted := accepted st; refused := refused st;
        issued := issued st |}.
Proof.
  intros [] (Hc & Hi & Hn & Hcl & sent & Hw & Hsent).
  constructor; fields; rewrite ?Hc, ?Hi, ?Hn, ?Hcl, ?Hw; try done.
  - intros x [Hx|Hx]%elem_of_app; [by apply wf_wire0|].
    rewrite Forall_forall in Hsent. by apply wf_fresh0, Hsent.
  - intros x Hin.
    assert (sent_to x m = sent_to x (mem st)) as ->.
    { apply (sent_to_app _ _ _ _ Hw). eapply Forall_impl; [exact Hsent|].
      intros y Hy Heq. simpl in Hy, Heq. rewrite Heq in Hy.
      by destruct (wf_refused0 _ Hin). }
    by apply wf_rejection0.
Qed.

(** A handler left its loop and ran its [finally] block. *)
Lemma wf_break (st : system) (c : conn) (m : server) :
  wf st → c ∈ clients (mem st) →
  clients m = remove_first c (clients (mem st)) →
  client_ids m = delete c (client_ids (mem st)) →
  next_player_id m = next_player_id (mem st) →
  closed m = closed (mem st) ++ [c] →
  (∃ sent, wire m = wire (mem st) ++ sent
           ∧ Forall (λ x, x.1 ∈ clients (mem st)) sent) →
  wf {| mem := m; main := main st; handlers := delete c (handlers st);
        accepted := accepted st; refused := refused st;
        issued := issued st |}.
Proof.
  intros [] Hin Hc Hi Hn Hcl (sent & Hw & Hsent).
  pose proof (length_remove_first c (clients (mem st))) as Hlen.
  constructor; fields; rewrite ?Hc, ?Hi, ?Hn, ?Hcl, ?Hw; try done.
  - by apply NoDup_remove_first.
  - intros x. rewrite elem_of_remove_first by done. rewrite wf_threads0.
    destruct (decide (x = c)) as [->|Hne].
    + rewrite lookup_delete_eq. split; [by intros [_ ?]|by intros [? ?]].
    + rewrite lookup_delete_ne by done. split; [by intros [? _]|done].
  - intros x p. destruct (decide (x = c)) as [->|Hne].
    + by rewrite !lookup_delete_eq.
    + rewrite !lookup_delete_ne by done. apply wf_ids0.
  - intros x Hx%elem_of_remove_first_1. by apply wf_fresh0.
  - intros x Hx. destruct (wf_refused0 x Hx) as [? Hnin]. split; [done|].
    by intros ?%elem_of_remove_first_1.
  - intros Hm. specialize (wf_room0 Hm). lia.
  - lia.
  - intros x p. destruct (decide (x = c)) as [->|Hne].
    + by rewrite lookup_delete_eq.
    + rewrite lookup_delete_ne by done. apply wf_running0.
  - intros x [Hx| ->%list_elem_of_singleton]%elem_of_app.
    + destruct (wf_closed0 x Hx) as [? Hnin]. split; [done|].
      by intros ?%elem_of_remove_first_1.
    + split; [by apply wf_fresh0|]. rewrite elem_of_remove_first by done.
      by intros [_ ?].
  - intros x [Hx|Hx]%elem_of_app; [by apply wf_wire0|].
    rewrite Forall_forall in Hsent. by apply wf_fresh0, Hsent.
  - intros x Hx.
    assert (sent_to x m = sent_to x (mem st)) as ->.
    { apply (sent_to_app _ _ _ _ Hw). eapply Forall_impl; [exact Hsent|].
      intros y Hy Heq. simpl in Hy, Heq. rewrite Heq in Hy.
      by destruct (wf_refused0 _ Hx). }
    destruct (wf_rejection0 x Hx) as [[? ?]|(Hncl & ? & ?)].
    + left. split; [apply elem_of_app; by left|done].
    + right. split; [|done].
      intros [?| ->%list_elem_of_singleton]%elem_of_app; [done|].
      by destruct (wf_refused0 _ Hx).
Qed.

Section Reach.
Context `{Library}.

Lemma handle_client_enter_eq (c : conn) (s : server) :
  handle_client_enter c s =
  (Ok (next_player_id s),
   {| clients := clients s;
      client_ids := <[c := next_player_id s]> (client_ids s);
      next_player_id := next_player_id s + 1;
      leaderbord := leaderbord s; closed := closed s; wire := wire s;
      stdout := (stdout s ++ [Connected (next_player_id s)])
                ++ [Info (length (clients s))] |}).
Proof. reflexivity. Qed.

Lemma wf_step st ev st' : wf st → step st ev = Some st' → wf st'.
Proof.
  intros Hwf. unfold step. destruct (main st) as [b|] eqn:Hmain; [|done].
  destruct ev as [net| |c|c r net].
  - destruct b.
    + unfold accepted_conn, mbind, M_bind, modify. rewrite check_eq.
      case_bool_decide as Hroom; intros [= <-];
        apply wf_register; try done; by intros [=].
    + unfold accepted_conn, mbind, M_bind, sendall, close, modify.
      destruct (net (accepted st)).
      * rewrite check_eq.
        case_bool_decide as Hroom; intros [= <-];
          apply wf_refuse; try done; by intros [=].
      * intros [= <-]. by apply (wf_dead st true).
  - intros [= <-]. by apply (wf_dead st false).
  - destruct (handlers st !! c) as [[|p]|] eqn:Hc; try done.
    rewrite handle_client_enter_eq. intros [= <-]. rewrite <- Hmain.
    by apply wf_start.
  - destruct (handlers st !! c) as [[|p]|] eqn:Hc; try done.
    destruct (handle_client_turn net c p r (mem st)) as [res m] eqn:Hturn.
    assert (c ∈ clients (mem st)) as Hin.
    { apply (wf_threads _ Hwf). by eexists. }
    apply handle_client_turn_spec in Hturn
      as [[-> Hrel]|(-> & ? & ? & ? & ? & ?)]; [| |done|].
    + intros [= <-]. rewrite <- Hmain. by apply wf_continue.
    + intros [= <-]. rewrite <- Hmain. by apply wf_break.
    + exists p. by apply (wf_ids _ Hwf).
Qed.

Lemma wf_run st evs st' : wf st → run st evs = Some st' → wf st'.
Proof.
  revert st. induction evs as [|ev evs IH]; intros st Hwf; simpl.
  - by intros [= <-].
  - destruct (step st ev) as [st1|] eqn:Hstep; [|done].
    apply IH. by eapply wf_step.
Qed.

Lemma reachable_wf st : reachable st → wf st.
Proof. intros [evs Hrun]. eapply wf_run; [apply wf_boot|done]. Qed.

Lemma run_app st evs1 evs2 :
  run st (evs1 ++ evs2) = st1 ← run st evs1; run st1 evs2.
Proof.
  revert st. induction evs1 as [|ev evs1 IH]; intros st; simpl; [done|].
  destruct (step st ev); [apply IH|done].
Qed.

Lemma reachable_run st evs st' :
  reachable st → run st evs = Some st' → reachable st'.
Proof.
  intros [evs0 Hrun0] Hrun. exists (evs0 ++ evs).
  by rewrite run_app, Hrun0.
Qed.
End Reach.

#[local] Instance later_refl : Reflexive later.
Proof. intros st. unfold later. naive_solver. Qed.

#[local] Instance later_trans : Transitive later.
Proof.
  intros st1 st2 st3 (Ha & Hr & Hn & Hc) (Ha' & Hr' & Hn' & Hc').
  unfold later. split; [lia|]. split; [naive_solver|]. split; [|naive_solver].
  intros c Hin. destruct (Hn' c Hin) as [Hin2|?]; [|right; lia].
  destruct (Hn c Hin2); [by left|by right].
Qed.

Section Later.
Context `{Library}.

Lemma step_later st ev st' : wf st → step st ev = Some st' → later st st'.
Proof.
  intros Hwf. unfold step. destruct (main st) as [b|] eqn:Hmain; [|done].
  destruct ev as [net| |c|c r net].
  - destruct b.
    + unfold accepted_conn, mbind, M_bind, modify. rewrite check_eq.
      case_bool_decide; intros [= <-]; unfold later; fields; simpl;
        (split; [lia|naive_solver]).
    + unfold accepted_conn, mbind, M_bind, sendall, close, modify.
      assert (∀ c, c ∈ refused st ++ [accepted st]
                   → c ∈ refused st ∨ (accepted st ≤ c)%nat) as Hnew.
      { intros c [?| ->%list_elem_of_singleton]%elem_of_app; auto. }
      destruct (net (accepted st)).
      * rewrite check_eq.
        case_bool_decide; intros [= <-]; unfold later; fields; simpl;
          (split; [lia|]); (split; [intros; apply elem_of_app; by left|]);
          (split; [done|]); intros; apply elem_of_app; by left.
      * intros [= <-]. unfold later; fields.
        split; [lia|]. split; [intros; apply elem_of_app; by left|done].
  - intros [= <-]. unfold later; fields. naive_solver.
  - destruct (handlers st !! c) as [[|p]|] eqn:Hc; try done.
    rewrite handle_client_enter_eq. intros [= <-].
    unfold later; fields. naive_solver.
  - destruct (handlers st !! c) as [[|p]|] eqn:Hc; try done.
    destruct (handle_client_turn net c p r (mem st)) as [res m] eqn:Hturn.
    apply handle_client_turn_spec in Hturn
      as [[-> (_ & _ & _ & Hcl & _)]|(-> & _ & _ & _ & Hcl & _)].
    + intros [= <-]. unfold later; fields. rewrite Hcl. naive_solver.
    + intros [= <-]. unfold later; fields. rewrite Hcl.
      split; [lia|]. split; [done|]. split; [by left|].
      intros; apply elem_of_app; by left.
    + apply (wf_threads _ Hwf). by eexists.
    + exists p. by apply (wf_ids _ Hwf).
Qed.

Lemma run_later st evs st' : wf st → run st evs = Some st' → later st st'.
Proof.
  revert st. induction evs as [|ev evs IH]; intros st Hwf; simpl.
  - intros [= <-]. reflexivity.
  - destruct (step st ev) as [st1|] eqn:Hstep; [|done].
    intros Hrun. etrans; [by eapply step_later|].
    apply IH; [by eapply wf_step|done].
Qed.
End Later.

Lemma elem_of_sent_to (c : conn) (data : bytes) (s : server) :
  (c, data) ∈ wire s ↔ data ∈ sent_to c s.
Proof.
  unfold sent_to. rewrite list_elem_of_fmap. split.
  - intros Hin. exists (c, data). split; [done|].
    by apply list_elem_of_filter.
  - intros ([c' d] & -> & [Hc Hin]%list_elem_of_filter). simpl in Hc.
    by subst c'.
Qed.

(** C6. In every state the server reaches, the identifiers handed out so
    far, in the order line 17 read them, are 1, 2, 3, ...: each is positive,
    none was handed out twice (a disconnection does not give one back), and
    the next one is the successor of the last. A handler in its loop holds
    one of them, the one [client_ids] records for its socket. *)
Theorem player_ids_count_from_1 `{Library} (evs : list event) (st : system) :
  run boot evs = Some st →
  (issued st).*2 = seqZ 1 (Z.of_nat (length (issued st)))
  ∧ NoDup ((issued st).*2)
  ∧ (∀ c p, (c, p) ∈ issued st → 0 < p)
  ∧ next_player_id (mem st) = 1 + Z.of_nat (length (issued st))
  ∧ ∀ c p, handlers st !! c = Some (Running p) →
      client_ids (mem st) !! c = Some p ∧ (c, p) ∈ issued st.
Proof.
  intros Hrun. assert (wf st) as Hwf by (apply reachable_wf; by exists evs).
  destruct Hwf. split; [done|]. split; [|split; [|split; [done|]]].
  - rewrite wf_issued0. apply NoDup_seqZ.
  - intros c p Hin.
    assert (p ∈ (issued st).*2) as Hp.
    { apply list_elem_of_fmap. by exists (c, p). }
    rewrite wf_issued0 in Hp. apply elem_of_seqZ in Hp. lia.
  - intros c p Hc. split; [by apply wf_ids0|by apply wf_running0].
Qed.

(** C5, as the code has it. [MAX_PLAYERS] sockets are registered and
    [accept] returns one more, the socket [accepted st]. Then and in every
    later state: that socket is on the refused list and no registered
    socket is (one refusal among the [MAX_PLAYERS + 1]); it is not in
    [clients], has no entry in [client_ids] and no handler; nothing but the
    rejection text was ever written to it, so no broadcast reaches it. When
    the send of the rejection goes through, the socket received exactly
    that text and is closed. When that send raises, nothing was written to
    the socket, line 82 is not reached and the socket is not closed, and
    the exception, which nothing catches, has ended the main thread: no
    event follows. *)
Theorem full_server_refuses `{Library}
    (evs evs' : list event) (net : conn → bool) (st st' : system) :
  run boot evs = Some st →
  length (clients (mem st)) = MAX_PLAYERS →
  run st (Accept net :: evs') = Some st' →
  (net (accepted st) = true →
     sent_to (accepted st) (mem st') = [rejection]
     ∧ accepted st ∈ closed (mem st'))
  ∧ (net (accepted st) = false →
     sent_to (accepted st) (mem st') = []
     ∧ (accepted st ∉ closed (mem st'))
     ∧ main st' = Dead ∧ evs' = [])
  ∧ (∀ data, (accepted st, data) ∈ wire (mem st') → data = rejection)
  ∧ (accepted st ∉ clients (mem st'))
  ∧ client_ids (mem st') !! accepted st = None
  ∧ handlers st' !! accepted st = None
  ∧ accepted st ∈ refused st'
  ∧ ∀ x, x ∈ clients (mem st) → x ∉ refused st'.
Proof.
  intros Hrun Hfull Hrun'.
  assert (wf st) as Hwf by (apply reachable_wf; by exists evs).
  simpl in Hrun'. destruct (step st (Accept net)) as [st1|] eqn:Hstep; [|done].
  assert (wf st1) as Hwf1 by by eapply wf_step.
  assert (wf st') as Hwf' by by eapply wf_run.
  pose proof (step_later _ _ _ Hwf Hstep) as Hl1.
  pose proof (run_later _ _ _ Hwf1 Hrun') as Hl'.
  assert (accepted st ∈ refused st1
          ∧ (net (accepted st) = true → accepted st ∈ closed (mem st1)))
    as [Hr1 Hc1].
  { unfold step in Hstep. destruct (main st) as [[]|] eqn:Hmain; [|clear Hl1|done].
    - apply (wf_room _ Hwf) in Hmain. lia.
    - revert Hstep.
      unfold accepted_conn, mbind, M_bind, sendall, close, modify.
      destruct (net (accepted st)).
      + rewrite check_eq. case_bool_decide; intros [= <-]; fields; simpl;
          (split; [|intros _]; apply elem_of_app; right; by left).
      + intros [= <-]. fields. split; [|done]. apply elem_of_app. right. by left. }
  assert (accepted st ∈ refused st') as Hr' by by apply Hl'.
  destruct (wf_refused _ Hwf' _ Hr') as [_ Hnin].
  assert (handlers st' !! accepted st = None) as Hnone.
  { destruct (handlers st' !! accepted st) eqn:Hh; [|done].
    destruct Hnin. apply (wf_threads _ Hwf'). by eexists. }
  split; [|split; [|split; [|split; [done|split; [|split; [done|split; [done|]]]]]]].
  - intros Hnet.
    assert (accepted st ∈ closed (mem st')) as Hcl by by apply Hl', Hc1.
    by destruct (wf_rejection _ Hwf' _ Hr') as [[? ?]|[? _]].
  - intros Hnet.
    assert (main st1 = Dead ∧ (accepted st ∉ closed (mem st1))) as [Hd1 Hn1].
    { unfold step in Hstep.
      destruct (main st) as [[]|] eqn:Hmain; [| |done].
      - apply (wf_room _ Hwf) in Hmain. lia.
      - revert Hstep.
        unfold accepted_conn, mbind, M_bind, sendall, close, modify.
        rewrite Hnet. intros [= <-]. fields. split; [done|].
        intros Hin. apply (wf_closed _ Hwf) in Hin as [Hlt _]. lia. }
    assert (evs' = [] ∧ st' = st1) as [-> ->].
    { destruct evs' as [|ev evs']; [by injection Hrun' as <-|].
      simpl in Hrun'. unfold step in Hrun'. by rewrite Hd1 in Hrun'. }
    split; [|done].
    destruct (wf_rejection _ Hwf1 _ Hr1) as [[Hin _]|(_ & Hs & _)]; done.
  - intros data Hin%elem_of_sent_to.
    destruct (wf_rejection _ Hwf' _ Hr') as [[_ Hs]|(_ & Hs & _)];
      rewrite Hs in Hin.
    + by apply list_elem_of_singleton in Hin.
    + by apply elem_of_nil in Hin.
  - destruct (client_ids (mem st') !! accepted st) as [p|] eqn:Hp; [|done].
    apply (wf_ids _ Hwf') in Hp. congruence.
  - intros x Hx Hrx.
    assert (later st st') as (_ & _ & Hnew & _) by (by etrans).
    destruct (Hnew x Hrx) as [Hold|Hge].
    + by destruct (wf_refused _ Hwf _ Hold).
    + apply (wf_fresh _ Hwf) in Hx. lia.
Qed.

(** ** What changes the ranking *)

#[local] Instance same_board_refl : Reflexive same_board.
Proof. by intros s. Qed.

#[local] Instance same_board_trans : Transitive same_board.
Proof. unfold same_board. intros s1 s2 s3 ? ?. congruence. Qed.

#[local] Hint Resolve same_board_refl same_board_trans : post.

Section Board.
Context `{Library}.
Implicit Types (s : server) (c : conn).

Lemma print_board l : post same_board (print l).
Proof. by apply post_modify. Qed.

Lemma sendall_board net c data : post same_board (sendall net c data).
Proof. intros s r s'. unfold sendall. by destruct (net c); intros [= _ <-]. Qed.

Lemma close_board c : post same_board (close c).
Proof. by apply post_modify. Qed.

Lemma clients_remove_board c : post same_board (clients_remove c).
Proof.
  intros s r s'. unfold clients_remove.
  by case_bool_decide; intros [= _ <-].
Qed.

Lemma del_client_id_board c : post same_board (del_client_id c).
Proof.
  intros s r s'. unfold del_client_id.
  by destruct (client_ids s !! c); intros [= _ <-].
Qed.

#[local] Hint Resolve print_board sendall_board close_board
  clients_remove_board del_client_id_board : post.

Lemma broadcast_board net : post same_board (broadcast net).
Proof. unfold broadcast. eauto 10 with post. Qed.

Lemma handle_client_finally_board c p :
  post same_board (handle_client_finally c p).
Proof. unfold handle_client_finally. eauto 12 with post. Qed.



(** Lines 31-42 as one equation. *)
Lemma handle_message_eq net data s :
  handle_message net data s =
  let except (r : outcome unit * server) :=
    match r with
    | (Raise e, s') =>
      if is_JSONDecodeError e then print (ParseError e) s' else (Raise e, s')
    | _ => r
    end in
  match decode data with
  | Raise e => except (Raise e, s)
  | Ok text =>
    match json_loads text with
    | Raise e => except (Raise e, s)
    | Ok v =>
      match recordUpdate v s with
      | (Raise e, s1) => except (Raise e, s1)
      | (Ok _, s1) =>
        except (broadcast net
                  (set_stdout (λ out, out ++ [Board (leaderbord s1)]) s1))
      end
    end
  end.
Proof.
  unfold handle_message, try_except.
  unfold mbind at 1, M_bind at 1, lift.
  destruct (decode data) as [text|e]; cbn -[recordUpdate broadcast]; [|done].
  destruct (json_loads text) as [v|e]; cbn -[recordUpdate broadcast]; [|done].
  unfold mbind at 1, M_bind at 1.
  destruct (recordUpdate v s) as [[[]|e] s1]; [|reflexivity].
  unfold mbind, M_bind, gets, print, modify.
  by destruct (broadcast net _) as [[[]|e] s2].
Qed.

(** A message changes the ranking only once it is decoded and parsed. *)
Lemma handle_message_board net data s r s' :
  handle_message net data s = (r, s') →
  leaderbord s' = leaderbord s
  ∨ ∃ text v r1 s1,
      decode data = Ok text ∧ json_loads text = Ok v
      ∧ recordUpdate v s = (r1, s1) ∧ leaderbord s' = leaderbord s1.
Proof.
  rewrite handle_message_eq. cbv zeta.
  assert (∀ e s1, leaderbord
            (if is_JSONDecodeError e then print (ParseError e) s1
             else (Raise e, s1)).2 = leaderbord s1) as Hexcept.
  { intros e s1. by destruct (is_JSONDecodeError e). }
  destruct (decode data) as [text|e] eqn:Hdec;
    [destruct (json_loads text) as [v|e] eqn:Hload|].
  - intros Hrun. right. exists text, v.
    destruct (recordUpdate v s) as [r1 s1] eqn:Hrec. exists r1, s1.
    repeat (split; [done|]). destruct r1 as [[]|e].
    + destruct (broadcast net _) as [[[]|e] s2] eqn:Hs2;
        apply broadcast_board in Hs2; unfold same_board in Hs2;
        simpl in Hs2; rewrite <- Hs2.
      * by injection Hrun as _ <-.
      * rewrite <- (Hexcept e s2), Hrun. done.
    + rewrite <- (Hexcept e s1), Hrun. done.
  - intros Hrun. left. rewrite <- (Hexcept e s), Hrun. done.
  - intros Hrun. left. rewrite <- (Hexcept e s), Hrun. done.
Qed.
End Board.

Section BoardSteps.
Context `{Library}.
Implicit Types (s : server) (c : conn).

#[local] Hint Resolve print_board sendall_board close_board
  clients_remove_board del_client_id_board broadcast_board
  handle_client_finally_board : post.

Lemma recorded_then r s s1 s2 :
  recorded r s s1 → leaderbord s2 = leaderbord s1 → recorded r s s2.
Proof.
  intros [Hsame|(data & text & v & r1 & s0 & ? & ? & ? & ? & Hlb)] Heq.
  - left. congruence.
  - right. exists data, text, v, r1, s0. repeat (split; [done|]). congruence.
Qed.

Lemma loop_body_board net r s l s1 :
  loop_body net r s = (l, s1) → recorded r s s1.
Proof.
  unfold loop_body, recv, lift, mbind at 1, M_bind at 1.
  destruct r as [[|b data]|]; try (intros [= _ <-]; by left).
  unfold mbind, M_bind.
  destruct (handle_message net (b :: data) s) as [[[]|e] s0] eqn:Hmsg;
    intros [= _ <-];
    (apply handle_message_board in Hmsg
       as [?|(text & v & r1 & s1 & ? & ? & ? & ?)]; [by left|]);
    right; by exists (b :: data), text, v, r1, s1.
Qed.

Lemma guarded_loop_body_board net p r s l s1 :
  try_except (loop_body net r) is_Exception
    (λ e, print (PlayerError p e) ;; mret Break) s = (l, s1) →
  recorded r s s1.
Proof.
  unfold try_except.
  destruct (loop_body net r s) as [[l0|e] s0] eqn:Hbody;
    apply loop_body_board in Hbody.
  - by intros [= _ <-].
  - intros [= _ <-]. by eapply recorded_then.
Qed.

Lemma handle_client_turn_board net c p r s res s' :
  handle_client_turn net c p r s = (res, s') → recorded r s s'.
Proof.
  unfold handle_client_turn.
  destruct (try_except _ _ _ s) as [l s1] eqn:Hguard.
  apply guarded_loop_body_board in Hguard.
  assert (∀ (l : outcome loop),
    match handle_client_finally c p s1 with
    | (Ok _, s'') => (l, s'')
    | (Raise e, s'') => (Raise e, s'')
    end = (res, s') → recorded r s s') as Hfin.
  { intros l0.
    destruct (handle_client_finally c p s1) as [[[]|e] s2] eqn:Hf;
      apply handle_client_finally_board in Hf; intros [= _ <-];
      by eapply recorded_then. }
  destruct l as [[]|e]; [by intros [= _ <-]|apply Hfin..].
Qed.

Lemma accepted_conn_board net b c : post same_board (accepted_conn net b c).
Proof.
  destruct b; unfold accepted_conn; [by apply post_modify|eauto with post].
Qed.

Lemma check_board : post same_board check.
Proof.
  intros s r s'. rewrite check_eq. by case_bool_decide; intros [= _ <-].
Qed.

Lemma step_board st ev st' :
  step st ev = Some st' →
  leaderbord (mem st') = leaderbord (mem st)
  ∨ ∃ c data net text v r1 s1,
      ev = Recv c (Data data) net ∧ decode data = Ok text
      ∧ json_loads text = Ok v ∧ recordUpdate v (mem st) = (r1, s1)
      ∧ leaderbord (mem st') = leaderbord s1.
Proof.
  unfold step. destruct (main st) as [b|]; [|done].
  destruct ev as [net| |c|c r net].
  - destruct ((accepted_conn net b (accepted st) ;; check) (mem st))
      as [r m] eqn:Hacc.
    assert (leaderbord m = leaderbord (mem st)) as Hm.
    { revert Hacc.
      apply (post_bind same_board);
        eauto using accepted_conn_board, check_board with post. }
    destruct r; intros [= <-]; by left.
  - intros [= <-]. by left.
  - destruct (handlers st !! c) as [[|p]|]; try done.
    rewrite handle_client_enter_eq. intros [= <-]. by left.
  - destruct (handlers st !! c) as [[|p]|]; try done.
    destruct (handle_client_turn net c p r (mem st)) as [res m] eqn:Hturn.
    apply handle_client_turn_board in Hturn
      as [Hsame|(data & text & v & r1 & s1 & -> & ? & ? & ? & ?)].
    all: fields.
    + destruct res as [[]|]; intros [= <-]; by left.
    + destruct res as [[]|]; intros [= <-]; right;
        by exists c, data, net, text, v, r1, s1.
Qed.
End BoardSteps.

(** As long as the messages that parse are score updates, the ranking the
    server holds, and broadcasts, is in descending order and within the
    capacity. *)
Lemma served_ranking_sorted_and_bounded `{Library}
    (evs : list event) (st : system) :
  run boot evs = Some st →
  score_updates_only evs →
  ranked (leaderbord (mem st))
  ∧ (length (leaderbord (mem st)) ≤ MAX_LEADERBOARD)%nat.
Proof.
  assert (ranked (leaderbord (mem boot))
          ∧ (length (leaderbord (mem boot)) ≤ MAX_LEADERBOARD)%nat) as Hinv.
  { split; [|simpl; lia]. exists []. split; constructor. }
  revert Hinv. generalize boot.
  induction evs as [|ev evs IH]; intros st0 Hinv; simpl.
  - by intros [= <-] _.
  - destruct (step st0 ev) as [st1|] eqn:Hstep; [|done].
    intros Hrun Hmsgs. apply (IH st1); [|done|].
    + clear IH Hrun. destruct Hinv as [Hr Hlen].
      apply step_board in Hstep
        as [->|(c & data & net & text & v & r1 & s1 & -> & Hd & Hl & Hrec & ->)];
        [done|].
      assert (score_update v) as Hv.
      { apply (Hmsgs c data net text v); [apply list_elem_of_here|done|done]. }
      destruct (recordUpdate_ranked v (mem st0)) as (s' & dropped & Heq & Hr' & _ & Hl');
        [by apply ranked_score_updates|done|].
      rewrite Hrec in Heq. injection Heq as _ <-.
      split; [by apply ranked_app_l in Hr'|]. rewrite Hl'. lia.
    + intros c data net text v Hin Hd Hl.
      apply (Hmsgs c data net text v); [by apply list_elem_of_further|done..].
Qed.

Section Appending.
Context `{Library}.
Implicit Types (s : server) (c : conn).


End Appending.


(** ** A turn that ends the handler *)

Section Raising.
Context `{Library}.
Implicit Types (s : server) (c : conn).

(** The sort key raises [KeyError], [TypeError], [ValueError] or
    [OverflowError], none of which [except json.JSONDecodeError] takes. *)
Lemma by_pumps_not_json (x : value) e :
  by_pumps x = Raise e → is_JSONDecodeError e = false.
Proof.
  unfold by_pumps, getitem.
  destruct x as [| | | | | |d]; try (by intros [= <-]).
  destruct (list_find _ d) as [[i [k v]]|]; [|by intros [= <-]].
  simpl. destruct v as [|b|z|[]|t|l|d']; simpl; try (by intros [= <-]).
  destruct (int_of_str t); by intros [= <-].
Qed.

Lemma decode_Raise data e : decode data = Raise e → e = UnicodeDecodeError.
Proof. unfold decode. by destruct (utf8_valid data); intros [= <-]. Qed.

(** A message whose handling raises: the outer [except] prints, the
    [finally] block unregisters the sender. *)
Lemma handle_client_turn_raise net c p q data s e s1 :
  data ≠ [] →
  handle_message net data s = (Raise e, s1) →
  c ∈ clients s1 → client_ids s1 !! c = Some q →
  handle_client_turn net c p (Data data) s =
  (Ok Break,
   disconnected c p (set_stdout (λ out, out ++ [PlayerError p e]) s1)).
Proof.
  intros Hdata Hmsg Hc Hq.
  unfold handle_client_turn, try_except, loop_body, recv, lift.
  unfold mbind at 1, M_bind at 1.
  destruct data as [|b data]; [done|].
  unfold mbind at 1, M_bind at 1. rewrite Hmsg.
  unfold is_Exception, mbind, M_bind, print, modify, mret, M_ret.
  by rewrite (handle_client_finally_eq c p q).
Qed.

(** Lines 33-35 on a message the sort key refuses. *)
Lemma recordUpdate_Raise (v : value) s e :
  by_pumps v = Raise e →
  ∃ e', is_JSONDecodeError e' = false
        ∧ recordUpdate v s = (Raise e', set_leaderbord (λ l, l ++ [v]) s).
Proof.
  intros Hv. rewrite recordUpdate_eq. unfold sorted_reverse.
  destruct (decorate_app_Raise by_pumps (leaderbord s) v e Hv)
    as (e' & -> & x & _ & Hx).
  exists e'. split; [by eapply by_pumps_not_json|done].
Qed.
End Raising.

(** C10. A payload that decodes as UTF-8 and parses as JSON, but whose
    value has no ["pumps"] item or one that [int] refuses, reaches a running
    handler of the running server. The sort raises an exception that is no [JSONDecodeError]: the
    inner [except] lets it through, the outer one prints it, and the
    [finally] block closes the sender's socket and unregisters it; the
    handler is over. Nothing is broadcast, and the message stays appended
    to the ranking. *)
Theorem bad_pumps_ends_the_sender `{Library}
    (evs : list event) (st : system) (c : conn) (p : Z)
    (data : bytes) (net : conn → bool) (text : string) (v : value) (e : exn) :
  run boot evs = Some st →
  main st ≠ Dead →
  handlers st !! c = Some (Running p) →
  data ≠ [] →
  decode data = Ok text →
  json_loads text = Ok v →
  by_pumps v = Raise e →
  ∃ st' e',
    step st (Recv c (Data data) net) = Some st'
    ∧ is_JSONDecodeError e' = false
    ∧ stdout (mem st')
      = stdout (mem st)
        ++ [PlayerError p e'; Disconnected p;
            Info (length (clients (mem st')))]
    ∧ handlers st' = delete c (handlers st)
    ∧ c ∈ closed (mem st')
    ∧ (c ∉ clients (mem st'))
    ∧ client_ids (mem st') !! c = None
    ∧ wire (mem st') = wire (mem st)
    ∧ leaderbord (mem st') = leaderbord (mem st) ++ [v].
Proof.
  intros Hrun Hmain Hc Hdata Hdec Hload Hv.
  assert (wf st) as Hwf by (apply reachable_wf; by exists evs).
  destruct (recordUpdate_Raise v (mem st) e Hv) as (e' & He' & Hrec).
  assert (handle_message net data (mem st)
          = (Raise e', set_leaderbord (λ l, l ++ [v]) (mem st))) as Hmsg.
  { rewrite handle_message_eq, Hdec, Hload, Hrec. cbv beta iota zeta.
    by rewrite He'. }
  assert (c ∈ clients (mem st)) as Hin.
  { apply (wf_threads _ Hwf). by eexists. }
  assert (client_ids (mem st) !! c = Some p) as Hp by by apply (wf_ids _ Hwf).
  destruct (main st) as [b|] eqn:Hb; [|done].
  eexists _, e'. split.
  { unfold step. rewrite Hb, Hc.
    rewrite (handle_client_turn_raise net c p p data _ _ _ Hdata Hmsg);
      [reflexivity|done..]. }
  fields. simpl.
  split; [done|]. split; [by rewrite <- !app_assoc|]. split; [done|].
  split; [apply elem_of_app; right; by left|].
  split; [rewrite elem_of_remove_first by apply (wf_nodup _ Hwf); by intros [_ ?]|].
  split; [by rewrite lookup_delete_eq|done].
Qed.

(** ** A broadcast that meets a failing socket *)

Section Broadcast.
Context `{Library}.
Implicit Types (s : server) (c : conn).

Lemma set_wire_nil s : set_wire (λ w, w ++ []) s = s.
Proof. destruct s. unfold set_wire. simpl. by rewrite app_nil_r. Qed.

Lemma set_wire_cons m sent s :
  set_wire (λ w, w ++ sent) (set_wire (λ w, w ++ [m]) s)
  = set_wire (λ w, w ++ m :: sent) s.
Proof. unfold set_wire. simpl. by rewrite <- app_assoc. Qed.

(** The loop of lines 39-40 sends to the sockets in the order of
    [clients] and stops at the first one whose send fails. *)
Lemma for_each_send_down net out (pre post : list conn) r s :
  json_dumps (VList (leaderbord s)) = Ok out →
  (∀ x, x ∈ pre → net x = true) → net r = false →
  for_each (pre ++ r :: post) (λ c,
    l ← gets leaderbord;
    text ← lift (json_dumps (VList l));
    sendall net c (encode text)) s
  = (Raise OSError, set_wire (λ w, w ++ ((λ x, (x, encode out)) <$> pre)) s).
Proof.
  intros Hout Hpre Hr. revert s Hout.
  induction pre as [|x pre IH]; intros s Hout; simpl.
  - unfold mbind, M_bind, gets, lift, sendall. rewrite Hout, Hr.
    by rewrite set_wire_nil.
  - unfold mbind at 1, M_bind at 1.
    unfold mbind at 1, M_bind at 1, gets.
    unfold mbind at 1, M_bind at 1, lift. rewrite Hout.
    unfold sendall at 1. rewrite (Hpre x) by by left.
    rewrite IH; [|intros y Hy; apply Hpre; by right|done].
    by rewrite set_wire_cons.
Qed.

Lemma broadcast_down net out (pre post : list conn) r s :
  json_dumps (VList (leaderbord s)) = Ok out →
  clients s = pre ++ r :: post →
  (∀ x, x ∈ pre → net x = true) → net r = false →
  broadcast net s
  = (Raise OSError, set_wire (λ w, w ++ ((λ x, (x, encode out)) <$> pre)) s).
Proof.
  intros Hout Hcs Hpre Hr. unfold broadcast, mbind at 1, M_bind at 1, gets.
  rewrite Hcs. by apply for_each_send_down.
Qed.
End Broadcast.

(** C2, as the code has it. A handler of the running server receives a
    message that is recorded, and in the broadcast that follows the send to
    recipient [r] fails. The sockets listed before [r] in [clients] were
    sent the ranking, [r] and the sockets listed after it are sent nothing,
    and the exception ends the handler that was broadcasting: the sender's
    socket is the one closed and unregistered. The recipient whose send
    failed stays registered unless it is the sender, and every other
    handler keeps running. *)
Theorem failed_send_ends_the_sender `{Library}
    (evs : list event) (st : system) (c : conn) (p : Z)
    (data : bytes) (net : conn → bool) (text out : string) (v : value)
    (full : list value) (pre post : list conn) (r : conn) :
  run boot evs = Some st →
  main st ≠ Dead →
  handlers st !! c = Some (Running p) →
  data ≠ [] →
  decode data = Ok text →
  json_loads text = Ok v →
  sorted_reverse by_pumps (leaderbord (mem st) ++ [v]) = Ok full →
  json_dumps (VList (take MAX_LEADERBOARD full)) = Ok out →
  clients (mem st) = pre ++ r :: post →
  (∀ x, x ∈ pre → net x = true) →
  net r = false →
  ∃ st',
    step st (Recv c (Data data) net) = Some st'
    ∧ wire (mem st') = wire (mem st) ++ ((λ x, (x, encode out)) <$> pre)
    ∧ leaderbord (mem st') = take MAX_LEADERBOARD full
    ∧ clients (mem st') = remove_first c (clients (mem st))
    ∧ (c ∉ clients (mem st'))
    ∧ c ∈ closed (mem st')
    ∧ (r ≠ c → r ∈ clients (mem st'))
    ∧ handlers st' = delete c (handlers st)
    ∧ ∀ x, x ≠ c → handlers st' !! x = handlers st !! x.
Proof.
  intros Hrun Hmain Hc Hdata Hdec Hload Hsort Hout Hcs Hpre Hr.
  assert (wf st) as Hwf by (apply reachable_wf; by exists evs).
  assert (c ∈ clients (mem st)) as Hin.
  { apply (wf_threads _ Hwf). by eexists. }
  assert (client_ids (mem st) !! c = Some p) as Hp by by apply (wf_ids _ Hwf).
  destruct (main st) as [b|] eqn:Hb; [|done].
  eexists. split.
  { unfold step. rewrite Hb, Hc.
    erewrite (handle_client_turn_raise net c p p data); [reflexivity|done|..].
    - rewrite handle_message_eq, Hdec, Hload, recordUpdate_eq, Hsort.
      cbv beta iota zeta. by erewrite broadcast_down.
    - done.
    - done. }
  fields. simpl.
  split; [done|]. split; [done|]. split; [done|].
  split; [rewrite elem_of_remove_first by apply (wf_nodup _ Hwf); by intros [_ ?]|].
  split; [apply elem_of_app; right; by left|].
  split.
  { intros Hne. rewrite elem_of_remove_first by apply (wf_nodup _ Hwf).
    split; [|done]. rewrite Hcs. apply elem_of_app. right. by left. }
  split; [done|]. intros x Hx. by rewrite lookup_delete_ne.
Qed.

(** ** Messages that do not decode or do not parse *)

Section Malformed.
Context `{Library}.

(** Text that [json.loads] refuses with [JSONDecodeError]: the inner
    [except] prints, the message is dropped and the handler stays in its
    loop. *)
Lemma unparsable_text_is_dropped (st : system) (c : conn) (p : Z)
    (data : bytes) (net : conn → bool) (text : string) :
  main st ≠ Dead →
  handlers st !! c = Some (Running p) →
  data ≠ [] →
  decode data = Ok text →
  json_loads text = Raise JSONDecodeError →
  step st (Recv c (Data data) net)
  = Some {| mem := set_stdout (λ out, out ++ [ParseError JSONDecodeError])
                     (mem st);
            main := main st; handlers := handlers st;
            accepted := accepted st; refused := refused st;
            issued := issued st |}.
Proof.
  intros Hmain Hc Hdata Hdec Hload. unfold step.
  destruct (main st) as [b|]; [|done]. rewrite Hc.
  unfold handle_client_turn, try_except, loop_body, recv, lift.
  unfold mbind at 1, M_bind at 1. destruct data as [|b0 data]; [done|].
  unfold mbind at 1, M_bind at 1.
  by rewrite handle_message_eq, Hdec, Hload.
Qed.

(** Bytes that are not UTF-8: [decode] raises [UnicodeDecodeError], which
    the inner [except] does not take, and the handler ends. *)
Lemma undecodable_bytes_end_the_handler (evs : list event) (st : system)
    (c : conn) (p : Z) (data : bytes) (net : conn → bool) :
  run boot evs = Some st →
  main st ≠ Dead →
  handlers st !! c = Some (Running p) →
  utf8_valid data = false →
  step st (Recv c (Data data) net)
  = Some {| mem := disconnected c p
                     (set_stdout
                        (λ out, out ++ [PlayerError p UnicodeDecodeError])
                        (mem st));
            main := main st; handlers := delete c (handlers st);
            accepted := accepted st; refused := refused st;
            issued := issued st |}.
Proof.
  intros Hrun Hmain Hc Hdata.
  assert (wf st) as Hwf by (apply reachable_wf; by exists evs).
  assert (data ≠ []) as Hne by (by intros ->).
  unfold step. destruct (main st) as [b|]; [|done]. rewrite Hc.
  rewrite (handle_client_turn_raise net c p p data (mem st)
             UnicodeDecodeError (mem st)); [done|done|..].
  - rewrite handle_message_eq. unfold decode. by rewrite Hdata.
  - apply (wf_threads _ Hwf). by eexists.
  - by apply (wf_ids _ Hwf).
Qed.
End Malformed.

(** C3, at a payload that is not UTF-8. Two players are connected and the
    first sends the single byte [0xFF]: the server prints the
    [UnicodeDecodeError] as an error of player 1, closes the socket of
    player 1 and unregisters it; the handler of player 1 is over, that of
    player 2 runs on. This holds whatever the library does. *)
Theorem invalid_utf8_ends_the_sender `{Library} :
  ∃ st st',
    run boot [Accept up; Start 0; Accept up; Start 1]%nat = Some st
    ∧ step st (Recv 0%nat (Data [xff]) up) = Some st'
    ∧ stdout (mem st')
      = stdout (mem st)
        ++ [PlayerError 1 UnicodeDecodeError; Disconnected 1; Info 1]
    ∧ closed (mem st') = [0%nat]
    ∧ clients (mem st') = [1%nat]
    ∧ handlers st' !! 0%nat = None
    ∧ handlers st' !! 1%nat = Some (Running 2).
Proof.
  eexists _, _. split; [vm_compute; reflexivity|].
  split; [vm_compute; reflexivity|]. by vm_compute.
Qed.

(** ** The relay client *)

Section Client.
Context `{Library}.
Import NetworkClient.

(** C8. Whatever [pumps] is, and whether the write goes through, fails,
    or the message cannot be serialized, [send_update] returns normally:
    it writes the serialized [{id, pumps}] when it can, prints the error
    otherwise, and changes nothing else. *)
Theorem send_update_returns_normally (net : bool) (pumps : value) (s : self) :
  ∃ s',
    send_update net pumps s = (Ok (), s')
    ∧ player_id s' = player_id s ∧ leaderboard s' = leaderboard s
    ∧ running s' = running s ∧ sock_closed s' = sock_closed s
    ∧ match json_dumps (VDict [("id", player_id s); ("pumps", pumps)]) with
      | Ok text =>
        if negb (sock_closed s) && net
        then sock_sent s' = sock_sent s ++ [encode text]
             ∧ stdout s' = stdout s
        else sock_sent s' = sock_sent s
             ∧ stdout s' = stdout s ++ [SendingFailed OSError]
      | Raise e =>
        sock_sent s' = sock_sent s
        ∧ stdout s' = stdout s ++ [SendingFailed e]
      end.
Proof.
  unfold send_update, try_except, sock_sendall, print, mbind, M_bind, gets,
    lift, modify.
  destruct (json_dumps _) as [text|e]; simpl.
  - destruct (sock_closed s) eqn:Hshut; simpl.
    + eexists. split; [done|]. by simpl.
    + destruct net; simpl; eexists; (split; [done|]); by simpl.
  - eexists. split; [done|]. by simpl.
Qed.

(** A read that returns no bytes leaves the listener as it was. *)
Lemma listen_turn_end_of_stream (s : self) :
  sock_closed s = false → listen_turn (Data []) s = (Ok (), s).
Proof.
  intros Hopen.
  unfold listen_turn, try_except, sock_recv, recv, on_data, mbind, M_bind,
    gets, lift.
  by rewrite Hopen.
Qed.

Lemma listener_reads_on_after_end_of_stream (n : nat) (s : self) :
  running s = true → sock_closed s = false →
  listen_for_updates (replicate n (Data [])) s = (Ok Reading, s).
Proof.
  intros Hrun Hopen. induction n as [|n IH]; simpl.
  - unfold mbind, M_bind, gets. by rewrite Hrun.
  - unfold mbind at 1, M_bind at 1, gets. rewrite Hrun.
    unfold mbind at 1, M_bind at 1.
    by rewrite listen_turn_end_of_stream.
Qed.

(** A read that raises stops the listener: the flag is cleared and no
    further read is made. *)
Lemma listener_stops_on_failed_read (reads : list recv_result) (s : self) :
  running s = true →
  listen_for_updates (RecvFails :: reads) s
  = (Ok Stopped,
     set_running false
       (set_stdout (λ out, out ++ [ListeningFailed OSError]) s)).
Proof.
  intros Hrun. simpl. unfold mbind at 1, M_bind at 1, gets. rewrite Hrun.
  unfold mbind at 1, M_bind at 1.
  assert (listen_turn RecvFails s
          = (Ok (), set_running false
               (set_stdout (λ out, out ++ [ListeningFailed OSError]) s)))
    as ->.
  { unfold listen_turn, try_except, sock_recv, recv, on_error, mbind, M_bind,
      gets, lift, print, modify. by destruct (sock_closed s). }
  by destruct reads.
Qed.

(** Once [close()] has run, the listener makes no further read. *)
Lemma listener_stops_after_close (reads : list recv_result) (s : self) :
  ∃ s', close s = (Ok (), s') ∧ listen_for_updates reads s' = (Ok Stopped, s').
Proof. eexists. split; [done|]. by destruct reads. Qed.

(** [close()] runs while the listener is in [recv]: whatever that call ends
    with, the listener then leaves its loop. Whether the call ends at all
    is up to the operating system. *)
Lemma listener_stops_when_closed_in_recv (r : recv_result) (s : self) :
  ∃ s', (close ;; listen_resume r) s = (Ok Stopped, s').
Proof.
  unfold close, listen_resume, try_except, recv, on_data, on_error, print,
    mbind, M_bind, modify, gets, lift, mret, M_ret.
  destruct r as [[|b data]|]; simpl; try by eexists.
  destruct (decode (b :: data)) as [text|e]; simpl; [|by eexists].
  destruct (json_loads text) as [v|e]; simpl; by eexists.
Qed.

(** C9, at the end of the stream. When the peer has closed the
    connection every [recv] returns no bytes. However many such reads the
    listener of a fresh client has made, [self.running] is still true,
    nothing was printed, and the thread is in its next [recv]: it does not
    terminate. *)
Theorem listener_spins_at_end_of_stream (id : value) (n : nat) :
  listen_for_updates (replicate n (Data [])) (init id)
  = (Ok Reading, init id).
Proof. by apply listener_reads_on_after_end_of_stream. Qed.
End Client.

(** ** The theorems at concrete inputs *)

(** The scenario of two clients: the higher score comes first. *)
Example two_clients :
  ∃ st,
    run (H:=sample) boot
      [Accept up; Start 0; Accept up; Start 1;
       Recv 0 (Data (encode (update_text "1" "5"))) up;
       Recv 1 (Data (encode (update_text "2" "9"))) up]%nat = Some st
    ∧ leaderbord (mem st) = [update 2 9; update 1 5]
    ∧ sent_to 0%nat (mem st)
      = [encode (render (VList [update 1 5]));
         encode (render (VList [update 2 9; update 1 5]))]
    ∧ sent_to 1%nat (mem st) = sent_to 0%nat (mem st).
Proof. eexists. split; [vm_compute; reflexivity|]. by vm_compute. Qed.

(** Six connections in a row: the sixth is refused. *)
Example six_connections :
  ∃ st,
    run (H:=sample) boot (replicate 6 (Accept up)) = Some st
    ∧ clients (mem st) = [0; 1; 2; 3; 4]%nat
    ∧ refused st = [5%nat]
    ∧ wire (mem st) = [(5%nat, rejection)]
    ∧ closed (mem st) = [5%nat].
Proof. eexists. split; [vm_compute; reflexivity|]. by vm_compute. Qed.

(** The branch of line 74 is taken before [accept] blocks: five players
    connect, one leaves, and the next connection is refused although the
    registry has room again. *)
Example refused_with_room :
  ∃ st,
    run (H:=sample) boot
      (replicate 5 (Accept up)
       ++ [Start 0; Recv 0 (Data []) up; Accept up])%nat = Some st
    ∧ clients (mem st) = [1; 2; 3; 4]%nat
    ∧ refused st = [5%nat]
    ∧ main st = InAccept Register.
Proof. eexists. split; [vm_compute; reflexivity|]. by vm_compute. Qed.

(** Two updates of one player: two entries. *)
Example same_player_twice :
  ∃ s',
    (recordUpdate (H:=sample) (update 1 3) ;;
     recordUpdate (H:=sample) (update 1 5)) server0
    = (Ok (), s')
    ∧ leaderbord s' = [update 1 5; update 1 3].
Proof. eexists. split; [vm_compute; reflexivity|]. by vm_compute. Qed.

(** A message without ["pumps"] stays in the ranking, and the next update,
    well formed as it is, ends its sender too. *)
Example poisoned_ranking :
  ∃ st,
    run (H:=sample) boot
      [Accept up; Start 0; Accept up; Start 1;
       Recv 0 (Data (encode (id_only_text "1"))) up;
       Recv 1 (Data (encode (update_text "2" "9"))) up]%nat = Some st
    ∧ leaderbord (mem st) = [VDict [("id", VInt 1)]; update 2 9]
    ∧ clients (mem st) = []
    ∧ wire (mem st) = [].
Proof. eexists. split; [vm_compute; reflexivity|]. by vm_compute. Qed.

(** C1 on three updates of two players. *)
Lemma snapshot_sorted_and_bounded_witness :
  leaderbord server0 = []
  ∧ Forall (score_update (H:=sample)) [update 1 3; update 2 9; update 1 5]
  ∧ ∃ s',
      for_each [update 1 3; update 2 9; update 1 5]
        (recordUpdate (H:=sample)) server0 = (Ok (), s')
      ∧ ranked (H:=sample) (leaderbord s')
      ∧ (length (leaderbord s') ≤ MAX_LEADERBOARD)%nat.
Proof.
  assert (Forall (score_update (H:=sample))
            [update 1 3; update 2 9; update 1 5]) as Hall.
  { repeat (constructor; [eexists; vm_compute; reflexivity|]). constructor. }
  split; [reflexivity|]. split; [exact Hall|].
  destruct (snapshot_sorted_and_bounded (H:=sample)
              [update 1 3; update 2 9; update 1 5] server0 eq_refl Hall)
    as (s' & Hrun & Hranked & Hlen & _).
  exists s'. split; [exact Hrun|]. split; [exact Hranked|exact Hlen].
Defined.

(** C4 on the updates with 1, 2, ..., 10 pumps. *)
Lemma ten_increasing_updates_witness :
  leaderbord server0 = []
  ∧ length ten_updates = 10%nat
  ∧ Forall2 (λ u k, by_pumps (H:=sample) u = Ok k) ten_updates (seqZ 1 10)
  ∧ StronglySorted Z.lt (seqZ 1 10)
  ∧ ∃ s',
      for_each ten_updates (recordUpdate (H:=sample)) server0 = (Ok (), s')
      ∧ leaderbord s' = reverse (drop 2 ten_updates).
Proof.
  assert (Forall2 (λ u k, by_pumps (H:=sample) u = Ok k)
            ten_updates (seqZ 1 10)) as Hks.
  { vm_compute. repeat constructor. }
  assert (StronglySorted Z.lt (seqZ 1 10)) as Hs.
  { vm_compute. repeat constructor. }
  split; [reflexivity|]. split; [reflexivity|].
  split; [exact Hks|]. split; [exact Hs|].
  exact (ten_increasing_updates (H:=sample) ten_updates (seqZ 1 10) server0
           eq_refl eq_refl Hks Hs).
Defined.

(** C5 on a sixth connection, followed by an update that is broadcast. *)
Lemma full_server_refuses_witness :
  let evs := replicate 5 (Accept up) in
  let evs' := [Start 0%nat;
               Recv 0%nat (Data (encode (update_text "1" "5"))) up] in
  run (H:=sample) boot evs = Some (after evs)
  ∧ length (clients (mem (after evs))) = MAX_PLAYERS
  ∧ run (H:=sample) (after evs) (Accept up :: evs')
    = Some (after (evs ++ Accept up :: evs'))
  ∧ sent_to 5%nat (mem (after (evs ++ Accept up :: evs'))) = [rejection]
  ∧ 5%nat ∈ closed (mem (after (evs ++ Accept up :: evs')))
  ∧ (5%nat ∉ clients (mem (after (evs ++ Accept up :: evs')))).
Proof.
  intros evs evs'.
  assert (run (H:=sample) boot evs = Some (after evs)) as H1
    by (vm_compute; reflexivity).
  assert (length (clients (mem (after evs))) = MAX_PLAYERS) as H2
    by (vm_compute; reflexivity).
  assert (run (H:=sample) (after evs) (Accept up :: evs')
          = Some (after (evs ++ Accept up :: evs'))) as H3
    by (vm_compute; reflexivity).
  split; [exact H1|]. split; [exact H2|]. split; [exact H3|].
  destruct (full_server_refuses (H:=sample) evs evs' up _ _ H1 H2 H3)
    as (Hsent & _ & _ & Hnin & _).
  destruct (Hsent eq_refl) as [Hs Hc].
  split; [exact Hs|]. split; [exact Hc|exact Hnin].
Defined.

(** C6 on two connections. *)
Lemma player_ids_count_from_1_witness :
  let evs := [Accept up; Start 0; Accept up; Start 1]%nat in
  run (H:=sample) boot evs = Some (after evs)
  ∧ (issued (after evs)).*2 = [1; 2]
  ∧ NoDup ((issued (after evs)).*2).
Proof.
  intros evs.
  assert (run (H:=sample) boot evs = Some (after evs)) as H1
    by (vm_compute; reflexivity).
  split; [exact H1|].
  destruct (player_ids_count_from_1 (H:=sample) evs _ H1) as (Hs & Hn & _).
  split; [exact Hs|exact Hn].
Defined.


(** C10 on the message [{"id": 1}]. *)
Lemma bad_pumps_ends_the_sender_witness :
  let evs := [Accept up; Start 0%nat] in
  let data := encode (id_only_text "1") in
  let v := VDict [("id", VInt 1)] in
  run (H:=sample) boot evs = Some (after evs)
  ∧ main (after evs) ≠ Dead
  ∧ handlers (after evs) !! 0%nat = Some (Running 1)
  ∧ data ≠ []
  ∧ decode data = Ok (id_only_text "1")
  ∧ json_loads (Library:=sample) (id_only_text "1") = Ok v
  ∧ by_pumps (H:=sample) v = Raise KeyError
  ∧ ∃ st' e',
      step (H:=sample) (after evs) (Recv 0%nat (Data data) up) = Some st'
      ∧ is_JSONDecodeError e' = false
      ∧ handlers st' = delete 0%nat (handlers (after evs))
      ∧ 0%nat ∈ closed (mem st')
      ∧ leaderbord (mem st') = leaderbord (mem (after evs)) ++ [v].
Proof.
  intros evs data v.
  assert (run (H:=sample) boot evs = Some (after evs)) as H1
    by (vm_compute; reflexivity).
  assert (main (after evs) ≠ Dead) as H2 by (vm_compute; discriminate).
  assert (handlers (after evs) !! 0%nat = Some (Running 1)) as H3
    by (vm_compute; reflexivity).
  assert (data ≠ []) as H4 by (vm_compute; discriminate).
  assert (decode data = Ok (id_only_text "1")) as H5
    by (vm_compute; reflexivity).
  assert (json_loads (Library:=sample) (id_only_text "1") = Ok v) as H6
    by (vm_compute; reflexivity).
  assert (by_pumps (H:=sample) v = Raise KeyError) as H7
    by (vm_compute; reflexivity).
  repeat (split; [assumption|]).
  destruct (bad_pumps_ends_the_sender (H:=sample) evs (after evs) 0%nat 1 data
              up (id_only_text "1") v KeyError H1 H2 H3 H4 H5 H6 H7)
    as (st' & e' & Hstep & He' & _ & Hh & Hc & _ & _ & _ & Hl).
  exists st', e'. repeat (split; [assumption|]). exact Hl.
Defined.

(** C2, as the code has it, on three players of whom the second cannot be
    sent to. *)
Lemma failed_send_ends_the_sender_witness :
  let evs := [Accept up; Start 0; Accept up; Start 1; Accept up; Start 2]%nat in
  let data := encode (update_text "1" "5") in
  let out := render (VList [update 1 5]) in
  run (H:=sample) boot evs = Some (after evs)
  ∧ main (after evs) ≠ Dead
  ∧ handlers (after evs) !! 0%nat = Some (Running 1)
  ∧ data ≠ []
  ∧ decode data = Ok (update_text "1" "5")
  ∧ json_loads (Library:=sample) (update_text "1" "5") = Ok (update 1 5)
  ∧ sorted_reverse (by_pumps (H:=sample))
      (leaderbord (mem (after evs)) ++ [update 1 5]) = Ok [update 1 5]
  ∧ json_dumps (Library:=sample) (VList (take MAX_LEADERBOARD [update 1 5]))
    = Ok out
  ∧ clients (mem (after evs)) = [0%nat] ++ 1%nat :: [2%nat]
  ∧ (∀ x, x ∈ [0%nat] → down 1 x = true)
  ∧ down 1 1%nat = false
  ∧ ∃ st',
      step (H:=sample) (after evs) (Recv 0%nat (Data data) (down 1)) = Some st'
      ∧ wire (mem st') = wire (mem (after evs)) ++ [(0%nat, encode out)]
      ∧ clients (mem st') = [1; 2]%nat
      ∧ handlers st' !! 0%nat = None.
Proof.
  intros evs data out.
  assert (run (H:=sample) boot evs = Some (after evs)) as H1
    by (vm_compute; reflexivity).
  assert (main (after evs) ≠ Dead) as H2 by (vm_compute; discriminate).
  assert (handlers (after evs) !! 0%nat = Some (Running 1)) as H3
    by (vm_compute; reflexivity).
  assert (data ≠ []) as H4 by (vm_compute; discriminate).
  assert (decode data = Ok (update_text "1" "5")) as H5
    by (vm_compute; reflexivity).
  assert (json_loads (Library:=sample) (update_text "1" "5") = Ok (update 1 5))
    as H6 by (vm_compute; reflexivity).
  assert (sorted_reverse (by_pumps (H:=sample))
            (leaderbord (mem (after evs)) ++ [update 1 5]) = Ok [update 1 5])
    as H7 by (vm_compute; reflexivity).
  assert (json_dumps (Library:=sample)
            (VList (take MAX_LEADERBOARD [update 1 5])) = Ok out) as H8
    by (vm_compute; reflexivity).
  assert (clients (mem (after evs)) = [0%nat] ++ 1%nat :: [2%nat]) as H9
    by (vm_compute; reflexivity).
  assert (∀ x, x ∈ [0%nat] → down 1 x = true) as H10.
  { intros x Hx. apply list_elem_of_singleton in Hx. subst x. reflexivity. }
  assert (down 1 1%nat = false) as H11 by reflexivity.
  repeat (split; [assumption|]).
  destruct (failed_send_ends_the_sender (H:=sample) evs (after evs) 0%nat 1
              data (down 1) (update_text "1" "5") out (update 1 5)
              [update 1 5] [0%nat] [2%nat] 1%nat
              H1 H2 H3 H4 H5 H6 H7 H8 H9 H10 H11)
    as (st' & Hstep & Hw & _ & Hcl & _ & _ & _ & Hh & _).
  exists st'. split; [exact Hstep|]. split; [exact Hw|].
  split; [rewrite Hcl; reflexivity|]. rewrite Hh. apply lookup_delete_eq.
Defined.

(** C2, as the specification has it, fails. Three players are connected and
    the first sends an update while the socket of the second takes no
    bytes. The third, whose socket would take them, is sent nothing; the
    second, whose send failed, is still registered; and it is the first,
    the sender, that is unregistered and whose handler is over. *)
Lemma broadcast_is_not_best_effort :
  let st := after [Accept up; Start 0; Accept up; Start 1;
                   Accept up; Start 2]%nat in
  ∃ st',
    step (H:=sample) st
      (Recv 0%nat (Data (encode (update_text "1" "5"))) (down 1)) = Some st'
    ∧ clients (mem st) = [0; 1; 2]%nat
    ∧ leaderbord (mem st') = [update 1 5]
    ∧ sent_to 2%nat (mem st') = []
    ∧ clients (mem st') = [1; 2]%nat
    ∧ handlers st' !! 0%nat = None
    ∧ handlers st' !! 1%nat = Some (Running 2).
Proof.
  eexists. split; [vm_compute; reflexivity|]. by vm_compute.
Qed.

(** C5, as the specification has it, fails. Five players are connected
    and a sixth connection arrives whose socket takes no bytes, the client
    having gone already. The sixth is refused, but it is sent no rejection
    and the script does not close it: [sendall] raises in the main thread,
    line 82 is not reached, nothing catches the exception and the accept
    loop is over; the handler of a registered player can take no further
    step. *)
Lemma failed_rejection_ends_the_server :
  let st := after (replicate 5 (Accept up)) in
  ∃ st',
    step (H:=sample) st (Accept (down 5)) = Some st'
    ∧ length (clients (mem st)) = MAX_PLAYERS
    ∧ refused st' = [5%nat]
    ∧ sent_to 5%nat (mem st') = []
    ∧ closed (mem st') = []
    ∧ main st' = Dead
    ∧ step (H:=sample) st' (Start 0%nat) = None
    ∧ step (H:=sample) st' (Accept up) = None.
Proof.
  eexists. split; [vm_compute; reflexivity|]. by vm_compute.
Qed.

(** ** The registry and the handler threads *)

(** X1. In every state the server reaches the registry holds at most
    [MAX_PLAYERS] sockets, each once and none of them closed, and
    [client_ids] has entries for registered sockets only. *)
Theorem registry_stays_consistent `{Library} (evs : list event) (st : system) :
  run boot evs = Some st →
  (length (clients (mem st)) ≤ MAX_PLAYERS)%nat
  ∧ NoDup (clients (mem st))
  ∧ (∀ c, c ∈ clients (mem st) → c ∉ closed (mem st))
  ∧ (∀ c, is_Some (client_ids (mem st) !! c) → c ∈ clients (mem st)).
Proof.
  intros Hrun. assert (wf st) as Hwf by (apply reachable_wf; by exists evs).
  destruct Hwf. split; [done|]. split; [done|]. split.
  - intros c Hin Hcl. by destruct (wf_closed0 c Hcl).
  - intros c [p Hp]. apply wf_threads0. apply wf_ids0 in Hp. by eexists.
Qed.

(** X2. Whatever its [recv] returns and whichever sends fail, a turn of a
    handler of a reachable state ends without an exception: the outer
    [except] takes what the loop raises, and in the [finally] block
    [clients.remove(conn)] and [del client_ids[conn]] find their socket. The
    thread either stays in its loop or returns. *)
Theorem handler_turn_never_raises `{Library}
    (evs : list event) (st : system) (c : conn) (p : Z)
    (r : recv_result) (net : conn → bool) :
  run boot evs = Some st →
  handlers st !! c = Some (Running p) →
  ∃ l s', handle_client_turn net c p r (mem st) = (Ok l, s').
Proof.
  intros Hrun Hc. assert (wf st) as Hwf by (apply reachable_wf; by exists evs).
  destruct (handle_client_turn net c p r (mem st)) as [res s'] eqn:Hturn.
  apply handle_client_turn_spec in Hturn as [[-> _]|[-> _]].
  - by exists Continue, s'.
  - by exists Break, s'.
  - apply (wf_threads _ Hwf). by eexists.
  - exists p. by apply (wf_ids _ Hwf).
Qed.

(** X3. When the [recv] of a handler returns no bytes, the handler leaves
    its loop without a word and its [finally] block closes the socket and
    takes it out of [clients] and [client_ids]; when [recv] raises, the same
    happens once the error is printed. The ranking, the bytes written and
    the other handlers are as before. *)
Theorem end_of_reading_unregisters `{Library}
    (evs : list event) (st : system) (c : conn) (p : Z) (net : conn → bool) :
  run boot evs = Some st →
  main st ≠ Dead →
  handlers st !! c = Some (Running p) →
  step st (Recv c (Data []) net)
  = Some {| mem := disconnected c p (mem st);
            main := main st; handlers := delete c (handlers st);
            accepted := accepted st; refused := refused st;
            issued := issued st |}
  ∧ step st (Recv c RecvFails net)
    = Some {| mem := disconnected c p
                       (set_stdout (λ out, out ++ [PlayerError p OSError])
                          (mem st));
              main := main st; handlers := delete c (handlers st);
              accepted := accepted st; refused := refused st;
              issued := issued st |}.
Proof.
  intros Hrun Hmain Hc.
  assert (wf st) as Hwf by (apply reachable_wf; by exists evs).
  assert (c ∈ clients (mem st)) as Hin.
  { apply (wf_threads _ Hwf). by eexists. }
  assert (client_ids (mem st) !! c = Some p) as Hp by by apply (wf_ids _ Hwf).
  unfold step. destruct (main st) as [b|]; [|done]. rewrite Hc.
  unfold handle_client_turn, try_except, loop_body, recv, lift, is_Exception,
    print, modify, mbind, M_bind, mret, M_ret.
  rewrite !(handle_client_finally_eq c p p) by done. done.
Qed.

(** ** A broadcast that goes through *)

Section BroadcastUp.
Context `{Library}.
Implicit Types (s : server) (c : conn).

Lemma for_each_send_up net out (cs : list conn) s :
  json_dumps (VList (leaderbord s)) = Ok out →
  (∀ x, x ∈ cs → net x = true) →
  for_each cs (λ c,
    l ← gets leaderbord;
    text ← lift (json_dumps (VList l));
    sendall net c (encode text)) s
  = (Ok (), set_wire (λ w, w ++ ((λ x, (x, encode out)) <$> cs)) s).
Proof.
  intros Hout Hcs. revert s Hout.
  induction cs as [|x cs IH]; intros s Hout; simpl.
  - by rewrite set_wire_nil.
  - unfold mbind at 1, M_bind at 1.
    unfold mbind at 1, M_bind at 1, gets.
    unfold mbind at 1, M_bind at 1, lift. rewrite Hout.
    unfold sendall at 1. rewrite (Hcs x) by by left.
    rewrite IH; [|intros y Hy; apply Hcs; by right|done].
    by rewrite set_wire_cons.
Qed.

Lemma broadcast_up net out s :
  json_dumps (VList (leaderbord s)) = Ok out →
  (∀ x, x ∈ clients s → net x = true) →
  broadcast net s
  = (Ok (), set_wire (λ w, w ++ ((λ x, (x, encode out)) <$> clients s)) s).
Proof.
  intros Hout Hcs. unfold broadcast, mbind at 1, M_bind at 1, gets.
  by apply for_each_send_up.
Qed.

(** A message handled without an exception: the handler stays in its
    loop. *)
Lemma handle_client_turn_continue net c p data s s1 :
  data ≠ [] →
  handle_message net data s = (Ok (), s1) →
  handle_client_turn net c p (Data data) s = (Ok Continue, s1).
Proof.
  intros Hdata Hmsg.
  unfold handle_client_turn, try_except, loop_body, recv, lift.
  unfold mbind at 1, M_bind at 1.
  destruct data as [|b data]; [done|].
  unfold mbind at 1, M_bind at 1. by rewrite Hmsg.
Qed.
End BroadcastUp.

(** X5. A handler of the running server receives a message that is
    recorded, and every registered socket takes the bytes. Then each
    registered socket, the sender's among them, is sent the serialized new
    ranking, once and in the order of [clients]; the ranking is printed,
    the registry is as before and the handler stays in its loop. *)
Theorem update_reaches_every_client `{Library}
    (evs : list event) (st : system) (c : conn) (p : Z)
    (data : bytes) (net : conn → bool) (text out : string) (v : value)
    (full : list value) :
  run boot evs = Some st →
  main st ≠ Dead →
  handlers st !! c = Some (Running p) →
  data ≠ [] →
  decode data = Ok text →
  json_loads text = Ok v →
  sorted_reverse by_pumps (leaderbord (mem st) ++ [v]) = Ok full →
  json_dumps (VList (take MAX_LEADERBOARD full)) = Ok out →
  (∀ x, x ∈ clients (mem st) → net x = true) →
  ∃ st',
    step st (Recv c (Data data) net) = Some st'
    ∧ leaderbord (mem st') = take MAX_LEADERBOARD full
    ∧ wire (mem st')
      = wire (mem st) ++ ((λ x, (x, encode out)) <$> clients (mem st))
    ∧ c ∈ clients (mem st)
    ∧ stdout (mem st')
      = stdout (mem st) ++ [Board (take MAX_LEADERBOARD full)]
    ∧ clients (mem st') = clients (mem st)
    ∧ client_ids (mem st') = client_ids (mem st)
    ∧ handlers st' = handlers st.
Proof.
  intros Hrun Hmain Hc Hdata Hdec Hload Hsort Hout Hnet.
  assert (wf st) as Hwf by (apply reachable_wf; by exists evs).
  assert (c ∈ clients (mem st)) as Hin.
  { apply (wf_threads _ Hwf). by eexists. }
  destruct (main st) as [b|] eqn:Hb; [|done].
  eexists. split.
  { unfold step. rewrite Hb, Hc.
    erewrite (handle_client_turn_continue net c p data); [reflexivity|done|].
    rewrite handle_message_eq, Hdec, Hload, recordUpdate_eq, Hsort.
    cbv beta iota zeta. by erewrite broadcast_up. }
  fields. simpl. done.
Qed.

(** X1 on six connections, the sixth refused, and a player that leaves. *)
Lemma registry_stays_consistent_witness :
  let evs := (replicate 6 (Accept up)
              ++ [Start 0; Start 1; Recv 0 (Data []) up])%nat in
  run (H:=sample) boot evs = Some (after evs)
  ∧ (length (clients (mem (after evs))) ≤ MAX_PLAYERS)%nat
  ∧ NoDup (clients (mem (after evs))).
Proof.
  intros evs.
  assert (run (H:=sample) boot evs = Some (after evs)) as H1
    by (vm_compute; reflexivity).
  split; [exact H1|].
  destruct (registry_stays_consistent (H:=sample) evs _ H1) as (Hl & Hn & _).
  split; [exact Hl|exact Hn].
Defined.

(** X2 on a handler whose message parses to a list. *)
Lemma handler_turn_never_raises_witness :
  let evs := [Accept up; Start 0%nat] in
  run (H:=sample) boot evs = Some (after evs)
  ∧ handlers (after evs) !! 0%nat = Some (Running 1)
  ∧ ∃ l s',
      handle_client_turn (H:=sample) up 0%nat 1 (Data (encode "[1, 2]"))
        (mem (after evs)) = (Ok l, s').
Proof.
  intros evs.
  assert (run (H:=sample) boot evs = Some (after evs)) as H1
    by (vm_compute; reflexivity).
  assert (handlers (after evs) !! 0%nat = Some (Running 1)) as H2
    by (vm_compute; reflexivity).
  split; [exact H1|]. split; [exact H2|].
  exact (handler_turn_never_raises (H:=sample) evs _ 0%nat 1
           (Data (encode "[1, 2]")) up H1 H2).
Defined.

(** X3 on the first of two players. *)
Lemma end_of_reading_unregisters_witness :
  let evs := [Accept up; Start 0; Accept up; Start 1]%nat in
  run (H:=sample) boot evs = Some (after evs)
  ∧ main (after evs) ≠ Dead
  ∧ handlers (after evs) !! 0%nat = Some (Running 1)
  ∧ step (H:=sample) (after evs) (Recv 0%nat (Data []) up)
    = Some {| mem := disconnected 0%nat 1 (mem (after evs));
              main := main (after evs);
              handlers := delete 0%nat (handlers (after evs));
              accepted := accepted (after evs);
              refused := refused (after evs);
              issued := issued (after evs) |}.
Proof.
  intros evs.
  assert (run (H:=sample) boot evs = Some (after evs)) as H1
    by (vm_compute; reflexivity).
  assert (main (after evs) ≠ Dead) as H2 by (vm_compute; discriminate).
  assert (handlers (after evs) !! 0%nat = Some (Running 1)) as H3
    by (vm_compute; reflexivity).
  repeat (split; [assumption|]).
  exact (proj1 (end_of_reading_unregisters (H:=sample) evs _ 0%nat 1 up
                  H1 H2 H3)).
Defined.

(** X5 on two players, the second of whom sends an update. *)
Lemma update_reaches_every_client_witness :
  let evs := [Accept up; Start 0; Accept up; Start 1]%nat in
  let data := encode (update_text "2" "9") in
  let out := render (VList [update 2 9]) in
  run (H:=sample) boot evs = Some (after evs)
  ∧ main (after evs) ≠ Dead
  ∧ handlers (after evs) !! 1%nat = Some (Running 2)
  ∧ data ≠ []
  ∧ decode data = Ok (update_text "2" "9")
  ∧ json_loads (Library:=sample) (update_text "2" "9") = Ok (update 2 9)
  ∧ sorted_reverse (by_pumps (H:=sample))
      (leaderbord (mem (after evs)) ++ [update 2 9]) = Ok [update 2 9]
  ∧ json_dumps (Library:=sample) (VList (take MAX_LEADERBOARD [update 2 9]))
    = Ok out
  ∧ ∃ st',
      step (H:=sample) (after evs) (Recv 1%nat (Data data) up) = Some st'
      ∧ wire (mem st') = [(0%nat, encode out); (1%nat, encode out)].
Proof.
  intros evs data out.
  assert (run (H:=sample) boot evs = Some (after evs)) as H1
    by (vm_compute; reflexivity).
  assert (main (after evs) ≠ Dead) as H2 by (vm_compute; discriminate).
  assert (handlers (after evs) !! 1%nat = Some (Running 2)) as H3
    by (vm_compute; reflexivity).
  assert (data ≠ []) as H4 by (vm_compute; discriminate).
  assert (decode data = Ok (update_text "2" "9")) as H5
    by (vm_compute; reflexivity).
  assert (json_loads (Library:=sample) (update_text "2" "9") = Ok (update 2 9))
    as H6 by (vm_compute; reflexivity).
  assert (sorted_reverse (by_pumps (H:=sample))
            (leaderbord (mem (after evs)) ++ [update 2 9]) = Ok [update 2 9])
    as H7 by (vm_compute; reflexivity).
  assert (json_dumps (Library:=sample)
            (VList (take MAX_LEADERBOARD [update 2 9])) = Ok out) as H8
    by (vm_compute; reflexivity).
  repeat (split; [assumption|]).
  destruct (update_reaches_every_client (H:=sample) evs (after evs) 1%nat 2
              data up (update_text "2" "9") out (update 2 9) [update 2 9]
              H1 H2 H3 H4 H5 H6 H7 H8 (λ _ _, eq_refl))
    as (st' & Hstep & _ & Hw & _).
  exists st'. split; [exact Hstep|]. rewrite Hw. reflexivity.
Defined.

(** ** Where an update lands in the ranking *)

Section Position.
Context {A : Type}.
Implicit Types (x y : Z * A) (kl : list (Z * A)).

Lemma insert_desc_top y kl : Forall (ge_key y) kl → insert_desc y kl = y :: kl.
Proof.
  destruct kl as [|z kl]; simpl; [done|].
  intros [Hz _]%Forall_cons. unfold ge_key in Hz.
  by rewrite (proj2 (Z.leb_le _ _) Hz).
Qed.

(** The entry appended to a descending list goes behind the entries whose
    key is at least its own and before those of smaller key. *)
Lemma sort_desc_snoc kl x :
  StronglySorted ge_key kl →
  ∃ above below,
    kl = above ++ below
    ∧ Forall (λ y, x.1 ≤ y.1) above ∧ Forall (λ y, y.1 < x.1) below
    ∧ sort_desc (kl ++ [x]) = above ++ x :: below.
Proof.
  unfold sort_desc. rewrite foldr_app. simpl.
  induction 1 as [|y kl Hs IH Hy]; simpl.
  - exists [], []. repeat split; constructor.
  - destruct IH as (above & below & -> & Ha & Hb & ->).
    destruct above as [|a above]; simpl in *.
    + destruct (Z.leb_spec x.1 y.1) as [Hle|Hlt].
      * exists [y], below. split; [done|]. split; [by repeat constructor|].
        done.
      * rewrite insert_desc_top by done.
        exists [], (y :: below). split; [done|]. split; [constructor|].
        split; [by constructor|done].
    + apply Forall_cons in Hy as [Hya _]. apply Forall_cons in Ha as [Hxa Ha].
      unfold ge_key in Hya. rewrite (proj2 (Z.leb_le _ _) Hya).
      exists (y :: a :: above), below. split; [done|]. split; [|done].
      constructor; [lia|]. by constructor.
Qed.
End Position.

Section Landing.
Context `{Library}.
Implicit Types (l : list value) (s : server).

Lemma sorted_reverse_snoc l (u : value) (k : Z) :
  ranked l → by_pumps u = Ok k →
  ∃ above below,
    l = above ++ below
    ∧ Forall (key_at_least k) above ∧ Forall (key_below k) below
    ∧ sorted_reverse by_pumps (l ++ [u]) = Ok (above ++ u :: below).
Proof.
  intros (ks & Hks & Hs) Hu.
  destruct (keys_decorated (λ a b, b ≤ a) l ks Hks Hs)
    as (kl & <- & _ & Hk & Hsorted).
  destruct (sort_desc_snoc kl (k, u) Hsorted)
    as (above & below & -> & Ha & Hb & Hsort).
  apply Forall_app in Hk as [Hka Hkb].
  exists (above.*2), (below.*2). split; [by rewrite fmap_app|].
  split; [|split].
  - apply Forall_fmap, Forall_forall. intros p Hp. exists p.1.
    rewrite Forall_forall in Hka, Ha. split; [by apply Hka|by apply Ha].
  - apply Forall_fmap, Forall_forall. intros p Hp. exists p.1.
    rewrite Forall_forall in Hkb, Hb. split; [by apply Hkb|by apply Hb].
  - unfold sorted_reverse.
    assert (decorate by_pumps ((above ++ below).*2 ++ [u])
            = Ok ((above ++ below) ++ [(k, u)])) as ->.
    { apply decorate_Ok. split; [by rewrite fmap_app|].
      apply Forall_app. split; [|by constructor].
      apply Forall_app. by split. }
    simpl. rewrite Hsort. by rewrite fmap_app, fmap_cons.
Qed.

(** What [sorted] returns is in descending order of the key. *)
Lemma sorted_reverse_ranked l full :
  sorted_reverse by_pumps l = Ok full → ranked full.
Proof.
  unfold sorted_reverse.
  destruct (decorate by_pumps l) as [kl|] eqn:Hd; [|done].
  simpl. intros [= <-]. apply decorate_Ok in Hd as [_ Hall].
  apply keyed_ranked; [|apply sort_desc_sorted].
  unfold keyed. by rewrite sort_desc_perm.
Qed.

Lemma ranked_take n l : ranked l → ranked (take n l).
Proof. intros Hr. rewrite <- (take_drop n l) in Hr. by eapply ranked_app_l. Qed.
End Landing.

(** X6. An update recorded into a ranking in descending order lands behind
    every entry whose [int(x["pumps"])] is at least its own, those of equal
    score included, and before every entry of smaller score; the entries
    already there keep their order, and the list is then cut at
    [MAX_LEADERBOARD]. *)
Theorem update_lands_behind_its_equals `{Library}
    (u : value) (k : Z) (s : server) :
  ranked (leaderbord s) → by_pumps u = Ok k →
  ∃ above below,
    leaderbord s = above ++ below
    ∧ Forall (key_at_least k) above ∧ Forall (key_below k) below
    ∧ recordUpdate u s
      = (Ok (), set_leaderbord
                  (λ _, take MAX_LEADERBOARD (above ++ u :: below)) s).
Proof.
  intros Hr Hu.
  destruct (sorted_reverse_snoc (leaderbord s) u k Hr Hu)
    as (above & below & Hl & Ha & Hb & Hsort).
  exists above, below. repeat (split; [done|]).
  by rewrite recordUpdate_eq, Hsort.
Qed.

(** X7. A ranking in descending order that holds [MAX_LEADERBOARD] entries
    takes an update exactly when its score is greater than that of the last
    entry: an update that only equals the last entry is left out and the
    ranking stays as it is; one that beats it takes its rank among the
    others, and it is the last entry that goes. *)
Theorem full_board_takes_only_better `{Library}
    (u z : value) (k kz : Z) (front : list value) (s : server) :
  ranked (leaderbord s) →
  leaderbord s = front ++ [z] →
  length (leaderbord s) = MAX_LEADERBOARD →
  by_pumps u = Ok k → by_pumps z = Ok kz →
  ∃ s',
    recordUpdate u s = (Ok (), s')
    ∧ (k ≤ kz → leaderbord s' = leaderbord s)
    ∧ (kz < k →
       ∃ above below,
         front = above ++ below
         ∧ Forall (key_at_least k) above ∧ Forall (key_below k) below
         ∧ leaderbord s' = above ++ u :: below).
Proof.
  intros Hr Hl Hlen Hu Hz.
  destruct (sorted_reverse_snoc (leaderbord s) u k Hr Hu)
    as (above & below & Hab & Ha & Hb & Hsort).
  eexists. split; [by rewrite recordUpdate_eq, Hsort|]. simpl.
  destruct below as [|b below _] using rev_ind.
  - rewrite app_nil_r in Hab. split.
    + intros _. rewrite take_app_length'; [done|]. by rewrite <- Hab.
    + intros Hlt. exfalso. rewrite Forall_forall in Ha.
      destruct (Ha z) as (kz' & Hkz' & Hle).
      { rewrite <- Hab, Hl. apply elem_of_app. right. by left. }
      rewrite Hz in Hkz'. injection Hkz' as <-. lia.
  - rewrite Hl, app_assoc in Hab. apply app_inj_tail in Hab as [-> <-].
    apply Forall_app in Hb as [Hb Hzb]. rewrite Forall_singleton in Hzb.
    unfold key_below in Hzb. destruct Hzb as (kz' & Hkz' & Hlt'). rewrite Hz in Hkz'.
    injection Hkz' as <-. split; [intros Hle; lia|].
    intros _. exists above, below. repeat (split; [done|]).
    replace (above ++ u :: below ++ [z]) with ((above ++ u :: below) ++ [z])
      by (by rewrite <- app_assoc).
    rewrite take_app_length'; [done|].
    rewrite Hl, !length_app in Hlen. rewrite length_app. simpl in *. lia.
Qed.

(** ** What the server writes *)

#[local] Instance wrote_rankings_refl `{Library} : Reflexive wrote_rankings.
Proof. intros s. exists []. split; [by rewrite app_nil_r|constructor]. Qed.

#[local] Instance wrote_rankings_trans `{Library} : Transitive wrote_rankings.
Proof.
  intros s1 s2 s3 (sent & Hw & Hs) (sent' & Hw' & Hs').
  exists (sent ++ sent'). split; [by rewrite Hw', Hw, app_assoc|].
  apply Forall_app. by split.
Qed.

#[local] Instance wrote_rejections_refl : Reflexive wrote_rejections.
Proof. intros s. exists []. split; [by rewrite app_nil_r|constructor]. Qed.

#[local] Instance wrote_rejections_trans : Transitive wrote_rejections.
Proof.
  intros s1 s2 s3 (sent & Hw & Hs) (sent' & Hw' & Hs').
  exists (sent ++ sent'). split; [by rewrite Hw', Hw, app_assoc|].
  apply Forall_app. by split.
Qed.

#[local] Instance silent_refl : Reflexive silent.
Proof. by intros s. Qed.

#[local] Instance silent_trans : Transitive silent.
Proof.
  intros s1 s2 s3 [Hl Hw] [Hl' Hw']. split; [by etrans|congruence].
Qed.

Section Writes.
Context `{Library}.
Implicit Types (s : server) (c : conn).

(** Lines 76-79 and 81-82 write the rejection, in the [else] branch, and
    nothing else. *)
Lemma accept_writes net b c s r s' :
  (accepted_conn net b c ;; check) s = (r, s') →
  leaderbord s' = leaderbord s
  ∧ (wire s' = wire s
     ∨ (b = Refuse ∧ wire s' = wire s ++ [(c, rejection)])).
Proof.
  destruct b; unfold accepted_conn, mbind, M_bind, sendall, close, modify.
  - rewrite check_eq. case_bool_decide; intros [= _ <-]; (split; [done|by left]).
  - destruct (net c).
    + rewrite check_eq.
      case_bool_decide; intros [= _ <-]; (split; [done|by right]).
    + intros [= _ <-]. split; [done|by left].
Qed.

(** One turn of a handler, seen through a relation [R] that the prints and
    the [finally] block respect: what holds of the handling of the message
    holds of the turn. *)
Lemma handle_client_turn_rel (R : relation server)
    `{!Reflexive R, !Transitive R} net c p r s res s' :
  (∀ f s0, R s0 (set_stdout f s0)) →
  (∀ f s0, R s0 (set_closed f s0)) →
  (∀ f s0, R s0 (set_clients f s0)) →
  (∀ f s0, R s0 (set_client_ids f s0)) →
  (∀ data r1 s1, handle_message net data s = (r1, s1) → R s s1) →
  handle_client_turn net c p r s = (res, s') → R s s'.
Proof.
  intros Hout Hclosed Hclients Hids Hmsg.
  assert (∀ l, post R (print l)) as Hprint.
  { intros l. apply post_modify. intros s0. apply Hout. }
  assert (post R (handle_client_finally c p)) as Hfin.
  { assert (post R (close c)) as Hclose.
    { apply post_modify. intros s0. apply Hclosed. }
    assert (post R (clients_remove c)) as Hremove.
    { intros s0 r0 s1. unfold clients_remove.
      case_bool_decide; intros [= _ <-]; [apply Hclients|reflexivity]. }
    assert (post R (del_client_id c)) as Hdel.
    { intros s0 r0 s1. unfold del_client_id.
      destruct (client_ids s0 !! c); intros [= _ <-]; [apply Hids|reflexivity]. }
    pose proof (λ A B, post_bind R (A:=A) (B:=B)) as Hbind.
    pose proof (λ A, post_gets R (A:=A)) as Hgets.
    unfold handle_client_finally. eauto 12. }
  assert (∀ l s1, loop_body net r s = (l, s1) → R s s1) as Hbody.
  { intros l s1.
    unfold loop_body, recv, lift, mbind at 1, M_bind at 1.
    destruct r as [[|b data]|]; try (intros [= _ <-]; reflexivity).
    unfold mbind, M_bind.
    destruct (handle_message net (b :: data) s) as [[[]|e] s0] eqn:Hm;
      intros [= _ <-]; by eapply Hmsg. }
  unfold handle_client_turn.
  destruct (try_except _ _ _ s) as [l s1] eqn:Hguard.
  assert (R s s1) as Hs1.
  { revert Hguard. unfold try_except.
    destruct (loop_body net r s) as [o s0].
    pose proof (Hbody o s0 eq_refl) as Hl.
    destruct o as [l0|e]; [by intros [= _ <-]|].
    unfold is_Exception, mbind, M_bind, print, modify, mret, M_ret.
    intros [= _ <-]. etrans; [exact Hl|apply Hout]. }
  assert (∀ (l0 : outcome loop),
    match handle_client_finally c p s1 with
    | (Ok _, s'') => (l0, s'')
    | (Raise e, s'') => (Raise e, s'')
    end = (res, s') → R s s') as Hend.
  { intros l0.
    destruct (handle_client_finally c p s1) as [[[]|e] s2] eqn:Hf;
      apply Hfin in Hf; intros [= _ <-]; by etrans. }
  destruct l as [[]|e]; [by intros [= _ <-]|apply Hend..].
Qed.






(** Once the ranking holds an entry the sort key refuses, [sorted] raises
    on every message. *)
Lemma decorate_poisoned {A} (key : A → outcome Z) (l : list A) x e :
  x ∈ l → key x = Raise e → ∃ e', decorate key l = Raise e'.
Proof.
  intros Hx Hk. destruct (decorate key l) as [kl|e'] eqn:Hd; [|by eexists].
  apply decorate_Ok in Hd as [<- Hall].
  apply list_elem_of_fmap in Hx as (p & -> & Hp).
  rewrite Forall_forall in Hall. specialize (Hall p Hp). congruence.
Qed.

Lemma handle_message_poisoned net data s r s' :
  poisoned (leaderbord s) →
  handle_message net data s = (r, s') → silent s s'.
Proof.
  intros (x & e & Hx & Hk). rewrite handle_message_eq. cbv zeta.
  assert (∀ (e : exn) s1 r1 s2,
            (if is_JSONDecodeError e then print (ParseError e) s1
             else (Raise e, s1)) = (r1, s2) →
            leaderbord s2 = leaderbord s1 ∧ wire s2 = wire s1) as Hexcept.
  { intros e0 s1 r1 s2. by destruct (is_JSONDecodeError e0); intros [= _ <-]. }
  destruct (decode data) as [text|e0];
    [destruct (json_loads text) as [v|e0]|];
    try (intros [Hl Hw]%Hexcept; split; [by rewrite Hl|done]).
  rewrite recordUpdate_eq. unfold sorted_reverse.
  destruct (decorate_poisoned by_pumps (leaderbord s ++ [v]) x e) as [e' ->];
    [apply elem_of_app; by left|done|].
  simpl. intros [Hl Hw]%Hexcept. split; [|done].
  rewrite Hl. simpl. by apply prefix_app_r.
Qed.

Lemma handle_client_turn_poisoned net c p r s res s' :
  poisoned (leaderbord s) →
  handle_client_turn net c p r s = (res, s') → silent s s'.
Proof.
  intros Hp. apply (handle_client_turn_rel silent); try done.
  intros data r1 s1. by apply handle_message_poisoned.
Qed.

Lemma step_poisoned st ev st' :
  poisoned (leaderbord (mem st)) →
  step st ev = Some st' →
  leaderbord (mem st) `prefix_of` leaderbord (mem st')
  ∧ wrote_rejections (mem st) (mem st').
Proof.
  intros Hp. unfold step. destruct (main st) as [b|]; [|done].
  destruct ev as [net| |c|c r net].
  - destruct ((accepted_conn net b (accepted st) ;; check) (mem st))
      as [r m] eqn:Hacc.
    apply accept_writes in Hacc as [Hl Hw].
    assert (wrote_rejections (mem st) m) as Hrej.
    { destruct Hw as [Hw|[_ Hw]].
      - exists []. by rewrite app_nil_r.
      - eexists. split; [exact Hw|]. by repeat constructor. }
    destruct r; intros [= <-]; fields; by rewrite Hl.
  - intros [= <-]. fields. split; [done|reflexivity].
  - destruct (handlers st !! c) as [[|p]|]; try done.
    rewrite handle_client_enter_eq. intros [= <-]. fields.
    split; [done|]. exists []. by rewrite app_nil_r.
  - destruct (handlers st !! c) as [[|p]|]; try done.
    destruct (handle_client_turn net c p r (mem st)) as [res m] eqn:Hturn.
    apply handle_client_turn_poisoned in Hturn as [Hl Hw]; [|done].
    destruct res as [[]|]; intros [= <-]; fields; (split; [done|]);
      exists []; by rewrite app_nil_r.
Qed.

Lemma poisoned_prefix (l l' : list value) :
  poisoned l → l `prefix_of` l' → poisoned l'.
Proof.
  intros (x & e & Hx & Hk) [k ->]. exists x, e.
  split; [apply elem_of_app; by left|done].
Qed.
End Writes.


(** X9. A ranking that holds an entry the sort key refuses stays so for
    good: whatever happens next, the entry stays, the ranking is never
    sorted or cut again but only grows at its end, and the server writes
    nothing more than rejections: no client is sent a ranking again. *)
Theorem poisoned_ranking_is_never_served `{Library}
    (st st' : system) (evs : list event) :
  poisoned (leaderbord (mem st)) →
  run st evs = Some st' →
  poisoned (leaderbord (mem st'))
  ∧ leaderbord (mem st) `prefix_of` leaderbord (mem st')
  ∧ wrote_rejections (mem st) (mem st').
Proof.
  revert st. induction evs as [|ev evs IH]; intros st Hp; simpl.
  - intros [= <-]. split; [done|]. split; reflexivity.
  - destruct (step st ev) as [st1|] eqn:Hstep; [|done].
    apply step_poisoned in Hstep as [Hl Hw]; [|done].
    intros Hrun. destruct (IH st1) as (Hp' & Hl' & Hw'); [|done|].
    { by eapply poisoned_prefix. }
    split; [done|]. split; by etrans.
Qed.

(** X6 on an update that equals the second of two entries. *)
Lemma update_lands_behind_its_equals_witness :
  let s := set_leaderbord (λ _, [update 2 9; update 1 5]) server0 in
  ranked (H:=sample) (leaderbord s)
  ∧ by_pumps (H:=sample) (update 3 5) = Ok 5
  ∧ ∃ above below,
      leaderbord s = above ++ below
      ∧ recordUpdate (H:=sample) (update 3 5) s
        = (Ok (), set_leaderbord
                    (λ _, take MAX_LEADERBOARD (above ++ update 3 5 :: below))
                    s).
Proof.
  intros s.
  assert (ranked (H:=sample) (leaderbord s)) as H1.
  { exists [9; 5]. split; [by repeat constructor|].
    repeat constructor; simpl; lia. }
  assert (by_pumps (H:=sample) (update 3 5) = Ok 5) as H2 by reflexivity.
  split; [exact H1|]. split; [exact H2|].
  destruct (update_lands_behind_its_equals (H:=sample) (update 3 5) 5 s H1 H2)
    as (above & below & Hl & _ & _ & Heq).
  exists above, below. split; [exact Hl|exact Heq].
Defined.

(** X7 on eight entries and an update that equals the last. *)
Lemma full_board_takes_only_better_witness :
  let front := update 1 <$> [10; 9; 8; 7; 6; 5; 4] in
  let s := set_leaderbord (λ _, front ++ [update 1 3]) server0 in
  ranked (H:=sample) (leaderbord s)
  ∧ leaderbord s = front ++ [update 1 3]
  ∧ length (leaderbord s) = MAX_LEADERBOARD
  ∧ by_pumps (H:=sample) (update 2 3) = Ok 3
  ∧ by_pumps (H:=sample) (update 1 3) = Ok 3
  ∧ ∃ s',
      recordUpdate (H:=sample) (update 2 3) s = (Ok (), s')
      ∧ leaderbord s' = leaderbord s.
Proof.
  intros front s.
  assert (ranked (H:=sample) (leaderbord s)) as H1.
  { exists [10; 9; 8; 7; 6; 5; 4; 3]. split; [by repeat constructor|].
    repeat constructor; simpl; lia. }
  assert (leaderbord s = front ++ [update 1 3]) as H2 by reflexivity.
  assert (length (leaderbord s) = MAX_LEADERBOARD) as H3 by reflexivity.
  assert (by_pumps (H:=sample) (update 2 3) = Ok 3) as H4 by reflexivity.
  assert (by_pumps (H:=sample) (update 1 3) = Ok 3) as H5 by reflexivity.
  repeat (split; [assumption|]).
  destruct (full_board_takes_only_better (H:=sample) (update 2 3) (update 1 3)
              3 3 front s H1 H2 H3 H4 H5) as (s' & Heq & Hle & _).
  exists s'. split; [exact Heq|]. apply Hle. lia.
Defined.


(** X9 on a ranking that holds [{"id": 1}]: the update of the second
    player is not served. *)
Lemma poisoned_ranking_is_never_served_witness :
  let evs := [Accept up; Start 0; Accept up; Start 1;
              Recv 0 (Data (encode (id_only_text "1"))) up]%nat in
  let evs' := [Recv 1%nat (Data (encode (update_text "2" "9"))) up] in
  poisoned (H:=sample) (leaderbord (mem (after evs)))
  ∧ run (H:=sample) (after evs) evs' = Some (after (evs ++ evs'))
  ∧ poisoned (H:=sample) (leaderbord (mem (after (evs ++ evs'))))
  ∧ wrote_rejections (mem (after evs)) (mem (after (evs ++ evs'))).
Proof.
  intros evs evs'.
  assert (poisoned (H:=sample) (leaderbord (mem (after evs)))) as H1.
  { exists (VDict [("id", VInt 1)]), KeyError.
    split; [vm_compute; apply list_elem_of_here|reflexivity]. }
  assert (run (H:=sample) (after evs) evs' = Some (after (evs ++ evs'))) as H2
    by (vm_compute; reflexivity).
  split; [exact H1|]. split; [exact H2|].
  destruct (poisoned_ranking_is_never_served (H:=sample) _ _ evs' H1 H2)
    as (Hp & _ & Hw).
  split; [exact Hp|exact Hw].
Defined.

(** ** Messages that do not parse, one after the other *)

(** X4. A handler of the running server receives, one after the other,
    payloads that decode to texts [json.loads] refuses with
    [JSONDecodeError]. Each is printed as a parse error and dropped: the
    handler is still in its loop and the registry, the ranking and the
    bytes written are as before. *)
Theorem unparsable_messages_are_dropped `{Library}
    (st : system) (c : conn) (p : Z) (evs : list event) :
  main st ≠ Dead →
  handlers st !! c = Some (Running p) →
  Forall (λ ev, ∃ data text net,
            ev = Recv c (Data data) net ∧ data ≠ []
            ∧ decode data = Ok text
            ∧ json_loads text = Raise JSONDecodeError) evs →
  ∃ st',
    run st evs = Some st'
    ∧ stdout (mem st')
      = stdout (mem st) ++ replicate (length evs) (ParseError JSONDecodeError)
    ∧ handlers st' = handlers st
    ∧ main st' = main st
    ∧ clients (mem st') = clients (mem st)
    ∧ client_ids (mem st') = client_ids (mem st)
    ∧ leaderbord (mem st') = leaderbord (mem st)
    ∧ wire (mem st') = wire (mem st)
    ∧ closed (mem st') = closed (mem st).
Proof.
  intros Hmain Hc Hall. revert st Hmain Hc.
  induction Hall as [|ev evs (data & text & net & -> & Hdata & Hdec & Hload) _ IH];
    intros st Hmain Hc.
  - exists st. split; [done|]. simpl. by rewrite app_nil_r.
  - simpl.
    rewrite (unparsable_text_is_dropped st c p data net text) by done.
    match goal with |- context [run ?st1 evs] =>
      destruct (IH st1) as (st' & Hrun & Hout & Hh & Hm & Hcl & Hid & Hl & Hw & Hc')
    end; [done..|].
    exists st'. split; [done|]. revert Hout Hh Hm Hcl Hid Hl Hw Hc'. fields.
    simpl. intros -> -> -> -> -> -> -> ->.
    by rewrite <- app_assoc.
Qed.

(** X4 on two texts that are not JSON. *)
Lemma unparsable_messages_are_dropped_witness :
  let st := after [Accept up; Start 0%nat] in
  let evs := [Recv 0%nat (Data (encode "hello")) up;
              Recv 0%nat (Data (encode "{")) up] in
  main st ≠ Dead
  ∧ handlers st !! 0%nat = Some (Running 1)
  ∧ ∃ st',
      run (H:=sample) st evs = Some st'
      ∧ handlers st' = handlers st
      ∧ leaderbord (mem st') = leaderbord (mem st).
Proof.
  intros st evs.
  assert (main st ≠ Dead) as H1 by (vm_compute; discriminate).
  assert (handlers st !! 0%nat = Some (Running 1)) as H2
    by (vm_compute; reflexivity).
  assert (Forall (λ ev, ∃ data text net,
            ev = Recv 0%nat (Data data) net ∧ data ≠ []
            ∧ decode data = Ok text
            ∧ json_loads (Library:=sample) text = Raise JSONDecodeError) evs)
    as H3.
  { repeat constructor.
    - exists (encode "hello"), "hello", up.
      split; [reflexivity|]. split; [vm_compute; discriminate|].
      split; vm_compute; reflexivity.
    - exists (encode "{"), "{", up.
      split; [reflexivity|]. split; [vm_compute; discriminate|].
      split; vm_compute; reflexivity. }
  split; [exact H1|]. split; [exact H2|].
  destruct (unparsable_messages_are_dropped (H:=sample) st 0%nat 1 evs H1 H2 H3)
    as (st' & Hrun & _ & Hh & _ & _ & _ & Hl & _).
  exists st'. split; [exact Hrun|]. split; [exact Hh|exact Hl].
Defined.

(** ** The listener and the snapshots it reads *)

Section Listener.
Context `{Library}.
Import NetworkClient.

(** A read that carries a JSON value: the value is cached and printed. *)
Lemma listen_turn_carries (data : bytes) (v : value) (s : self) :
  sock_closed s = false → carries data v →
  listen_turn (Data data) s
  = (Ok (), set_stdout (λ out, out ++ [Leaderboard v]) (set_leaderboard v s)).
Proof.
  intros Hopen (Hdata & text & Hdec & Hload).
  unfold listen_turn, try_except, sock_recv, recv, on_data, print, mbind,
    M_bind, gets, lift, modify.
  rewrite Hopen. destruct data as [|b data]; [done|].
  rewrite Hdec. simpl. by rewrite Hload.
Qed.

(** A read that carries no JSON value: the error is printed and the flag
    cleared; the cache is left as it was. *)
Lemma listen_turn_garbled (data : bytes) (e : exn) (s : self) :
  sock_closed s = false → garbled data e →
  listen_turn (Data data) s
  = (Ok (), set_running false
              (set_stdout (λ out, out ++ [ListeningFailed e]) s)).
Proof.
  intros Hopen (Hdata & Hbad).
  unfold listen_turn, try_except, sock_recv, recv, on_data, on_error, print,
    mbind, M_bind, gets, lift, modify, is_Exception.
  rewrite Hopen. destruct data as [|b data]; [done|].
  destruct Hbad as [Hdec|(text & Hdec & Hload)]; rewrite Hdec; simpl; [done|].
  by rewrite Hload.
Qed.

(** The listener over reads that all carry a value. *)
Lemma listen_for_updates_carried (good : list (bytes * value)) (s : self) :
  running s = true → sock_closed s = false →
  Forall (λ dv, carries dv.1 dv.2) good →
  ∃ s1,
    (∀ rest, listen_for_updates ((Data <$> good.*1) ++ rest) s
             = listen_for_updates rest s1)
    ∧ running s1 = true ∧ sock_closed s1 = false
    ∧ leaderboard s1 = default (leaderboard s) (last (good.*2))
    ∧ stdout s1 = stdout s ++ (Leaderboard <$> good.*2)
    ∧ sock_sent s1 = sock_sent s ∧ player_id s1 = player_id s.
Proof.
  intros Hrun Hopen Hall. revert s Hrun Hopen.
  induction Hall as [|[data v] good Hdv _ IH]; intros s Hrun Hopen.
  - exists s. split; [done|]. simpl. by rewrite app_nil_r.
  - destruct (IH (set_stdout (λ out, out ++ [Leaderboard v])
                    (set_leaderboard v s)))
      as (s1 & Hrest & Hrun1 & Hopen1 & Hlb & Hout & Hsent & Hid); [done..|].
    exists s1. split.
    { intros rest. simpl.
      unfold mbind at 1, M_bind at 1, gets. rewrite Hrun.
      unfold mbind at 1, M_bind at 1.
      rewrite (listen_turn_carries data v) by done. apply Hrest. }
    repeat (split; [done|]). split; [|split; [|done]].
    + rewrite Hlb. change (((data, v) :: good).*2) with (v :: good.*2).
      rewrite last_cons. simpl. by destruct (last (good.*2)).
    + rewrite Hout. change (((data, v) :: good).*2) with (v :: good.*2).
      simpl. by rewrite <- app_assoc.
Qed.
End Listener.

(** X10. As long as every read of the listener brings the text of one JSON
    value, the listener stays in its loop and [get_leaderboard] returns the
    value the last read brought: the cache holds the latest snapshot, and
    each snapshot was printed. *)
Theorem listener_caches_latest_snapshot `{Library}
    (good : list (bytes * value)) (s : NetworkClient.self) :
  NetworkClient.running s = true →
  NetworkClient.sock_closed s = false →
  Forall (λ dv, carries dv.1 dv.2) good →
  ∃ s',
    NetworkClient.listen_for_updates (Data <$> good.*1) s = (Ok NetworkClient.Reading, s')
    ∧ NetworkClient.get_leaderboard s'
      = (Ok (default (NetworkClient.leaderboard s) (last (good.*2))), s')
    ∧ NetworkClient.stdout s'
      = NetworkClient.stdout s ++ (NetworkClient.Leaderboard <$> good.*2)
    ∧ NetworkClient.sock_sent s' = NetworkClient.sock_sent s.
Proof.
  intros Hrun Hopen Hall.
  destruct (listen_for_updates_carried good s Hrun Hopen Hall)
    as (s1 & Hrest & Hrun1 & _ & Hlb & Hout & Hsent & _).
  exists s1. split.
  { rewrite <- (app_nil_r (Data <$> good.*1)), Hrest. simpl.
    unfold mbind, M_bind, gets. by rewrite Hrun1. }
  split; [|done]. unfold NetworkClient.get_leaderboard, gets. by rewrite Hlb.
Qed.

(** X11. The first read that brings bytes which are not the text of one
    JSON value stops the listener for good: the error is printed,
    [self.running] is cleared, the reads that would follow are never made,
    and the cache keeps the last snapshot read before. *)
Theorem listener_stops_at_first_bad_payload `{Library}
    (good : list (bytes * value)) (bad : bytes) (e : exn)
    (rest : list recv_result) (s : NetworkClient.self) :
  NetworkClient.running s = true →
  NetworkClient.sock_closed s = false →
  Forall (λ dv, carries dv.1 dv.2) good →
  garbled bad e →
  ∃ s',
    NetworkClient.listen_for_updates ((Data <$> good.*1) ++ Data bad :: rest) s
    = (Ok NetworkClient.Stopped, s')
    ∧ NetworkClient.running s' = false
    ∧ NetworkClient.leaderboard s'
      = default (NetworkClient.leaderboard s) (last (good.*2))
    ∧ NetworkClient.stdout s'
      = NetworkClient.stdout s ++ (NetworkClient.Leaderboard <$> good.*2)
        ++ [NetworkClient.ListeningFailed e].
Proof.
  intros Hrun Hopen Hall Hbad.
  destruct (listen_for_updates_carried good s Hrun Hopen Hall)
    as (s1 & Hrest & Hrun1 & Hopen1 & Hlb & Hout & _ & _).
  eexists. split.
  { rewrite Hrest. simpl. unfold mbind at 1, M_bind at 1, gets.
    rewrite Hrun1. unfold mbind at 1, M_bind at 1.
    rewrite (listen_turn_garbled bad e) by done. by destruct rest. }
  simpl. split; [done|]. split; [done|]. by rewrite Hout, <- app_assoc.
Qed.

(** ** From the client's call to the server's ranking *)

Section EndToEnd.
Context `{Library}.
Implicit Types (s : server) (c : conn).

(** A message that decodes, parses and sorts is in the ranking when its
    handling ends, however the broadcast goes. *)
Lemma handle_message_recorded net data text (v : value) full s r s' :
  decode data = Ok text → json_loads text = Ok v →
  sorted_reverse by_pumps (leaderbord s ++ [v]) = Ok full →
  handle_message net data s = (r, s') →
  leaderbord s' = take MAX_LEADERBOARD full.
Proof.
  intros Hdec Hload Hsort.
  rewrite handle_message_eq, Hdec, Hload, recordUpdate_eq, Hsort.
  cbv beta iota zeta.
  destruct (broadcast net _) as [[[]|e] s2] eqn:Hb;
    apply broadcast_board in Hb; unfold same_board in Hb; simpl in Hb.
  - by intros [= _ <-].
  - by destruct (is_JSONDecodeError e); intros [= _ <-].
Qed.

Lemma handle_client_turn_recorded net c p data text (v : value) full s :
  c ∈ clients s → client_ids s !! c = Some p → data ≠ [] →
  decode data = Ok text → json_loads text = Ok v →
  sorted_reverse by_pumps (leaderbord s ++ [v]) = Ok full →
  ∃ l s',
    handle_client_turn net c p (Data data) s = (Ok l, s')
    ∧ leaderbord s' = take MAX_LEADERBOARD full.
Proof.
  intros Hc Hp Hdata Hdec Hload Hsort.
  destruct (handle_message net data s) as [[[]|e] s2] eqn:Hm.
  - exists Continue, s2. split; [by apply handle_client_turn_continue|].
    by eapply handle_message_recorded.
  - pose proof (handle_message_relayed net data s _ _ Hm)
      as (Hcl & Hid & _).
    eexists Break, _. split.
    + apply (handle_client_turn_raise net c p p data s e s2);
        [done|done|by rewrite Hcl|by rewrite Hid].
    + simpl. by eapply handle_message_recorded.
Qed.
End EndToEnd.

(** X12. What [send_update] writes for a whole number of pumps is a score
    update for the server. The client's socket is open and takes the bytes;
    they reach, in one read, a handler of the running server whose ranking
    is in descending order; and [json.loads] gives back the message
    [json.dumps] was given. Then the message is in the ranking when the
    handler's turn ends, whether or not the broadcast goes through: behind
    the entries of at least [pumps], before those of less, the list cut at
    [MAX_LEADERBOARD]. *)
Theorem client_update_enters_the_ranking `{Library}
    (evs : list event) (st : system) (c : conn) (p : Z) (net : conn → bool)
    (s : NetworkClient.self) (pumps : Z) (text : string) :
  run boot evs = Some st →
  main st ≠ Dead →
  handlers st !! c = Some (Running p) →
  ranked (leaderbord (mem st)) →
  NetworkClient.sock_closed s = false →
  json_dumps (VDict [("id", NetworkClient.player_id s); ("pumps", VInt pumps)])
  = Ok text →
  carries (encode text)
    (VDict [("id", NetworkClient.player_id s); ("pumps", VInt pumps)]) →
  ∃ s' st' above below,
    NetworkClient.send_update true (VInt pumps) s = (Ok (), s')
    ∧ NetworkClient.sock_sent s' = NetworkClient.sock_sent s ++ [encode text]
    ∧ step st (Recv c (Data (encode text)) net) = Some st'
    ∧ leaderbord (mem st) = above ++ below
    ∧ Forall (key_at_least pumps) above ∧ Forall (key_below pumps) below
    ∧ leaderbord (mem st')
      = take MAX_LEADERBOARD
          (above
           ++ VDict [("id", NetworkClient.player_id s); ("pumps", VInt pumps)]
           :: below).
Proof.
  intros Hrun Hmain Hc Hr Hopen Hdumps (Hdata & text' & Hdec & Hload).
  assert (wf st) as Hwf by (apply reachable_wf; by exists evs).
  assert (c ∈ clients (mem st)) as Hin.
  { apply (wf_threads _ Hwf). by eexists. }
  assert (client_ids (mem st) !! c = Some p) as Hp by by apply (wf_ids _ Hwf).
  destruct (sorted_reverse_snoc (leaderbord (mem st))
              (VDict [("id", NetworkClient.player_id s); ("pumps", VInt pumps)])
              pumps Hr eq_refl)
    as (above & below & Hl & Ha & Hb & Hsort).
  destruct (handle_client_turn_recorded net c p (encode text) text' _ _
              (mem st) Hin Hp Hdata Hdec Hload Hsort)
    as (l & m & Hturn & Hboard).
  destruct (main st) as [b|] eqn:Hb'; [|done].
  assert (∃ st', step st (Recv c (Data (encode text)) net) = Some st'
                 ∧ mem st' = m) as (st' & Hstep & Hmem).
  { unfold step. rewrite Hb', Hc, Hturn. destruct l; by eexists. }
  eexists _, st', above, below. split.
  { unfold NetworkClient.send_update, try_except, NetworkClient.sock_sendall,
      mbind, M_bind, gets, lift, modify.
    by rewrite Hdumps, Hopen. }
  repeat (split; [done|]). by rewrite Hmem.
Qed.

(** X10 on two reads. *)
Lemma listener_caches_latest_snapshot_witness :
  let good := [(encode "[1, 2]", VList [VInt 1; VInt 2]);
               (encode (update_text "1" "3"), update 1 3)] in
  let s := NetworkClient.init (VInt 1) in
  NetworkClient.running s = true
  ∧ NetworkClient.sock_closed s = false
  ∧ Forall (λ dv, carries (H:=sample) dv.1 dv.2) good
  ∧ ∃ s',
      NetworkClient.listen_for_updates (H:=sample) (Data <$> good.*1) s
      = (Ok NetworkClient.Reading, s')
      ∧ NetworkClient.get_leaderboard s' = (Ok (update 1 3), s').
Proof.
  intros good s.
  assert (Forall (λ dv, carries (H:=sample) dv.1 dv.2) good) as H3.
  { repeat constructor; try (vm_compute; discriminate).
    - exists "[1, 2]". split; vm_compute; reflexivity.
    - exists (update_text "1" "3"). split; vm_compute; reflexivity. }
  split; [reflexivity|]. split; [reflexivity|]. split; [exact H3|].
  destruct (listener_caches_latest_snapshot (H:=sample) good s
              eq_refl eq_refl H3) as (s' & Hrun & Hget & _).
  exists s'. split; [exact Hrun|exact Hget].
Defined.

(** X11 on a client the server refuses: the one read brings the
    rejection, which is no JSON text. *)
Lemma listener_stops_at_first_bad_payload_witness :
  let s := NetworkClient.init (VInt 1) in
  NetworkClient.running s = true
  ∧ NetworkClient.sock_closed s = false
  ∧ Forall (λ dv : bytes * value, carries (H:=sample) dv.1 dv.2) []
  ∧ garbled (H:=sample) rejection JSONDecodeError
  ∧ ∃ s',
      NetworkClient.listen_for_updates (H:=sample)
        [Data rejection; Data (encode "[1, 2]")] s
      = (Ok NetworkClient.Stopped, s')
      ∧ NetworkClient.running s' = false
      ∧ NetworkClient.leaderboard s' = VList [].
Proof.
  intros s.
  assert (garbled (H:=sample) rejection JSONDecodeError) as H4.
  { split; [vm_compute; discriminate|]. right.
    exists "Server is full. Try again later.".
    split; vm_compute; reflexivity. }
  split; [reflexivity|]. split; [reflexivity|].
  split; [constructor|]. split; [exact H4|].
  destruct (listener_stops_at_first_bad_payload (H:=sample) [] rejection
              JSONDecodeError [Data (encode "[1, 2]")] s
              eq_refl eq_refl (Forall_nil_2 _) H4)
    as (s' & Hrun & Hstop & Hlb & _).
  exists s'. split; [exact Hrun|]. split; [exact Hstop|exact Hlb].
Defined.

(** X12 on the first update of player 1, with 3 pumps. *)
Lemma client_update_enters_the_ranking_witness :
  let evs := [Accept up; Start 0%nat] in
  let s := NetworkClient.init (VInt 1) in
  let text := update_text "1" "3" in
  run (H:=sample) boot evs = Some (after evs)
  ∧ main (after evs) ≠ Dead
  ∧ handlers (after evs) !! 0%nat = Some (Running 1)
  ∧ ranked (H:=sample) (leaderbord (mem (after evs)))
  ∧ NetworkClient.sock_closed s = false
  ∧ json_dumps (Library:=sample) (update 1 3) = Ok text
  ∧ carries (H:=sample) (encode text) (update 1 3)
  ∧ ∃ s' st',
      NetworkClient.send_update (H:=sample) true (VInt 3) s = (Ok (), s')
      ∧ NetworkClient.sock_sent s' = [encode text]
      ∧ step (H:=sample) (after evs) (Recv 0%nat (Data (encode text)) up)
        = Some st'
      ∧ leaderbord (mem st') = [update 1 3].
Proof.
  intros evs s text.
  assert (run (H:=sample) boot evs = Some (after evs)) as H1
    by (vm_compute; reflexivity).
  assert (main (after evs) ≠ Dead) as H2 by (vm_compute; discriminate).
  assert (handlers (after evs) !! 0%nat = Some (Running 1)) as H3
    by (vm_compute; reflexivity).
  assert (ranked (H:=sample) (leaderbord (mem (after evs)))) as H4.
  { exists []. split; constructor. }
  assert (NetworkClient.sock_closed s = false) as H5 by reflexivity.
  assert (json_dumps (Library:=sample) (update 1 3) = Ok text) as H6
    by (vm_compute; reflexivity).
  assert (carries (H:=sample) (encode text) (update 1 3)) as H7.
  { split; [vm_compute; discriminate|]. exists text.
    split; vm_compute; reflexivity. }
  repeat (split; [assumption|]).
  destruct (client_update_enters_the_ranking (H:=sample) evs (after evs)
              0%nat 1 up s 3 text H1 H2 H3 H4 H5 H6 H7)
    as (s' & st' & above & below & Hsend & Hsent & Hstep & Hl & _ & _ & Hboard).
  exists s', st'. split; [exact Hsend|]. split; [exact Hsent|].
  split; [exact Hstep|]. rewrite Hboard.
  assert (above = [] ∧ below = []) as [-> ->].
  { change (leaderbord (mem (after evs))) with (@nil value) in Hl.
    symmetry in Hl. by apply app_eq_nil in Hl. }
  reflexivity.
Defined.

(** ** The list of trials *)

Section Trials.
Import Bart.

Lemma images_eq (colorList : list string) :
  images colorList
  = ((λ color, color +:+ "Balloon.png") <$> colorList,
     (λ color, color +:+ "Pop.png") <$> colorList).
Proof.
  unfold images.
  assert (∀ l a b,
    foldl (λ imgs color,
             (imgs.1 ++ [color +:+ "Balloon.png"],
              imgs.2 ++ [color +:+ "Pop.png"])) (a, b) l
    = (a ++ ((λ color, color +:+ "Balloon.png") <$> l),
       b ++ ((λ color, color +:+ "Pop.png") <$> l))) as Hfold.
  { induction l as [|c l IH]; intros a b; simpl.
    - by rewrite !app_nil_r.
    - rewrite IH. simpl. by rewrite <- !app_assoc. }
  apply Hfold.
Qed.

Lemma zip_with_take_length {A B C} (f : A → B → C) (l : list A) (k : list B) :
  zip_with f l (take (length l) k) = zip_with f l k.
Proof.
  revert k. induction l as [|x l IH]; intros [|y k]; simpl; [done..|].
  by rewrite IH.
Qed.
End Trials.

(** X13. The trial list pairs the colours with the pump limits by position:
    it has one trial per colour, in the order of [colorList], when
    [maxPumps] has at least as many entries, and the limits beyond the
    last colour are not used; when [maxPumps] is shorter the index past its
    end raises and there is no list. *)
Theorem trial_list_pairs_colours_with_limits {A}
    (colorList : list string) (maxPumps : list Z) (REWARD : A) :
  Bart.trialList colorList maxPumps REWARD
  = if bool_decide (length colorList ≤ length maxPumps)%nat
    then Some (zip_with
                 (λ color m,
                    {| Bart.balloon_img := color +:+ "Balloon.png";
                       Bart.pop_img := color +:+ "Pop.png";
                       Bart.maxPumps := m; Bart.reward := REWARD |})
                 colorList maxPumps)
    else None.
Proof.
  unfold Bart.trialList. rewrite images_eq. simpl fst. simpl snd.
  set (g := λ (color : string) (m : Z),
              {| Bart.balloon_img := color +:+ "Balloon.png";
                 Bart.pop_img := color +:+ "Pop.png";
                 Bart.maxPumps := m; Bart.reward := REWARD |}).
  match goal with |- foldl ?f _ _ = _ => set (body := f) end.
  assert (∀ n, (n ≤ length colorList)%nat →
            foldl body (Some []) (seq 0 n)
            = if bool_decide (n ≤ length maxPumps)%nat
              then Some (zip_with g (take n colorList) (take n maxPumps))
              else None) as Hloop.
  { induction n as [|n IH]; intros Hn.
    - rewrite bool_decide_true by lia. done.
    - rewrite seq_S, foldl_app, IH by lia. simpl.
      destruct (lookup_lt_is_Some_2 colorList n) as [color Hcolor]; [lia|].
      case_bool_decide as Hle.
      + unfold body at 1. simpl. rewrite !list_lookup_fmap, Hcolor. simpl.
        case_bool_decide as Hle'.
        * destruct (lookup_lt_is_Some_2 maxPumps n) as [m Hm]; [lia|].
          rewrite Hm. simpl. f_equal.
          rewrite (take_S_r _ _ _ Hcolor), (take_S_r _ _ _ Hm).
          rewrite zip_with_app; [done|].
          rewrite !length_take. lia.
        * rewrite lookup_ge_None_2 by lia. done.
      + rewrite bool_decide_false by lia. done. }
  rewrite Hloop by done. rewrite firstn_all.
  case_bool_decide; [|done]. by rewrite zip_with_take_length.
Qed.

(** ** The pump loop *)

Section Pumps.
Context `{Library}.
Import Bart.

(** [send_update] returns. *)
Lemma send_update_Ok (net : bool) (pumps : value) (s : NetworkClient.self) :
  ∃ s', NetworkClient.send_update net pumps s = (Ok (), s').
Proof.
  unfold NetworkClient.send_update, try_except, NetworkClient.sock_sendall,
    NetworkClient.print, mbind, M_bind, gets, lift, modify.
  destruct (json_dumps _) as [text|e]; simpl; [|by eexists].
  destruct (NetworkClient.sock_closed s); simpl; [by eexists|].
  destruct net; by eexists.
Qed.

Lemma pump_from (maxPumps : Z) (net : bool) (responds : list respond)
    (nPumps : Z) (s : NetworkClient.self) :
  0 ≤ nPumps ≤ maxPumps - 2 →
  Forall drawn responds →
  ∃ e s',
    pump maxPumps net responds nPumps s = (Ok e, s')
    ∧ pump_end maxPumps net s e s'.
Proof.
  intros Hn Hall. revert nPumps Hn.
  induction Hall as [|x responds Hx _ IH]; intros nPumps Hn; simpl.
  - by exists (Waiting nPumps), s.
  - destruct x as [| | |r].
    + by exists (Absent nPumps), s.
    + by exists (Escaped nPumps), s.
    + destruct (send_update_Ok net (VInt nPumps) s) as [s' Hsend].
      exists (Cashed nPumps), s'. unfold mbind, M_bind. rewrite Hsend.
      by split.
    + unfold pops. rewrite bool_decide_false by lia.
      destruct (decide (maxPumps - (nPumps + 1) = 1)) as [Hlast|Hmore].
      * rewrite Hlast.
        change (PrimFloat.div PrimFloat.one (float_of_int 1))
          with PrimFloat.one.
        simpl in Hx. rewrite Hx.
        exists (Popped (nPumps + 1)), s. split; [done|]. simpl.
           split; [lia|done].
      * destruct (PrimFloat.ltb r _).
        -- exists (Popped (nPumps + 1)), s. split; [done|]. simpl.
           split; [lia|done].
        -- apply IH. lia.
Qed.
End Pumps.

(** X14. A balloon whose limit is at least 2, and below [2 ^ 62] so that
    [float_of_int] is the conversion Python makes, never takes the script
    to [1.0 / 0]: the pump that brings [nPumps] to [maxPumps - 1] pops the
    balloon whatever [random.random()] returns, so a trial that ends
    otherwise, or still waits for a key, has at most [maxPumps - 2] pumps;
    and cashing out sends exactly one update, with that number of pumps. *)
Theorem pump_loop_stops_below_the_limit `{Library}
    (maxPumps : Z) (net : bool) (responds : list Bart.respond)
    (s : NetworkClient.self) :
  2 ≤ maxPumps → maxPumps < 2 ^ 62 →
  Forall Bart.drawn responds →
  ∃ e s',
    Bart.pump maxPumps net responds 0 s = (Ok e, s')
    ∧ Bart.pump_end maxPumps net s e s'.
Proof. intros Hmin _ Hall. apply pump_from; [lia|done]. Qed.

(** X14 on a yellow balloon: one pump that does not pop it, then the
    cash-out. *)
Lemma pump_loop_stops_below_the_limit_witness :
  let half := PrimFloat.div PrimFloat.one (Bart.float_of_int 2) in
  let responds := [Bart.KeyPump half; Bart.KeyNext] in
  2 ≤ 16 ∧ 16 < 2 ^ 62
  ∧ Forall Bart.drawn responds
  ∧ ∃ e s',
      Bart.pump (H:=sample) 16 true responds 0 (NetworkClient.init (VInt 1))
      = (Ok e, s')
      ∧ Bart.pump_end (H:=sample) 16 true (NetworkClient.init (VInt 1)) e s'.
Proof.
  intros half responds.
  assert (2 ≤ 16) as H1 by lia.
  assert (16 < 2 ^ 62) as H2 by lia.
  assert (Forall Bart.drawn responds) as H3.
  { repeat constructor. }
  split; [exact H1|]. split; [exact H2|]. split; [exact H3|].
  exact (pump_loop_stops_below_the_limit (H:=sample) 16 true responds
           (NetworkClient.init (VInt 1)) H1 H2 H3).
Defined.

(** ** Strings of digits *)

Section Digits.
Import Bart.

Lemma all_digits_app (a b : string) :
  all_digits (a +:+ b) = all_digits a && all_digits b.
Proof.
  induction a as [|c a IH]; simpl; [done|]. by rewrite IH, andb_assoc.
Qed.

Lemma length_append (a b : string) :
  String.length (a +:+ b) = (String.length a + String.length b)%nat.
Proof. induction a as [|c a IH]; simpl; [done|]. by rewrite IH. Qed.

Lemma append_cons (x : Ascii.ascii) (a b : string) :
  String x a +:+ b = String x (a +:+ b).
Proof. reflexivity. Qed.

Lemma append_assoc (a b c : string) : (a +:+ b) +:+ c = a +:+ (b +:+ c).
Proof.
  induction a as [|x a IH]; [done|]. by rewrite !append_cons, IH.
Qed.

Lemma append_nil_r (a : string) : a +:+ EmptyString = a.
Proof. induction a as [|x a IH]; [done|]. by rewrite append_cons, IH. Qed.

Lemma is_digit_value (a : Ascii.ascii) :
  is_digit a = true → 0 ≤ Z.of_nat (Ascii.nat_of_ascii a) - 48 ≤ 9.
Proof.
  unfold is_digit. intros [H1 H2]%andb_prop.
  apply Nat.leb_le in H1, H2. lia.
Qed.

Lemma int_acc_app (a b : string) (acc : Z) :
  int_acc (a +:+ b) acc = int_acc b (int_acc a acc).
Proof. revert acc. induction a as [|c a IH]; intros acc; simpl; [done|]. apply IH. Qed.

Lemma int_acc_ge (s : string) (acc : Z) :
  all_digits s = true → 0 ≤ acc → acc ≤ int_acc s acc.
Proof.
  revert acc. induction s as [|c s IH]; intros acc; simpl; [lia|].
  intros [Hc Hs]%andb_prop Hacc. apply is_digit_value in Hc.
  etrans; [|apply IH; [done|lia]]. lia.
Qed.

Lemma int_acc_pow (s : string) (acc : Z) :
  int_acc s acc = acc * 10 ^ Z.of_nat (String.length s) + int_acc s 0.
Proof.
  revert acc. induction s as [|c s IH]; intros acc; simpl String.length.
  - simpl. lia.
  - cbn [int_acc]. rewrite IH, (IH (10 * 0 + _)).
    rewrite Nat2Z.inj_succ, Z.pow_succ_r by lia. lia.
Qed.

Lemma isdigit_all_digits (s : string) :
  isdigit s = true ↔ s ≠ EmptyString ∧ all_digits s = true.
Proof.
  destruct s as [|c s]; simpl.
  - split; [done|by intros [? _]].
  - split; [by intros Hs|by intros [_ Hs]].
Qed.

(** Removing the last digit leaves digits, of no greater value. *)
Lemma drop_last_all_digits (s : string) :
  all_digits s = true → all_digits (drop_last s) = true.
Proof.
  induction s as [|c s IH]; [done|]. intros [Hc Hs]%andb_prop.
  destruct s as [|c' s]; [done|]. cbn [drop_last all_digits].
  rewrite Hc. simpl. by apply IH.
Qed.

Lemma drop_last_int_acc (s : string) (acc : Z) :
  all_digits s = true → 0 ≤ acc → int_acc (drop_last s) acc ≤ int_acc s acc.
Proof.
  revert acc. induction s as [|c s IH]; intros acc; [done|].
  intros [Hc Hs]%andb_prop Hacc. apply is_digit_value in Hc.
  destruct s as [|c' s]; [simpl; lia|].
  cbn [drop_last]. cbn [int_acc] in *. apply IH; [done|lia].
Qed.

(** The digits [pretty] writes. *)
Lemma pretty_N_char_digit (d : N) : is_digit (pretty_N_char d) = true.
Proof. unfold pretty_N_char. by repeat case_match. Qed.

Lemma pretty_N_char_value (d : N) :
  (d < 10)%N →
  Z.of_nat (Ascii.nat_of_ascii (pretty_N_char d)) - 48 = Z.of_N d.
Proof.
  intros Hd.
  assert (d = 0 ∨ d = 1 ∨ d = 2 ∨ d = 3 ∨ d = 4 ∨ d = 5 ∨ d = 6 ∨ d = 7
          ∨ d = 8 ∨ d = 9)%N as Hcases by lia.
  repeat (destruct Hcases as [->|Hcases]; [done|]). by subst.
Qed.

Lemma pretty_N_go_all_digits (x : N) (s : string) :
  all_digits s = true → all_digits (pretty_N_go x s) = true.
Proof.
  revert s. induction (N.lt_wf_0 x) as [x _ IH]; intros s Hs.
  assert (x = 0 ∨ 0 < x)%N as [->|Hx] by lia; [by rewrite pretty_N_go_0|].
  rewrite pretty_N_go_step by done. apply IH; [by apply N.div_lt|].
  simpl. by rewrite pretty_N_char_digit.
Qed.

Lemma pretty_N_go_length (x : N) (s : string) :
  (String.length s ≤ String.length (pretty_N_go x s))%nat.
Proof.
  revert s. induction (N.lt_wf_0 x) as [x _ IH]; intros s.
  assert (x = 0 ∨ 0 < x)%N as [->|Hx] by lia; [by rewrite pretty_N_go_0|].
  rewrite pretty_N_go_step by done.
  etrans; [|apply IH; by apply N.div_lt]. simpl. lia.
Qed.

Lemma pretty_N_go_length_mono (x y : N) (s t : string) :
  (x ≤ y)%N → String.length s = String.length t →
  (String.length (pretty_N_go x s) ≤ String.length (pretty_N_go y t))%nat.
Proof.
  revert y s t. induction (N.lt_wf_0 x) as [x _ IH]; intros y s t Hxy Hlen.
  assert (x = 0 ∨ 0 < x)%N as [->|Hx] by lia.
  - rewrite pretty_N_go_0, Hlen. apply pretty_N_go_length.
  - rewrite (pretty_N_go_step x), (pretty_N_go_step y) by lia.
    apply IH; [by apply N.div_lt|by apply N.Div0.div_le_mono|].
    simpl. by rewrite Hlen.
Qed.

Lemma pretty_N_go_value (x : N) (s : string) :
  int_acc (pretty_N_go x s) 0
  = Z.of_N x * 10 ^ Z.of_nat (String.length s) + int_acc s 0.
Proof.
  revert s. induction (N.lt_wf_0 x) as [x _ IH]; intros s.
  assert (x = 0 ∨ 0 < x)%N as [->|Hx] by lia.
  { rewrite pretty_N_go_0. lia. }
  rewrite pretty_N_go_step by done. rewrite IH by (by apply N.div_lt).
  cbn [int_acc String.length].
  rewrite (int_acc_pow s (10 * 0 + _)), pretty_N_char_value
    by (by apply N.mod_lt).
  rewrite Nat2Z.inj_succ, Z.pow_succ_r by lia.
  rewrite (N.div_mod x 10) at 3 by done.
  rewrite N2Z.inj_add, N2Z.inj_mul, N2Z.inj_div, N2Z.inj_mod.
  change (Z.of_N 10) with 10. lia.
Qed.

(** [str] of a number that is not negative. *)
Lemma str_nonneg (n : Z) :
  0 ≤ n →
  str n = if decide (n = 0) then "0" else pretty_N_go (Z.to_N n) EmptyString.
Proof.
  intros Hn. destruct n as [|p|p]; [done| |lia].
  unfold str, pretty, pretty_Z, pretty, pretty_positive, pretty, pretty_N.
  rewrite decide_False by done. by rewrite decide_False by done.
Qed.

Lemma str_isdigit (n : Z) : 0 ≤ n → isdigit (str n) = true.
Proof.
  intros Hn. rewrite str_nonneg by done. case_decide; [done|].
  apply isdigit_all_digits. split; [|by apply pretty_N_go_all_digits].
  rewrite pretty_N_go_step by lia. intros Hnil.
  pose proof (pretty_N_go_length (Z.to_N n `div` 10)
                (String (pretty_N_char (Z.to_N n `mod` 10)) EmptyString)) as Hl.
  rewrite Hnil in Hl. simpl in Hl. lia.
Qed.

Lemma str_value (n : Z) : 0 ≤ n → int_digits (str n) = n.
Proof.
  intros Hn. rewrite str_nonneg by done. case_decide; [by subst|].
  unfold int_digits. rewrite pretty_N_go_value. simpl. lia.
Qed.

Lemma str_length_mono (n m : Z) :
  0 ≤ n ≤ m → (String.length (str n) ≤ String.length (str m))%nat.
Proof.
  intros Hnm. rewrite !str_nonneg by lia.
  destruct (decide (n = 0)) as [->|Hn].
  - destruct (decide (m = 0)) as [->|Hm]; [done|].
    rewrite pretty_N_go_step by lia. etrans; [|apply pretty_N_go_length].
    simpl. lia.
  - rewrite decide_False by lia. apply pretty_N_go_length_mono; [lia|done].
Qed.
End Digits.

(** ** The entry of the estimate *)

Section Estimates.
Context `{Library}.
Import Bart.

(** One key of the loop of lines 295-319. *)
Lemma get_estimate_keys_cons (min_value max_value : Z) (key : string)
    (keys : list string) (input_text error_message : string) :
  get_estimate_keys min_value max_value (key :: keys) input_text error_message
  = if bool_decide (key ∈ ["return"; "num_enter"]) then
      if isdigit input_text then
        match int_of_str input_text with
        | None => Raised ValueError
        | Some user_input =>
          if (min_value <=? user_input) && (user_input <=? max_value)
          then Returned user_input
          else get_estimate_keys min_value max_value keys input_text
                 (out_of_range min_value max_value)
        end
      else get_estimate_keys min_value max_value keys input_text invalid_entry
    else if bool_decide (key ∈ ["backspace"]) then
      get_estimate_keys min_value max_value keys (drop_last input_text)
        error_message
    else if bool_decide (key ∈ ["escape"]) then Quit
    else if isdigit key then
      match int_of_str
              (if (String.length input_text
                   <? String.length (str max_value))%nat
               then input_text +:+ key else input_text) with
      | None => Raised ValueError
      | Some n =>
        get_estimate_keys min_value max_value keys
          (if max_value <? n then str max_value
           else if (String.length input_text
                    <? String.length (str max_value))%nat
                then input_text +:+ key else input_text)
          error_message
      end
    else get_estimate_keys min_value max_value keys input_text error_message.
Proof. reflexivity. Qed.

Lemma within_drop_last (max_value : Z) (input_text : string) :
  within max_value input_text → within max_value (drop_last input_text).
Proof.
  intros [->|[Hd Hle]]; [by left|].
  apply isdigit_all_digits in Hd as [_ Hall].
  destruct (drop_last input_text) as [|c s] eqn:Hdrop; [by left|].
  right. rewrite <- Hdrop. split.
  - apply isdigit_all_digits. split; [by rewrite Hdrop|].
    by apply drop_last_all_digits.
  - etrans; [|exact Hle]. by apply drop_last_int_acc.
Qed.

(** What a digit key leaves in [input_text] before [int] reads it. *)
Lemma isdigit_typed (max_value : Z) (input_text key : string) :
  0 ≤ max_value → within max_value input_text → isdigit key = true →
  isdigit (if (String.length input_text <? String.length (str max_value))%nat
           then input_text +:+ key else input_text) = true.
Proof.
  intros Hmax Hin Hkey.
  apply isdigit_all_digits in Hkey as [Hne Hkey].
  destruct (Nat.ltb_spec (String.length input_text)
              (String.length (str max_value))) as [Hlt|Hge].
  - apply isdigit_all_digits. split.
    + intros Hnil. apply (f_equal String.length) in Hnil.
      rewrite length_append in Hnil. destruct key; [done|]. simpl in Hnil. lia.
    + rewrite all_digits_app, Hkey.
      destruct Hin as [->|[Hd _]]; [done|].
      apply isdigit_all_digits in Hd as [_ ->]. done.
  - destruct Hin as [->|[Hd _]]; [|done].
    pose proof (str_isdigit max_value Hmax) as Hs.
    destruct (str max_value); [done|]. simpl in Hge. lia.
Qed.

Lemma get_estimate_keys_within (min_value max_value : Z) (keys : list string)
    (input_text error_message : string) :
  int_reads_decimal → 0 ≤ max_value →
  within max_value input_text →
  match get_estimate_keys min_value max_value keys input_text error_message
  with
  | Raised _ => False
  | Returned n => min_value ≤ n ≤ max_value
  | Asking input_text' _ => within max_value input_text'
  | Quit => True
  end.
Proof.
  intros Hint Hmax. revert input_text error_message.
  induction keys as [|key keys IH]; intros input_text error_message Hin;
    [done|].
  rewrite get_estimate_keys_cons.
  case_bool_decide.
  { destruct (isdigit input_text) eqn:Hd; [|by apply IH].
    rewrite (Hint _ Hd).
    destruct (_ && _) eqn:Hrange; [|by apply IH].
    apply andb_prop in Hrange as [H1 H2].
    apply Z.leb_le in H1, H2. done. }
  case_bool_decide; [by apply IH, within_drop_last|].
  case_bool_decide; [done|].
  destruct (isdigit key) eqn:Hkey; [|by apply IH].
  pose proof (isdigit_typed max_value input_text key Hmax Hin Hkey) as Hd.
  rewrite (Hint _ Hd). apply IH.
  destruct (Z.ltb_spec max_value (int_digits
    (if (String.length input_text <? String.length (str max_value))%nat
     then input_text +:+ key else input_text))) as [Hgt|Hle].
  - right. split; [by apply str_isdigit|]. by rewrite str_value.
  - right. by split.
Qed.

(** Typing the rest [q] of the numeral of [n] after its first part [p]. *)
Lemma get_estimate_keys_typed (min_value max_value n : Z) (p q : string)
    (rest : list string) (error_message : string) :
  int_reads_decimal → 0 ≤ n ≤ max_value →
  p +:+ q = str n →
  get_estimate_keys min_value max_value (typed q ++ rest) p error_message
  = get_estimate_keys min_value max_value rest (str n) error_message.
Proof.
  intros Hint Hn. revert p.
  induction q as [|a q IH]; intros p Hpq.
  { rewrite append_nil_r in Hpq. by subst. }
  assert (p +:+ String a q = (p +:+ String a EmptyString) +:+ q) as Hassoc
    by (by rewrite append_assoc).
  pose proof (str_isdigit n (proj1 Hn)) as Hall.
  apply isdigit_all_digits in Hall as [_ Hall].
  rewrite <- Hpq, Hassoc, !all_digits_app in Hall.
  apply andb_prop in Hall as [Hpa Hq].
  assert (all_digits (p +:+ String a EmptyString) = true) as Hpa'
    by (by rewrite all_digits_app).
  assert (isdigit (p +:+ String a EmptyString) = true) as Hd.
  { apply isdigit_all_digits. split; [|done].
    intros Hnil. apply (f_equal String.length) in Hnil.
    rewrite length_append in Hnil. simpl in Hnil. lia. }
  assert (isdigit (String a EmptyString) = true) as Hkey.
  { by apply andb_prop in Hpa as [_ Ha]. }
  assert (String.length p < String.length (str max_value))%nat as Hlen.
  { eapply Nat.lt_le_trans; [|by apply (str_length_mono n max_value)].
    rewrite <- Hpq, length_append. simpl. lia. }
  assert (int_digits (p +:+ String a EmptyString) ≤ max_value) as Hle.
  { etrans; [|exact (proj2 Hn)]. rewrite <- (str_value n) by lia.
    rewrite <- Hpq, Hassoc. unfold int_digits.
    rewrite (int_acc_app (p +:+ String a EmptyString) q).
    apply int_acc_ge; [done|].
    by apply (int_acc_ge _ 0). }
  change (typed (String a q) ++ rest)
    with (String a EmptyString :: (typed q ++ rest)).
  rewrite get_estimate_keys_cons.
  rewrite bool_decide_false.
  2:{ intros [Heq|[Heq|Hnone%elem_of_nil]%elem_of_cons]%elem_of_cons;
        [discriminate..|done]. }
  rewrite bool_decide_false.
  2:{ intros [Heq|Hnone%elem_of_nil]%elem_of_cons; [discriminate|done]. }
  rewrite bool_decide_false.
  2:{ intros [Heq|Hnone%elem_of_nil]%elem_of_cons; [discriminate|done]. }
  rewrite Hkey. rewrite (proj2 (Nat.ltb_lt _ _) Hlen).
  rewrite (Hint _ Hd). rewrite (proj2 (Z.ltb_ge _ _) Hle).
  apply IH. by rewrite <- Hpq, Hassoc.
Qed.
End Estimates.

(** X15. Whatever keys arrive, the entry of the estimate raises nothing (no
    string other than a numeral ever reaches [int]), and a number it
    returns lies between [min_value] and [max_value]. The key names are
    ASCII and [max_value] is not negative. *)
Theorem estimate_is_within_bounds `{Library}
    (min_value max_value : Z) (keys : list string) :
  Bart.int_reads_decimal → 0 ≤ max_value →
  Forall (λ key, Bart.is_ascii key = true) keys →
  (∀ e, Bart.get_estimate min_value max_value keys ≠ Bart.Raised e)
  ∧ (∀ n, Bart.get_estimate min_value max_value keys = Bart.Returned n →
          min_value ≤ n ≤ max_value).
Proof.
  intros Hint Hmax _.
  pose proof (get_estimate_keys_within min_value max_value keys
                EmptyString EmptyString Hint Hmax (or_introl eq_refl)) as Hend.
  unfold Bart.get_estimate. split.
  - intros e He. by rewrite He in Hend.
  - intros n Hn. by rewrite Hn in Hend.
Qed.

(** X16. What the entry shows while it waits for keys is empty or a numeral
    of at most [max_value]: a digit that would take the number past
    [max_value] replaces it by [max_value]. *)
Theorem shown_estimate_never_exceeds_limit `{Library}
    (min_value max_value : Z) (keys : list string)
    (input_text error_message : string) :
  Bart.int_reads_decimal → 0 ≤ max_value →
  Forall (λ key, Bart.is_ascii key = true) keys →
  Bart.get_estimate min_value max_value keys
  = Bart.Asking input_text error_message →
  Bart.within max_value input_text.
Proof.
  intros Hint Hmax _ Hend.
  pose proof (get_estimate_keys_within min_value max_value keys
                EmptyString EmptyString Hint Hmax (or_introl eq_refl)) as Hin.
  unfold Bart.get_estimate in Hend. by rewrite Hend in Hin.
Qed.

(** X17. Every number between the bounds can be entered: the keys of the
    digits of its numeral, typed into the empty entry and followed by the
    return key, make [get_estimate] return it; the keys that follow are
    not read. *)
Theorem every_estimate_within_bounds_can_be_entered `{Library}
    (min_value max_value n : Z) (rest : list string) :
  Bart.int_reads_decimal →
  0 ≤ n → min_value ≤ n ≤ max_value →
  Bart.get_estimate min_value max_value
    (Bart.typed (Bart.str n) ++ "return" :: rest)
  = Bart.Returned n.
Proof.
  intros Hint Hn Hrange. unfold Bart.get_estimate.
  rewrite (get_estimate_keys_typed min_value max_value n EmptyString
             (Bart.str n)) by (done || lia).
  rewrite get_estimate_keys_cons.
  rewrite bool_decide_true by (by left).
  rewrite str_isdigit by done.
  rewrite (Hint _ (str_isdigit n Hn)), str_value by done.
  rewrite (proj2 (Z.leb_le _ _) (proj1 Hrange)).
  by rewrite (proj2 (Z.leb_le _ _) (proj2 Hrange)).
Qed.

(** The sample library reads numerals. *)
Lemma sample_digits (s : string) (acc : Z) :
  Bart.all_digits s = true → digits s acc = Some (Bart.int_acc s acc).
Proof.
  revert acc. induction s as [|a s IH]; intros acc; simpl; [done|].
  intros [Ha Hs]%andb_prop. unfold Bart.is_digit in Ha.
  apply andb_prop in Ha as [H1 H2]. apply Nat.leb_le in H1, H2.
  rewrite (proj2 (Z.leb_le 48 _)) by lia.
  rewrite (proj2 (Z.leb_le _ 57)) by lia. simpl. by apply IH.
Qed.

Lemma sample_int_reads_decimal : Bart.int_reads_decimal (H:=sample).
Proof.
  intros s Hs. apply isdigit_all_digits in Hs as [Hne Hall].
  destruct s as [|a s]; [done|].
  change (int_of_str (String a s)) with (digits (String a s) 0).
  by apply sample_digits.
Qed.

(** X15 on a yellow balloon: the keys 1, 7 and return. *)
Lemma estimate_is_within_bounds_witness :
  let keys := ["1"; "7"; "return"] in
  Bart.int_reads_decimal (H:=sample) ∧ 0 ≤ 16
  ∧ Forall (λ key, Bart.is_ascii key = true) keys
  ∧ Bart.get_estimate (H:=sample) 1 16 keys = Bart.Returned 16
  ∧ 1 ≤ 16 ≤ 16.
Proof.
  intros keys.
  assert (0 ≤ 16) as H2 by lia.
  assert (Forall (λ key, Bart.is_ascii key = true) keys) as H3
    by (by repeat constructor).
  assert (Bart.get_estimate (H:=sample) 1 16 keys = Bart.Returned 16) as H4
    by (vm_compute; reflexivity).
  split; [exact sample_int_reads_decimal|]. split; [exact H2|].
  split; [exact H3|]. split; [exact H4|].
  exact (proj2 (estimate_is_within_bounds (H:=sample) 1 16 keys
                  sample_int_reads_decimal H2 H3) 16 H4).
Defined.

(** X16 on the same balloon: after the keys 1 and 7 the entry shows 16. *)
Lemma shown_estimate_never_exceeds_limit_witness :
  let keys := ["1"; "7"] in
  Bart.int_reads_decimal (H:=sample) ∧ 0 ≤ 16
  ∧ Forall (λ key, Bart.is_ascii key = true) keys
  ∧ Bart.get_estimate (H:=sample) 1 16 keys = Bart.Asking "16" EmptyString
  ∧ Bart.within 16 "16".
Proof.
  intros keys.
  assert (0 ≤ 16) as H2 by lia.
  assert (Forall (λ key, Bart.is_ascii key = true) keys) as H3
    by (by repeat constructor).
  assert (Bart.get_estimate (H:=sample) 1 16 keys
          = Bart.Asking "16" EmptyString) as H4
    by (vm_compute; reflexivity).
  split; [exact sample_int_reads_decimal|]. split; [exact H2|].
  split; [exact H3|]. split; [exact H4|].
  exact (shown_estimate_never_exceeds_limit (H:=sample) 1 16 keys "16"
           EmptyString sample_int_reads_decimal H2 H3 H4).
Defined.

(** X17 on the estimate 12 for a yellow balloon. *)
Lemma every_estimate_within_bounds_can_be_entered_witness :
  Bart.int_reads_decimal (H:=sample) ∧ 0 ≤ 12 ∧ 1 ≤ 12 ≤ 16
  ∧ Bart.get_estimate (H:=sample) 1 16
      (Bart.typed (Bart.str 12) ++ ["return"])
    = Bart.Returned 12.
Proof.
  assert (0 ≤ 12) as H2 by lia.
  assert (1 ≤ 12 ≤ 16) as H3 by lia.
  split; [exact sample_int_reads_decimal|]. split; [exact H2|].
  split; [exact H3|].
  exact (every_estimate_within_bounds_can_be_entered (H:=sample) 1 16 12 []
           sample_int_reads_decimal H2 H3).
Defined.

(** ** Sockets the server has closed *)

Section Closed.
Context `{Library}.

Lemma step_closed_silent (st st' : system) (ev : event) (c : conn) :
  wf st → c ∈ closed (mem st) → step st ev = Some st' →
  sent_to c (mem st') = sent_to c (mem st).
Proof.
  intros Hwf Hc. destruct (wf_closed _ Hwf c Hc) as [Hlt Hnin].
  unfold step. destruct (main st) as [b|]; [|done].
  destruct ev as [net| |c0|c0 r net].
  - destruct ((accepted_conn net b (accepted st) ;; check) (mem st))
      as [r m] eqn:Hacc.
    apply accept_writes in Hacc as [_ [Hw|[_ Hw]]].
    + destruct r; intros [= <-]; unfold sent_to; fields; by rewrite Hw.
    + destruct r; intros [= <-]; fields;
        (apply (sent_to_app _ _ _ _ Hw)); repeat constructor; simpl; lia.
  - by intros [= <-].
  - destruct (handlers st !! c0) as [[|p]|]; try done.
    rewrite handle_client_enter_eq. by intros [= <-].
  - destruct (handlers st !! c0) as [[|p]|] eqn:Hc0; try done.
    destruct (handle_client_turn net c0 p r (mem st)) as [res m] eqn:Hturn.
    assert (∃ sent, wire m = wire (mem st) ++ sent
                    ∧ Forall (λ x, x.1 ∈ clients (mem st)) sent)
      as (sent & Hw & Hsent).
    { apply handle_client_turn_spec in Hturn
        as [[_ (_ & _ & _ & _ & Hsent)]|(_ & _ & _ & _ & _ & Hsent)];
        [done|done| |].
      - apply (wf_threads _ Hwf). by eexists.
      - exists p. by apply (wf_ids _ Hwf). }
    assert (sent_to c m = sent_to c (mem st)) as Heq.
    { apply (sent_to_app _ _ _ _ Hw). eapply Forall_impl; [exact Hsent|].
      intros x Hx Hxc. simpl in Hx, Hxc. by rewrite Hxc in Hx. }
    destruct res as [[]|]; by intros [= <-].
Qed.

Lemma run_closed_silent (st st' : system) (evs : list event) (c : conn) :
  wf st → c ∈ closed (mem st) → run st evs = Some st' →
  sent_to c (mem st') = sent_to c (mem st).
Proof.
  revert st. induction evs as [|ev evs IH]; intros st Hwf Hc; simpl.
  - by intros [= <-].
  - destruct (step st ev) as [st1|] eqn:Hstep; [|done].
    intros Hrun.
    assert (wf st1) as Hwf1 by by eapply wf_step.
    assert (c ∈ closed (mem st1)) as Hc1
      by by apply (step_later _ _ _ Hwf Hstep).
    rewrite (IH st1) by done. by eapply step_closed_silent.
Qed.

(** The ranking of a state is in order and within the capacity, or
    poisoned, and stays so. *)
Lemma step_ranked_or_poisoned (st st' : system) (ev : event) :
  (ranked (leaderbord (mem st))
   ∧ (length (leaderbord (mem st)) ≤ MAX_LEADERBOARD)%nat)
  ∨ poisoned (leaderbord (mem st)) →
  step st ev = Some st' →
  (ranked (leaderbord (mem st'))
   ∧ (length (leaderbord (mem st')) ≤ MAX_LEADERBOARD)%nat)
  ∨ poisoned (leaderbord (mem st')).
Proof.
  intros [Hr|Hp] Hstep.
  - apply step_board in Hstep
      as [->|(c & data & net & text & v & r1 & s1 & _ & _ & _ & Hrec & ->)];
      [by left|].
    revert Hrec. rewrite recordUpdate_eq.
    destruct (sorted_reverse by_pumps (leaderbord (mem st) ++ [v]))
      as [full|e] eqn:Hsort; intros [= _ <-]; simpl.
    + left. split; [by eapply ranked_take, sorted_reverse_ranked|].
      rewrite length_take. lia.
    + right. unfold sorted_reverse in Hsort.
      destruct (decorate by_pumps (leaderbord (mem st) ++ [v]))
        as [kl|e'] eqn:Hd; [done|].
      apply decorate_Raise in Hd as (a & Ha & Hka). by exists a, e'.
  - right. apply step_poisoned in Hstep as [Hl _]; [|done].
    by eapply poisoned_prefix.
Qed.
End Closed.

Lemma length_remove_first_elem (c : conn) (l : list conn) :
  c ∈ l → S (length (remove_first c l)) = length l.
Proof.
  induction l as [|y l IH]; simpl; [by intros ?%elem_of_nil|].
  case_decide as Hy; [done|]. intros [->|Hin]%elem_of_cons; [done|].
  simpl. by rewrite IH.
Qed.

(** X18. A socket the server has closed is out of the registry for good
    and is never written to again, whatever happens next: no broadcast
    meets a socket that a [finally] block or a refusal closed. *)
Theorem closed_socket_is_left_alone `{Library}
    (evs evs' : list event) (st st' : system) (c : conn) :
  run boot evs = Some st →
  c ∈ closed (mem st) →
  run st evs' = Some st' →
  sent_to c (mem st') = sent_to c (mem st)
  ∧ c ∈ closed (mem st')
  ∧ (c ∉ clients (mem st'))
  ∧ handlers st' !! c = None.
Proof.
  intros Hrun Hc Hrun'.
  assert (wf st) as Hwf by (apply reachable_wf; by exists evs).
  assert (wf st') as Hwf' by by eapply wf_run.
  assert (c ∈ closed (mem st')) as Hc'
    by by apply (run_later _ _ _ Hwf Hrun').
  destruct (wf_closed _ Hwf' c Hc') as [_ Hnin].
  split; [by eapply run_closed_silent|]. split; [done|]. split; [done|].
  destruct (handlers st' !! c) eqn:Hh; [|done].
  destruct Hnin. apply (wf_threads _ Hwf'). by eexists.
Qed.

(** X19. In every state the server reaches, whatever the clients sent, the
    ranking is in descending order of [int(x["pumps"])] with at most
    [MAX_LEADERBOARD] entries, or it holds an entry the sort key refuses. *)
Theorem ranking_is_in_order_or_poisoned `{Library}
    (evs : list event) (st : system) :
  run boot evs = Some st →
  (ranked (leaderbord (mem st))
   ∧ (length (leaderbord (mem st)) ≤ MAX_LEADERBOARD)%nat)
  ∨ poisoned (leaderbord (mem st)).
Proof.
  assert ((ranked (leaderbord (mem boot))
           ∧ (length (leaderbord (mem boot)) ≤ MAX_LEADERBOARD)%nat)
          ∨ poisoned (leaderbord (mem boot))) as Hinv.
  { left. split; [|simpl; lia]. exists []. split; constructor. }
  revert Hinv. generalize boot.
  induction evs as [|ev evs IH]; intros st0 Hinv; simpl.
  - by intros [= <-].
  - destruct (step st0 ev) as [st1|] eqn:Hstep; [|done].
    apply IH. by eapply step_ranked_or_poisoned.
Qed.

(** X20. The main thread takes the branch of line 74 before it blocks in
    [accept]. When it waits in the [else] branch and a player leaves, the
    registry has room again, and still the next connection is the one
    refused: it is sent the rejection, if the send goes through, and is
    not registered. *)
Theorem freed_place_is_not_given_away `{Library}
    (evs : list event) (st : system) (c : conn) (p : Z)
    (net net' : conn → bool) :
  run boot evs = Some st →
  main st = InAccept Refuse →
  handlers st !! c = Some (Running p) →
  ∃ st1 st2,
    step st (Recv c (Data []) net) = Some st1
    ∧ (length (clients (mem st1)) < MAX_PLAYERS)%nat
    ∧ step st1 (Accept net') = Some st2
    ∧ accepted st ∈ refused st2
    ∧ (accepted st ∉ clients (mem st2))
    ∧ clients (mem st2) = clients (mem st1)
    ∧ (net' (accepted st) = true →
       wire (mem st2) = wire (mem st) ++ [(accepted st, rejection)]).
Proof.
  intros Hrun Hmain Hc.
  assert (wf st) as Hwf by (apply reachable_wf; by exists evs).
  assert (c ∈ clients (mem st)) as Hin.
  { apply (wf_threads _ Hwf). by eexists. }
  assert (client_ids (mem st) !! c = Some p) as Hp by by apply (wf_ids _ Hwf).
  assert (step st (Recv c (Data []) net)
          = Some {| mem := disconnected c p (mem st);
                    main := main st; handlers := delete c (handlers st);
                    accepted := accepted st; refused := refused st;
                    issued := issued st |}) as Hstep1.
  { unfold step. rewrite Hmain, Hc.
    unfold handle_client_turn, try_except, loop_body, recv, lift,
      is_Exception, mbind, M_bind, mret, M_ret.
    by rewrite (handle_client_finally_eq c p p). }
  assert (length (remove_first c (clients (mem st))) < MAX_PLAYERS)%nat
    as Hroom.
  { pose proof (wf_capacity _ Hwf) as Hcap.
    pose proof (length_remove_first_elem c _ Hin). lia. }
  assert (accepted st ∉ clients (mem st)) as Hfresh.
  { intros Hx. apply (wf_fresh _ Hwf) in Hx. lia. }
  match type of Hstep1 with _ = Some ?x => set (st1 := x) in * end.
  assert (∃ st2,
    step st1 (Accept net') = Some st2
    ∧ accepted st ∈ refused st2
    ∧ (accepted st ∉ clients (mem st2))
    ∧ clients (mem st2) = clients (mem st1)
    ∧ (net' (accepted st) = true →
       wire (mem st2) = wire (mem st) ++ [(accepted st, rejection)]))
    as (st2 & Hstep2 & Hrest).
  { unfold step, st1. fields. rewrite Hmain.
    unfold accepted_conn, mbind, M_bind, sendall, close, modify.
    destruct (net' (accepted st)) eqn:Hnet.
    - rewrite check_eq. fields. simpl.
      rewrite bool_decide_true by exact Hroom.
      eexists. split; [reflexivity|]. fields. simpl.
      split; [apply elem_of_app; right; by left|].
      split; [intros Hx%elem_of_remove_first_1; done|]. done.
    - eexists. split; [reflexivity|]. fields. simpl.
      split; [apply elem_of_app; right; by left|].
      split; [intros Hx%elem_of_remove_first_1; done|]. done. }
  exists st1, st2. split; [exact Hstep1|]. split; [exact Hroom|].
  split; [exact Hstep2|exact Hrest].
Qed.

(** X18 on the socket of a player that left before the other's update. *)
Lemma closed_socket_is_left_alone_witness :
  let evs := [Accept up; Start 0; Accept up; Start 1;
              Recv 0 (Data []) up]%nat in
  let evs' := [Recv 1%nat (Data (encode (update_text "2" "9"))) up] in
  run (H:=sample) boot evs = Some (after evs)
  ∧ 0%nat ∈ closed (mem (after evs))
  ∧ run (H:=sample) (after evs) evs' = Some (after (evs ++ evs'))
  ∧ sent_to 0%nat (mem (after (evs ++ evs'))) = sent_to 0%nat (mem (after evs))
  ∧ (0%nat ∉ clients (mem (after (evs ++ evs')))).
Proof.
  intros evs evs'.
  assert (run (H:=sample) boot evs = Some (after evs)) as H1
    by (vm_compute; reflexivity).
  assert (0%nat ∈ closed (mem (after evs))) as H2.
  { vm_compute. apply list_elem_of_here. }
  assert (run (H:=sample) (after evs) evs' = Some (after (evs ++ evs'))) as H3
    by (vm_compute; reflexivity).
  repeat (split; [assumption|]).
  destruct (closed_socket_is_left_alone (H:=sample) evs evs' _ _ 0%nat
              H1 H2 H3) as (Hs & _ & Hn & _).
  split; [exact Hs|exact Hn].
Defined.

(** X19 on the first update of a player. *)
Lemma ranking_is_in_order_or_poisoned_witness :
  let evs := [Accept up; Start 0%nat;
              Recv 0%nat (Data (encode (update_text "1" "5"))) up] in
  run (H:=sample) boot evs = Some (after evs)
  ∧ ((ranked (H:=sample) (leaderbord (mem (after evs)))
      ∧ (length (leaderbord (mem (after evs))) ≤ MAX_LEADERBOARD)%nat)
     ∨ poisoned (H:=sample) (leaderbord (mem (after evs)))).
Proof.
  intros evs.
  assert (run (H:=sample) boot evs = Some (after evs)) as H1
    by (vm_compute; reflexivity).
  split; [exact H1|].
  exact (ranking_is_in_order_or_poisoned (H:=sample) evs _ H1).
Defined.

(** X20 on five players of whom the first leaves. *)
Lemma freed_place_is_not_given_away_witness :
  let evs := replicate 5 (Accept up) ++ [Start 0%nat] in
  run (H:=sample) boot evs = Some (after evs)
  ∧ main (after evs) = InAccept Refuse
  ∧ handlers (after evs) !! 0%nat = Some (Running 1)
  ∧ ∃ st1 st2,
      step (H:=sample) (after evs) (Recv 0%nat (Data []) up) = Some st1
      ∧ (length (clients (mem st1)) < MAX_PLAYERS)%nat
      ∧ step (H:=sample) st1 (Accept up) = Some st2
      ∧ accepted (after evs) ∈ refused st2.
Proof.
  intros evs.
  assert (run (H:=sample) boot evs = Some (after evs)) as H1
    by (vm_compute; reflexivity).
  assert (main (after evs) = InAccept Refuse) as H2
    by (vm_compute; reflexivity).
  assert (handlers (after evs) !! 0%nat = Some (Running 1)) as H3
    by (vm_compute; reflexivity).
  repeat (split; [assumption|]).
  destruct (freed_place_is_not_given_away (H:=sample) evs _ 0%nat 1 up up
              H1 H2 H3) as (st1 & st2 & Hs1 & Hroom & Hs2 & Hr & _).
  exists st1, st2. split; [exact Hs1|]. split; [exact Hroom|].
  split; [exact Hs2|exact Hr].
Defined.
